(** * DensePose chart loss (densepose/modeling/losses/chart.py)

    A shallow embedding of [DensePoseChartLoss]: the constructor, the loss
    orchestrator [__call__], the fake-loss generators, the U/V regression
    loss, the fine-segmentation loss with its correction head, and the
    pseudo-label branch.

    Numbers.  Tensor entries and weights are rationals ([Q]) with exact
    arithmetic; a scalar produced by a reduction is a [scalar], which is
    either finite or [NaN] (what [Tensor.mean()] gives on an empty tensor,
    and what [t.sum() * 0] gives when the floating-point sum is not
    finite).  Whether the sum of a tensor is finite is not decided here: it
    is a helper, as the order of equal scores under [torch.argsort] is.
    Statements about values use [==] on [Q].

    Autograd.  A tensor that takes part in differentiation is [tracked]: its
    data together with the set of graph nodes it is connected to.  An
    operation joins the sets of its operands; a value built under
    [torch.no_grad()] has the empty set, and so has a literal constant.

    Errors.  A Python exception is [Raise e]; code that can raise returns a
    [result].  Indexing by a mask of another length, a class index outside
    its score vector, an index outside a tensor and a reshape that does not
    divide raise; broadcasting of a length-one operand is not modelled.

    Helpers.  The functions of utils.py and mask_or_segm.py, the row cross
    entropy of torch, the finiteness of a floating-point sum and the order
    that [torch.argsort] gives to equal scores are fields of the class
    [Helpers]: every theorem holds for all of them. *)

From Stdlib Require Import QArith Qabs Qminmax Lqa.
From stdpp Require Import base option list strings gmap sorting.

(** ** Results of fallible Python code *)

Inductive error := TypeError | IndexError | ValueError | RuntimeError | AttributeError.

Inductive result (A : Type) : Type :=
  | Ok (a : A)
  | Raise (e : error).
Arguments Ok {A} a.
Arguments Raise {A} e.

#[global] Instance result_ret : MRet result := fun A a => Ok a.
#[global] Instance result_bind : MBind result := fun A B f r =>
  match r with
  | Ok a => f a
  | Raise e => Raise e
  end.

(** ** Scalars and tracked values *)

Inductive scalar := Fin (q : Q) | NaN.

Definition smul (s : scalar) (w : Q) : scalar :=
  match s with
  | Fin q => Fin (q * w)%Q
  | NaN => NaN
  end.

Definition is_zero (s : scalar) : Prop :=
  match s with
  | Fin q => (q == 0)%Q
  | NaN => False
  end.

Record tracked (A : Type) : Type := Track { data : A; graph : gset string }.
Arguments Track {A} data graph.
Arguments data {A} t.
Arguments graph {A} t.

(** A constant or ground-truth tensor: no graph behind it. *)
Definition const {A} (a : A) : tracked A := Track a ∅.

(** The result of a [with torch.no_grad():] block. *)
Definition no_grad {A} (t : tracked A) : tracked A := Track (data t) ∅.

Definition tmap {A B} (f : A -> B) (t : tracked A) : tracked B :=
  Track (f (data t)) (graph t).

Definition tbind {A B} (f : A -> result B) (t : tracked A) : result (tracked B) :=
  b ← f (data t); Ok (Track b (graph t)).

Definition tbind2 {A B C} (f : A -> B -> result C) (a : tracked A) (b : tracked B)
  : result (tracked C) :=
  c ← f (data a) (data b); Ok (Track c (graph a ∪ graph b)).

(** [loss * w] for a Python float [w]. *)
Definition scale (l : tracked scalar) (w : Q) : tracked scalar :=
  tmap (fun s => smul s w) l.

(** ** Dense tensors

    A tensor of shape [N, C, H, W], stored row-major as torch does. *)

Record tensor4 := Tensor4 { dN : nat; dC : nat; dH : nat; dW : nat; flat : list Q }.

(** A tensor of shape [N, H, W] (the coarse segmentation ground truth). *)
Record tensor3 := Tensor3 { gN : nat; gH : nat; gW : nat; flat3 : list Q }.

(** [t.unsqueeze(1)] on a 3-D tensor: the data do not move. *)
Definition unsqueeze1 (t : tensor3) : tensor4 :=
  Tensor4 (gN t) 1 (gH t) (gW t) (flat3 t).

Definition at4 (t : tensor4) (n c y x : nat) : Q :=
  nth (((n * dC t + c) * dH t + y) * dW t + x) (flat t) 0%Q.

Definition Qsum (l : list Q) : Q := foldr Qplus 0%Q l.

(** [t.sum()] on a 1-D tensor, [t.mean()]: NaN on an empty tensor. *)
Definition vsum (l : list Q) : scalar := Fin (Qsum l).

Definition vmean (l : list Q) : scalar :=
  match l with
  | [] => NaN
  | _ => Fin (Qsum l / inject_Z (Z.of_nat (length l)))%Q
  end.

(** ** Indexing *)

(** The entries of [xs] at the positions where [mask] is true. *)
Fixpoint mask_filter {A} (mask : list bool) (xs : list A) : list A :=
  match mask, xs with
  | b :: mask', x :: xs' =>
      if b then x :: mask_filter mask' xs' else mask_filter mask' xs'
  | _, _ => []
  end.

(** [xs[mask]] for a boolean [mask]: torch refuses a mask of another length. *)
Definition index_mask {A} (xs : list A) (mask : list bool) : result (list A) :=
  if decide (length mask = length xs) then Ok (mask_filter mask xs)
  else Raise IndexError.

(** [a * b] on two boolean tensors of one length (broadcasting of a
    length-one operand is not modelled: the two masks are per annotated
    point). *)
Definition mul_mask (a b : list bool) : result (list bool) :=
  if decide (length a = length b) then Ok (zip_with andb a b)
  else Raise RuntimeError.

(** [torch.any(mask)] *)
Definition any (mask : list bool) : bool := existsb id mask.

(** [mask.sum()] *)
Definition count_true (mask : list bool) : nat := length (filter (fun b => b = true) mask).

(** [t[idx]] along the first axis of a dense tensor. *)
Definition index_select (t : tensor4) (idx : list nat) : result tensor4 :=
  if forallb (fun i => i <? dN t)%nat idx then
    let sz := (dC t * dH t * dW t)%nat in
    Ok (Tensor4 (length idx) (dC t) (dH t) (dW t)
          (flat_map (fun i => take sz (drop (i * sz) (flat t))) idx))
  else Raise IndexError.

(** [t.permute(0, 2, 3, 1)] flattened: one entry per (n, y, x, c). *)
Definition permute_0231 (t : tensor4) : list Q :=
  n ← seq 0 (dN t); y ← seq 0 (dH t); x ← seq 0 (dW t); c ← seq 0 (dC t);
  [at4 t n c y x].

Fixpoint chunks_aux (fuel n : nat) (l : list Q) : list (list Q) :=
  match fuel with
  | O => []
  | S fuel' =>
      match l with
      | [] => []
      | _ => take n l :: chunks_aux fuel' n (drop n l)
      end
  end.

(** [v.reshape(-1, n)] *)
Definition reshape_rows (n : nat) (v : list Q) : result (list (list Q)) :=
  if decide (n = 0)%nat then Raise RuntimeError
  else if decide (length v `mod` n = 0)%nat then Ok (chunks_aux (length v) n v)
  else Raise RuntimeError.

(** ** Elementwise operations and losses *)

Definition elementwise (f : Q -> Q -> Q) (a b : list Q) : result (list Q) :=
  if decide (length a = length b) then Ok (zip_with f a b)
  else Raise RuntimeError.

(** [x.clamp(lo, hi)] *)
Definition clamp (lo hi : Q) (x : Q) : Q := Qmin (Qmax x lo) hi.

(** One term of [F.smooth_l1_loss] (beta = 1). *)
Definition smooth_l1 (x y : Q) : Q :=
  let d := Qabs (x - y) in
  if Qle_bool 1 d then (d - (1#2))%Q else ((1#2) * d * d)%Q.

Definition smooth_l1_loss_none (input target : list Q) : result (list Q) :=
  elementwise smooth_l1 input target.

(** [F.smooth_l1_loss(input, target, reduction="sum")] *)
Definition smooth_l1_loss_sum (input target : tracked (list Q)) : result (tracked scalar) :=
  tbind2 (fun a b => l ← smooth_l1_loss_none a b; Ok (vsum l)) input target.

(** [row.argmax()]: the first position of the largest entry. *)
Fixpoint argmax_from (best : Q) (besti i : nat) (row : list Q) : nat :=
  match row with
  | [] => besti
  | x :: row' =>
      if Qle_bool x best then argmax_from best besti (S i) row'
      else argmax_from x i (S i) row'
  end.

Definition argmax (row : list Q) : nat :=
  match row with
  | [] => 0%nat
  | x :: row' => argmax_from x 0%nat 1%nat row'
  end.

(** [torch.max(row)] *)
Definition row_max (row : list Q) : Q :=
  match row with
  | [] => 0%Q
  | x :: row' => foldl Qmax x row'
  end.

(** [torch.argsort(row, descending=True)]: positions by decreasing value.
    The call does not ask for a stable sort, so the order of positions with
    equal values is torch's choice: [tie i j] says that position [i] comes
    before position [j] when their values are equal.  Every ranking of the
    positions by decreasing value is the result for some [tie]
    ([argsort_desc_any_ranking] below). *)
Definition before (tie : nat -> nat -> bool) (p q : nat * Q) : bool :=
  if Qle_bool q.2 p.2 then (if Qle_bool p.2 q.2 then tie p.1 q.1 else true)
  else false.

Fixpoint insert_desc (tie : nat -> nat -> bool) (p : nat * Q) (l : list (nat * Q))
  : list (nat * Q) :=
  match l with
  | [] => [p]
  | q :: l' => if before tie p q then p :: l else q :: insert_desc tie p l'
  end.

Definition argsort_desc (tie : nat -> nat -> bool) (row : list Q) : list nat :=
  (foldr (insert_desc tie) [] (imap (fun i x => (i, x)) row)).*1.

(** The place of position [i] in a ranking [t], and the order of ties that
    follows [t]. *)
Fixpoint index_of (i : nat) (t : list nat) : nat :=
  match t with
  | [] => 0%nat
  | j :: t' => if decide (i = j) then 0%nat else S (index_of i t')
  end.

Definition tie_of (t : list nat) (i j : nat) : bool := (index_of i t <? index_of j t)%nat.

(** ** Data model *)

(** Predictor outputs: dense estimates, each with its graph. *)
Record PredictorOutput := {
  coarse_segm : tracked tensor4;
  fine_segm : tracked tensor4;
  u : tracked tensor4;
  v : tracked tensor4;
}.

(** [CorrectorPredictorOutput]: the fields of the correction head read here. *)
Record CorrectorPredictorOutput := {
  crt_fine_segm : tracked tensor4;
  crt_u : tracked tensor4;
  crt_v : tracked tensor4;
}.

Record box := { bx : Q; by_ : Q; bw : Q; bh : Q }.

(** Packed annotations: the fields of the dataclass read by the loss. *)
Record PackedAnnotations := {
  fine_segm_labels_gt : list nat;
  u_gt : list Q;
  v_gt : list Q;
  coarse_segm_gt : tensor3;
  bbox_xywh_gt : list box;
  bbox_xywh_est : list box;
  bbox_indices : list nat;
  fine_segm_p : option tensor4;
  u_p : option tensor4;
  v_p : option tensor4;
}.

Inductive interp_mode := nearest | bilinear.
Inductive padding_mode := zeros | border.

(** The helpers of [densepose.modeling.losses.utils], of
    [MaskOrSegmentationLoss] and of [torch] that the loss calls and whose
    code is not part of this file. *)
Class Helpers := {
  (** [detectron2.structures.Instances] *)
  Instances : Type;
  (** [extract_packed_annotations_from_matches(proposals, accumulator)] with a
      fresh [ChartBasedAnnotationsAccumulator] *)
  extract_packed_annotations_from_matches : list Instances -> option PackedAnnotations;
  (** [BilinearInterpolationHelper] and its attributes *)
  Interpolator : Type;
  from_matches : PackedAnnotations -> nat * nat -> Interpolator;
  j_valid : Interpolator -> list bool;
  w_ylo_xlo : Interpolator -> list Q;
  w_ylo_xhi : Interpolator -> list Q;
  w_yhi_xlo : Interpolator -> list Q;
  w_yhi_xhi : Interpolator -> list Q;
  (** [interpolator.extract_at_points(t)]: one value per annotated point *)
  extract_at_points : Interpolator -> tensor4 -> list Q;
  (** [interpolator.extract_at_points(t, slice_fine_segm=slice(None),
      w_ylo_xlo=..., ...)]: one score vector per annotated point *)
  extract_at_points_sliced :
    Interpolator -> tensor4 -> list Q -> list Q -> list Q -> list Q -> list (list Q);
  (** [resample_data(z, bbox_src, bbox_dst, hout, wout, mode, padding_mode)] *)
  resample_data :
    tensor4 -> list box -> list box -> nat -> nat -> interp_mode -> padding_mode -> tensor4;
  (** [self.segm_loss(proposals, outputs, packed_annotations)] *)
  segm_loss : list Instances -> PredictorOutput -> PackedAnnotations -> tracked scalar;
  (** the cross entropy of one row of scores against a class index:
      minus the log-softmax of the row at that index *)
  ce_row : list Q -> nat -> Q;
  (** whether [t.sum()] is a finite number in the floating-point type of
      [t] (it is not once the sum overflows) *)
  sum_finite : tensor4 -> bool;
  (** the order [torch.argsort] gives to two positions of equal value in a
      row: [tie_first row i j] when position [i] comes first *)
  tie_first : list Q -> nat -> nat -> bool;
}.

(** [cfg]: the configuration options read by the constructor. *)
Record CfgNode := {
  HEATMAP_SIZE : nat;
  POINT_REGRESSION_WEIGHTS : Q;
  PART_WEIGHTS : Q;
  INDEX_WEIGHTS : Q;
  NUM_COARSE_SEGM_CHANNELS : nat;
  COARSE_SEGM_TRAINED_BY_MASKS : bool;
  NUM_PATCHES : nat;
  SEMI_SEGM_WEIGHTS : Q;
  SEMI_POINTS_WEIGHTS : Q;
  SEMI_THRESHOLD : Q;
  SEMI_LOSS_NAME : string;
  SEMI_UV_LOSS_CHANNELS : nat;
  SEMI_COR_POINTS_WEIGHTS : Q;
  SEMI_COR_SEGM_WEIGHTS : Q;
}.

(** The attributes of a [DensePoseChartLoss] object. *)
Record DensePoseChartLoss := {
  heatmap_size : nat;
  w_points : Q;
  w_part : Q;
  w_segm : Q;
  n_segm_chan : nat;
  segm_trained_by_masks : bool;
  w_p_segm : Q;
  w_p_points : Q;
  pseudo_threshold : Q;
  n_channels : nat;
  loss_name : string;
  uv_loss_channels : nat;
  w_crt_points : Q;
  w_crt_segm : Q;
}.

Abbreviation LossDict := (gmap string (tracked scalar)).

(** The attributes that [__init__] sets from [cfg]. *)
Definition attributes (cfg : CfgNode) : DensePoseChartLoss := {|
  heatmap_size := HEATMAP_SIZE cfg;
  w_points := POINT_REGRESSION_WEIGHTS cfg;
  w_part := PART_WEIGHTS cfg;
  w_segm := INDEX_WEIGHTS cfg;
  n_segm_chan := NUM_COARSE_SEGM_CHANNELS cfg;
  segm_trained_by_masks := COARSE_SEGM_TRAINED_BY_MASKS cfg;
  w_p_segm := SEMI_SEGM_WEIGHTS cfg;
  w_p_points := SEMI_POINTS_WEIGHTS cfg;
  pseudo_threshold := SEMI_THRESHOLD cfg;
  n_channels := NUM_PATCHES cfg + 1;
  loss_name := SEMI_LOSS_NAME cfg;
  uv_loss_channels := SEMI_UV_LOSS_CHANNELS cfg;
  w_crt_points := SEMI_COR_POINTS_WEIGHTS cfg;
  w_crt_segm := SEMI_COR_SEGM_WEIGHTS cfg;
|}.

(** [DensePoseChartLoss.__init__]: every option is stored as read; there is
    no statement that raises. *)
Definition init (cfg : CfgNode) : result DensePoseChartLoss := Ok (attributes cfg).

(** [d.update(new)] and [{**a, **b}]: the later entry wins. *)
Definition update (d new : LossDict) : LossDict := new ∪ d.

(** ** Fake losses *)

Section FakeLosses.
Context `{helpers : Helpers}.

(** [t.sum() * 0]: zero when the sum is a finite number; an infinite or NaN
    sum times zero is NaN.  The value stays connected to [t]. *)
Definition sum_times_zero (t : tracked tensor4) : tracked scalar :=
  tmap (fun d => if sum_finite d then Fin (Qsum (flat d) * 0) else NaN) t.

(** Modelled from the spec: [MaskOrSegmentationLoss.fake_value], whose code is
    in mask_or_segm.py; the coarse-segmentation fake value is a zero scalar
    obtained from the coarse segmentation estimates by summing and
    multiplying by zero. *)
Definition segm_loss_fake_value (out : PredictorOutput) : tracked scalar :=
  sum_times_zero (coarse_segm out).

Definition produce_fake_densepose_losses_uv
    (self : DensePoseChartLoss) (out : PredictorOutput)
    (corrections : option CorrectorPredictorOutput) : LossDict :=
  let losses : LossDict :=
    <["loss_densepose_V" := sum_times_zero (v out)]>
      (<["loss_densepose_U" := sum_times_zero (u out)]> ∅) in
  match corrections with
  | Some crt =>
      update losses
        (<["loss_correction_V" := sum_times_zero (crt_v crt)]>
           (<["loss_correction_U" := sum_times_zero (crt_u crt)]> ∅))
  | None => losses
  end.

Definition produce_fake_densepose_losses_unsup
    (self : DensePoseChartLoss) (out : PredictorOutput) : LossDict :=
  <["loss_v_p" := sum_times_zero (v out)]>
    (<["loss_u_p" := sum_times_zero (u out)]>
       (<["loss_unsup_segm" := sum_times_zero (fine_segm out)]> ∅)).

Definition produce_fake_densepose_losses_segm
    (self : DensePoseChartLoss) (out : PredictorOutput)
    (corrections : option CorrectorPredictorOutput) : LossDict :=
  let losses : LossDict :=
    <["loss_densepose_S" := segm_loss_fake_value out]>
      (<["loss_densepose_I" := sum_times_zero (fine_segm out)]> ∅) in
  match corrections with
  | Some crt =>
      update losses (<["loss_correction_I" := sum_times_zero (crt_fine_segm crt)]> ∅)
  | None => losses
  end.

Definition produce_fake_densepose_losses
    (self : DensePoseChartLoss) (out : PredictorOutput)
    (corrections : option CorrectorPredictorOutput) : LossDict :=
  let losses_uv := produce_fake_densepose_losses_uv self out corrections in
  let losses_segm := produce_fake_densepose_losses_segm self out corrections in
  let losses_unsup := produce_fake_densepose_losses_unsup self out in
  update (update losses_uv losses_segm) losses_unsup.

End FakeLosses.

(** ** Real losses *)

Section Losses.
Context `{helpers : Helpers}.

(** [F.cross_entropy(input, target, reduction="none")]: one row of scores
    and one class index per point; torch refuses a class index outside the
    row. *)
Definition cross_entropy_none (input : list (list Q)) (target : list nat)
  : result (list Q) :=
  if decide (length input = length target) then
    if forallb (fun p => (p.2 <? length p.1)%nat) (zip input target)
    then Ok (zip_with ce_row input target)
    else Raise IndexError
  else Raise ValueError.

(** [F.cross_entropy(input, target)]: mean reduction. *)
Definition cross_entropy (input : tracked (list (list Q))) (target : list nat)
  : result (tracked scalar) :=
  tbind (fun rows => l ← cross_entropy_none rows target; Ok (vmean l)) input.

Definition tindex_mask {A} (t : tracked (list A)) (mask : list bool)
  : result (tracked (list A)) :=
  tbind (fun d => index_mask d mask) t.

Definition produce_densepose_losses_uv
    (self : DensePoseChartLoss) (proposals_with_gt : list Instances)
    (out : PredictorOutput) (packed_annotations : PackedAnnotations)
    (interpolator : Interpolator) (j_valid_fg : list bool)
    (corrections : option CorrectorPredictorOutput) : result LossDict :=
  u_gt' ← index_mask (u_gt packed_annotations) j_valid_fg;
  u_est ← tindex_mask (tmap (extract_at_points interpolator) (u out)) j_valid_fg;
  v_gt' ← index_mask (v_gt packed_annotations) j_valid_fg;
  v_est ← tindex_mask (tmap (extract_at_points interpolator) (v out)) j_valid_fg;
  loss_u ← smooth_l1_loss_sum u_est (const u_gt');
  loss_v ← smooth_l1_loss_sum v_est (const v_gt');
  let loss : LossDict :=
    <["loss_densepose_V" := scale loss_v (w_points self)]>
      (<["loss_densepose_U" := scale loss_u (w_points self)]> ∅) in
  match corrections with
  | Some crt =>
      u_crt_est ← tindex_mask (tmap (extract_at_points interpolator) (crt_u crt)) j_valid_fg;
      v_crt_est ← tindex_mask (tmap (extract_at_points interpolator) (crt_v crt)) j_valid_fg;
      u_crt_gt ← tbind2 (elementwise Qminus) (const u_gt') (tmap (map (clamp 0 1)) u_est);
      v_crt_gt ← tbind2 (elementwise Qminus) (const v_gt') (tmap (map (clamp 0 1)) v_est);
      let u_crt_gt := no_grad u_crt_gt in
      let v_crt_gt := no_grad v_crt_gt in
      loss_cu ← smooth_l1_loss_sum u_crt_est u_crt_gt;
      loss_cv ← smooth_l1_loss_sum v_crt_est v_crt_gt;
      Ok (update loss
            (<["loss_correction_V" := scale loss_cv (w_crt_points self)]>
               (<["loss_correction_U" := scale loss_cu (w_crt_points self)]> ∅)))
  | None => Ok loss
  end.

(** [interpolator.extract_at_points(t, slice_fine_segm=slice(None), ...)]
    with the interpolator's own four weight columns. *)
Definition extract_all (interpolator : Interpolator) (t : tracked tensor4)
  : tracked (list (list Q)) :=
  tmap (fun d => extract_at_points_sliced interpolator d
                   (w_ylo_xlo interpolator) (w_ylo_xhi interpolator)
                   (w_yhi_xlo interpolator) (w_yhi_xhi interpolator)) t.

(** [t[index] = s[index]]: the entries of [s] where [index] holds. *)
Definition assign_where {A} (index : list bool) (t s : list A) : list A :=
  zip_with (fun (b : bool) (p : A * A) => if b then p.2 else p.1) index (zip t s).

Definition produce_densepose_losses_segm
    (self : DensePoseChartLoss) (proposals_with_gt : list Instances)
    (out : PredictorOutput) (packed_annotations : PackedAnnotations)
    (interpolator : Interpolator) (j_valid_fg : list bool)
    (corrections : option CorrectorPredictorOutput) : result LossDict :=
  fine_segm_gt ← index_mask (fine_segm_labels_gt packed_annotations) (j_valid interpolator);
  fine_segm_est ← tindex_mask (extract_all interpolator (fine_segm out)) (j_valid interpolator);
  loss_i ← cross_entropy fine_segm_est fine_segm_gt;
  let loss_s := segm_loss proposals_with_gt out packed_annotations in
  let loss : LossDict :=
    <["loss_densepose_S" := scale loss_s (w_segm self)]>
      (<["loss_densepose_I" := scale loss_i (w_part self)]> ∅) in
  match corrections with
  | Some crt =>
      fine_segm_crt_est ←
        tindex_mask (extract_all interpolator (crt_fine_segm crt)) (j_valid interpolator);
      let fine_segm_crt_gt := map (fun _ => n_channels self) fine_segm_gt in
      let index :=
        zip_with (fun row y => negb (argmax row =? y)%nat) (data fine_segm_est) fine_segm_gt in
      let fine_segm_crt_gt := assign_where index fine_segm_crt_gt fine_segm_gt in
      crt_loss ← tbind (fun rows => cross_entropy_none rows fine_segm_crt_gt) fine_segm_crt_est;
      let crt_loss :=
        tmap (fun l => assign_where (map negb index) l (map (fun x => x * 2)%Q l)) crt_loss in
      Ok (update loss
            (<["loss_correction_I" := scale (tmap vmean crt_loss) (w_crt_segm self)]> ∅))
  | None => Ok loss
  end.

(** *** The pseudo-label branch *)

(** The variables carried from one iteration of the loop to the next. *)
Record loop_state := {
  losses : LossDict;
  mask : option (list bool);
  pred_index : option (list (list nat));
  weights : option (list Q);
}.

Inductive step :=
  | Continue (st : loop_state)
  | Return (d : LossDict).

(** [getattr(packed_annotations, p_key)] *)
Definition getattr_packed (pa : PackedAnnotations) (key : string)
  : result (option tensor4) :=
  if decide (key = "fine_segm_p") then Ok (fine_segm_p pa)
  else if decide (key = "u_p") then Ok (u_p pa)
  else if decide (key = "v_p") then Ok (v_p pa)
  else Raise AttributeError.

(** [getattr(densepose_predictor_outputs, e_key)] *)
Definition getattr_outputs (out : PredictorOutput) (key : string)
  : result (tracked tensor4) :=
  if decide (key = "fine_segm") then Ok (fine_segm out)
  else if decide (key = "u") then Ok (u out)
  else if decide (key = "v") then Ok (v out)
  else if decide (key = "coarse_segm") then Ok (coarse_segm out)
  else Raise AttributeError.

(** [t.permute(0, 2, 3, 1).reshape(-1, self.n_channels)[pos_index]] *)
Definition pixel_rows (self : DensePoseChartLoss) (t : tensor4) (pos_index : list bool)
  : result (list (list Q)) :=
  rows ← reshape_rows (n_channels self) (permute_0231 t);
  index_mask rows pos_index.

(** [pred_index[:, i]], for a [pred_index] of [width] columns. *)
Definition column (width i : nat) (pred_index : list (list nat)) : result (list nat) :=
  if decide (i < width)%nat then Ok (map (fun row => nth i row 0%nat) pred_index)
  else Raise IndexError.

(** [rows[np.arange(n), cols]] *)
Definition gather (rows : list (list Q)) (n : nat) (cols : list nat) : result (list Q) :=
  if decide (n = length cols) then
    mapM (fun p : nat * nat =>
            match rows !! p.1 with
            | Some row =>
                match row !! p.2 with
                | Some x => Ok x
                | None => Raise IndexError
                end
            | None => Raise IndexError
            end) (zip (seq 0 n) cols)
  else Raise IndexError.

(** [torch.cat([rows[np.arange(n), pred_index[:, i]] for i in range(k)])] *)
Definition gather_top (k width : nat) (rows : list (list Q)) (n : nat)
    (pred_index : list (list nat)) : result (list Q) :=
  if decide (k = 0)%nat then Raise RuntimeError
  else
    parts ← mapM (fun i => cols ← column width i pred_index; gather rows n cols) (seq 0 k);
    Ok (concat parts).

(** [self.pseudo_threshold < 1] *)
Definition gating (self : DensePoseChartLoss) : bool :=
  negb (Qle_bool 1 (pseudo_threshold self)).

(** The body of the loop for [p_key == "fine_segm_p"] (lines 457-484). *)
Definition segm_branch (self : DensePoseChartLoss) (out : PredictorOutput)
    (st : loop_state) (est : tracked (list (list Q))) (pseudo : list (list Q))
  : result step :=
  let width := uv_loss_channels self `min` n_channels self in
  let segm_conf := map row_max pseudo in
  let pred_index' :=
    map (fun row => take (uv_loss_channels self) (argsort_desc (tie_first row) row))
      pseudo in
  let proceed (mask' : option (list bool)) (pred_index' : list (list nat))
              (est : tracked (list (list Q))) : result step :=
    top ← column width 0 pred_index';
    loss ← tbind (fun rows => cross_entropy_none rows top) est;
    if decide (loss_name self = "sce") then
      (* lines 472-479: [rce_loss * mask] is a TypeError when the mask is
         None (threshold not below one); with the boolean mask of the gate,
         [1 - mask] is refused by torch, which has no subtraction on
         boolean tensors, so no value is stored on this path *)
      match mask' with
      | None => Raise TypeError
      | Some _ => Raise RuntimeError
      end
    else if decide (loss_name self = "ce") then
      Ok (Continue {|
        losses := update (losses st)
                    (<["loss_unsup_segm" := scale (tmap vmean loss) (w_p_segm self)]> ∅);
        mask := mask'; pred_index := Some pred_index'; weights := weights st |})
    else
      Ok (Continue {|
        losses := losses st;
        mask := mask'; pred_index := Some pred_index'; weights := weights st |}) in
  if gating self then
    let mask' := map (fun c => Qle_bool (pseudo_threshold self) c) segm_conf in
    if decide (count_true mask' <= 0)%nat then
      Ok (Return (produce_fake_densepose_losses_unsup self out))
    else
      pred_index' ← index_mask pred_index' mask';
      est ← tindex_mask est mask';
      _ ← index_mask segm_conf mask';
      proceed (Some mask') pred_index' est
  else proceed (mask st) pred_index' est.

(** The body of the loop for the other keys (lines 486-499).  The first
    iteration has set [pred_index], and [mask] whenever the threshold is
    below one; the states in which they are still [None] are not reached. *)
Definition uv_branch (self : DensePoseChartLoss) (p_key : string)
    (st : loop_state) (est : tracked (list (list Q))) (pseudo : list (list Q))
  : result step :=
  let width := uv_loss_channels self `min` n_channels self in
  '(pseudo, est) ←
    (if gating self then
       match mask st with
       | Some m =>
           pseudo ← index_mask pseudo m;
           est ← tindex_mask est m;
           Ok (pseudo, est)
       | None => Raise TypeError
       end
     else Ok (pseudo, est));
  match pred_index st with
  | None => Raise TypeError
  | Some pred_index' =>
      pseudo ← gather_top (uv_loss_channels self) width pseudo (length pseudo) pred_index';
      est ← tbind (fun rows => gather_top (uv_loss_channels self) width rows
                                 (length pred_index') pred_index') est;
      loss ← tbind2 smooth_l1_loss_none est (const pseudo);
      if decide (loss_name self = "sce") then
        match weights st with
        | None => Raise TypeError
        | Some w =>
            lw ← tbind (fun l => elementwise Qmult l w) loss;
            Ok (Continue {|
              losses := update (losses st)
                          (<["loss_" +:+ p_key := scale (tmap vsum lw) (w_p_points self)]> ∅);
              mask := mask st; pred_index := pred_index st; weights := weights st |})
        end
      else if decide (loss_name self = "ce") then
        Ok (Continue {|
          losses := update (losses st)
                      (<["loss_" +:+ p_key := scale (tmap vmean loss) (w_p_points self)]> ∅);
          mask := mask st; pred_index := pred_index st; weights := weights st |})
      else Ok (Continue st)
  end.

(** The student rows and the pseudo rows of one iteration, at the
    foreground positions (lines 442-455). *)
Definition loop_inputs (self : DensePoseChartLoss)
    (packed_annotations : PackedAnnotations) (pos_index : list bool)
    (e : tracked tensor4) (p : tensor4)
  : result (tracked (list (list Q)) * list (list Q)) :=
  est ← tbind (fun d => sel ← index_select d (bbox_indices packed_annotations);
                        pixel_rows self sel pos_index) e;
  let pseudo :=
    resample_data p (bbox_xywh_gt packed_annotations)
      (bbox_xywh_est packed_annotations) (heatmap_size self) (heatmap_size self)
      nearest zeros in
  pseudo ← pixel_rows self pseudo pos_index;
  Ok (est, pseudo).

(** One iteration of [for p_key, e_key in zip(pseudo_keys, est_keys)]. *)
Definition iteration (self : DensePoseChartLoss) (out : PredictorOutput)
    (packed_annotations : PackedAnnotations) (pos_index : list bool)
    (st : loop_state) (keys : string * string) : result step :=
  let '(p_key, e_key) := keys in
  p ← getattr_packed packed_annotations p_key;
  match p with
  | None => Ok (Return (produce_fake_densepose_losses_unsup self out))
  | Some pseudo =>
      e ← getattr_outputs out e_key;
      '(est, pseudo) ← loop_inputs self packed_annotations pos_index e pseudo;
      if decide (p_key = "fine_segm_p") then segm_branch self out st est pseudo
      else uv_branch self p_key st est pseudo
  end.

Fixpoint for_loop (body : loop_state -> string * string -> result step)
    (st : loop_state) (keys : list (string * string)) : result LossDict :=
  match keys with
  | [] => Ok (losses st)
  | k :: keys' =>
      s ← body st k;
      match s with
      | Return d => Ok d
      | Continue st' => for_loop body st' keys'
      end
  end.

(** The variables before the loop: [losses = {}], the others [None]. *)
Definition st0 : loop_state :=
  {| losses := ∅; mask := None; pred_index := None; weights := None |}.

(** [pos_index]: the resampled ground-truth coarse segmentation, [> 0],
    flattened; built under [torch.no_grad()], and boolean. *)
Definition pos_index_of (self : DensePoseChartLoss) (packed_annotations : PackedAnnotations)
  : list bool :=
  map (fun q => negb (Qle_bool q 0))
    (flat (resample_data (unsqueeze1 (coarse_segm_gt packed_annotations))
             (bbox_xywh_gt packed_annotations) (bbox_xywh_est packed_annotations)
             (heatmap_size self) (heatmap_size self) nearest zeros)).

Definition produce_densepose_losses_unsup
    (self : DensePoseChartLoss) (proposals_with_gt : list Instances)
    (out : PredictorOutput) (packed_annotations : PackedAnnotations) : result LossDict :=
  let pseudo_keys := ["fine_segm_p"; "u_p"; "v_p"] in
  let est_keys := ["fine_segm"; "u"; "v"] in
  let pos_index := pos_index_of self packed_annotations in
  for_loop (iteration self out packed_annotations pos_index) st0
    (zip pseudo_keys est_keys).

(** *** The orchestrator *)

(** [DensePoseChartLoss.__call__] *)
Definition call (self : DensePoseChartLoss) (proposals_with_gt : list Instances)
    (out : PredictorOutput) (corrections : option CorrectorPredictorOutput)
  : result LossDict :=
  if decide (length proposals_with_gt = 0)%nat then
    Ok (produce_fake_densepose_losses self out corrections)
  else
    match extract_packed_annotations_from_matches proposals_with_gt with
    | None => Ok (produce_fake_densepose_losses self out corrections)
    | Some packed_annotations =>
        let h := dH (data (u out)) in
        let w := dW (data (u out)) in
        let interpolator := from_matches packed_annotations (h, w) in
        j_valid_fg ←
          mul_mask (j_valid interpolator)
            (map (fun l => 0 <? l)%nat (fine_segm_labels_gt packed_annotations));
        if negb (any j_valid_fg) then
          Ok (produce_fake_densepose_losses self out corrections)
        else
          losses_uv ←
            produce_densepose_losses_uv self proposals_with_gt out packed_annotations
              interpolator j_valid_fg corrections;
          losses_segm ←
            produce_densepose_losses_segm self proposals_with_gt out packed_annotations
              interpolator j_valid_fg corrections;
          losses_unsup ←
            produce_densepose_losses_unsup self proposals_with_gt out packed_annotations;
          Ok (update (update losses_uv losses_segm) losses_unsup)
    end.

End Losses.

(** ** Sample helpers and inputs

    Annotated points that sit on grid nodes: extraction reads the pixel under
    the point, resampling is between equal boxes, and the row cross entropy
    is replaced by a rational stand-in (largest score minus the score of the
    class). *)

Module Sample.

Record interp := {
  i_labels : list nat;
  i_points : list (nat * nat * nat);
  i_valid : list bool;
}.

Definition pixel (t : tensor4) (p : nat * nat * nat) (c : nat) : Q :=
  at4 t p.1.1 c p.1.2 p.2.

(** The largest finite single-precision number, [(2^24 - 1) * 2^104]. *)
Definition float32_max : Q := inject_Z ((2 ^ 24 - 1) * 2 ^ 104).

Definition helpers (points : list (nat * nat * nat)) (valid : list bool) : Helpers := {|
  Instances := PackedAnnotations;
  extract_packed_annotations_from_matches := fun ps => head ps;
  Interpolator := interp;
  from_matches := fun pa _ =>
    {| i_labels := fine_segm_labels_gt pa; i_points := points; i_valid := valid |};
  j_valid := i_valid;
  w_ylo_xlo := fun i => map (fun _ => 1%Q) (i_points i);
  w_ylo_xhi := fun i => map (fun _ => 0%Q) (i_points i);
  w_yhi_xlo := fun i => map (fun _ => 0%Q) (i_points i);
  w_yhi_xhi := fun i => map (fun _ => 0%Q) (i_points i);
  extract_at_points := fun i t => zip_with (pixel t) (i_points i) (i_labels i);
  extract_at_points_sliced := fun i t _ _ _ _ =>
    map (fun p => map (pixel t p) (seq 0 (dC t))) (i_points i);
  resample_data := fun t _ _ _ _ _ _ => t;
  segm_loss := fun _ out _ => tmap (fun _ => Fin 1) (coarse_segm out);
  ce_row := fun row y => (row_max row - nth y row 0)%Q;
  sum_finite := fun t => Qle_bool (Qabs (Qsum (flat t))) float32_max;
  tie_first := fun _ i j => (i <? j)%nat;
|}.

Definition cfg (threshold : Q) (name : string) : CfgNode := {|
  HEATMAP_SIZE := 1;
  POINT_REGRESSION_WEIGHTS := 2;
  PART_WEIGHTS := 3;
  INDEX_WEIGHTS := 5;
  NUM_COARSE_SEGM_CHANNELS := 2;
  COARSE_SEGM_TRAINED_BY_MASKS := false;
  NUM_PATCHES := 1;
  SEMI_SEGM_WEIGHTS := 1;
  SEMI_POINTS_WEIGHTS := 1;
  SEMI_THRESHOLD := threshold;
  SEMI_LOSS_NAME := name;
  SEMI_UV_LOSS_CHANNELS := 1;
  SEMI_COR_POINTS_WEIGHTS := 1;
  SEMI_COR_SEGM_WEIGHTS := 1;
|}.

(** The object built from [cfg]. *)
Definition loss_obj (threshold : Q) (name : string) : DensePoseChartLoss :=
  attributes (cfg threshold name).

(** Two regions of one pixel and two channels (background and one part). *)
Definition dense (a0 a1 b0 b1 : Q) : tensor4 := Tensor4 2 2 1 1 [a0; a1; b0; b1].

Definition out : PredictorOutput := {|
  coarse_segm := Track (dense 0 1 1 0) {["coarse_segm"]};
  fine_segm := Track (dense 0 1 1 0) {["fine_segm"]};
  u := Track (dense 0 (1#2) 0 (1#4)) {["u"]};
  v := Track (dense 0 (1#2) 0 (3#4)) {["v"]};
|}.


Definition crt : CorrectorPredictorOutput := {|
  crt_fine_segm := Track (Tensor4 2 3 1 1 [0; 1; 0; 0; 0; 1]%Q) {["crt_fine_segm"]};
  crt_u := Track (dense 0 (1#10) 0 0) {["crt_u"]};
  crt_v := Track (dense 0 (1#10) 0 0) {["crt_v"]};
|}.

(** One annotated point per region; [labels] are their part labels and
    [segm] the coarse ground truth of the two pixels. *)
Definition packed (labels : list nat) (segm : list Q)
    (fp up vp : option tensor4) : PackedAnnotations := {|
  fine_segm_labels_gt := labels;
  u_gt := [4#10; 1#4]%Q;
  v_gt := [6#10; 1#4]%Q;
  coarse_segm_gt := Tensor3 2 1 1 segm;
  bbox_xywh_gt := [];
  bbox_xywh_est := [];
  bbox_indices := [0; 1]%nat;
  fine_segm_p := fp;
  u_p := up;
  v_p := vp;
|}.

Definition points : list (nat * nat * nat) := [(0, 0, 0); (1, 0, 0)]%nat.

(** Pseudo labels: confidence 9/10 for the part on the first region. *)
Definition pseudo_segm : tensor4 := dense (1#10) (9#10) (2#10) (8#10).
Definition pseudo_uv : tensor4 := dense 0 (3#4) 0 (1#4).

(** Both points valid for the interpolator; only the first one is. *)
Definition h_all : Helpers := helpers points [true; true].

(** A part point and a background point, foreground on the first pixel. *)
Definition pa_fg : PackedAnnotations :=
  packed [1; 0]%nat [1; 0]%Q (Some pseudo_segm) (Some pseudo_uv) (Some pseudo_uv).

(** Two part points, the second one mislabelled by the base prediction. *)
Definition pa_two : PackedAnnotations :=
  packed [1; 1]%nat [1; 0]%Q (Some pseudo_segm) (Some pseudo_uv) (Some pseudo_uv).


(** The pseudo U coordinates are missing. *)
Definition pa_no_u : PackedAnnotations :=
  packed [1; 0]%nat [1; 0]%Q (Some pseudo_segm) None (Some pseudo_uv).

(** The coarse ground truth has no foreground pixel. *)
Definition pa_empty : PackedAnnotations :=
  packed [1; 0]%nat [0; 0]%Q (Some pseudo_segm) (Some pseudo_uv) (Some pseudo_uv).

End Sample.

(** ** Reading a result *)

(** The value stored under a key, when the call returns a map. *)
Definition value_at (k : string) (r : result LossDict) : option scalar :=
  match r with
  | Ok m => data <$> m !! k
  | Raise _ => None
  end.

(** The keys of the map, when the call returns one. *)
Definition keys_of (r : result LossDict) : option (gset string) :=
  match r with
  | Ok m => Some (dom m)
  | Raise _ => None
  end.

(** ** Key sets and selections, as the specification names them *)

Definition base_keys : gset string :=
  {[ "loss_densepose_U"; "loss_densepose_V"; "loss_densepose_I"; "loss_densepose_S";
     "loss_unsup_segm"; "loss_u_p"; "loss_v_p" ]}.

Definition correction_keys : gset string :=
  {[ "loss_correction_U"; "loss_correction_V"; "loss_correction_I" ]}.

Definition expected_keys (corrections : option CorrectorPredictorOutput) : gset string :=
  match corrections with
  | Some _ => base_keys ∪ correction_keys
  | None => base_keys
  end.

(** The positions at which a mask holds. *)
Definition valid_points (mask : list bool) : list nat :=
  filter (fun i => mask !! i = Some true) (seq 0 (length mask)).

Section Selections.
Context `{helpers : Helpers}.

(** The confidence gate of the pseudo-label branch: one flag per foreground
    position, set when the largest pseudo score reaches the threshold. *)
Definition confidence_mask (self : DensePoseChartLoss) (pseudo : list (list Q)) : list bool :=
  map (fun c => Qle_bool (pseudo_threshold self) c) (map row_max pseudo).

(** The [uv_loss_channels] best channels of every position. *)
Definition top_k (self : DensePoseChartLoss) (pseudo : list (list Q)) : list (list nat) :=
  map (fun row => take (uv_loss_channels self) (argsort_desc (tie_first row) row)) pseudo.

(** What the gate keeps of a per-position list: everything when the
    threshold is not below one. *)
Definition gated {A} (self : DensePoseChartLoss) (pseudo : list (list Q)) (l : list A)
  : list A :=
  if gating self then mask_filter (confidence_mask self pseudo) l else l.

(** The positions that enter the pseudo losses: those the gate keeps when the
    threshold is below one, and all of them otherwise. *)
Definition kept (self : DensePoseChartLoss) (pseudo : list (list Q)) : list nat :=
  if gating self then valid_points (confidence_mask self pseudo)
  else seq 0 (length pseudo).

(** The pseudo-segmentation term of position [i]: the cross entropy of the
    student scores against the best pseudo channel. *)
Definition pseudo_segm_term (self : DensePoseChartLoss)
    (est pseudo : list (list Q)) (i : nat) : Q :=
  ce_row (nth i est []) (nth 0 (nth i (top_k self pseudo) []) 0%nat).

End Selections.

(** The regression term of one coordinate: the smooth-L1 terms of the
    points selected by [fg], summed. *)
Definition regression_term (fg : list bool) (est gt : list Q) : scalar :=
  vsum ((fun i => smooth_l1 (nth i est 0%Q) (nth i gt 0%Q)) <$> valid_points fg).

(** The correction term of one coordinate: smooth-L1 between the corrected
    value and the residual [gt - clamp(est, 0, 1)] at the points selected by
    [fg], summed. *)
Definition correction_term (fg : list bool) (crt_est est gt : list Q) : scalar :=
  vsum ((fun i => smooth_l1 (nth i crt_est 0%Q)
                    (nth i gt 0%Q - clamp 0 1 (nth i est 0%Q))%Q) <$> valid_points fg).

Section SegmentationTerms.
Context `{helpers : Helpers}.

(** The fine-segmentation term of point [i]: the cross entropy of its score
    vector against its label. *)
Definition fine_segm_term (rows : list (list Q)) (labels : list nat) (i : nat) : Q :=
  ce_row (nth i rows []) (nth i labels 0%nat).

(** Whether the base prediction of point [i] is its label. *)
Definition agrees (rows : list (list Q)) (labels : list nat) (i : nat) : bool :=
  (argmax (nth i rows []) =? nth i labels 0%nat)%nat.

(** The class the correction head is trained on at point [i]: the abstain
    class [n_channels] when the base prediction agrees, else the label. *)
Definition correction_target (self : DensePoseChartLoss)
    (rows : list (list Q)) (labels : list nat) (i : nat) : nat :=
  if agrees rows labels i then n_channels self else nth i labels 0%nat.

(** The correction term of point [i]: its cross entropy against the target,
    doubled when the base prediction agrees. *)
Definition correction_segm_term (self : DensePoseChartLoss)
    (crt_rows rows : list (list Q)) (labels : list nat) (i : nat) : Q :=
  let ce := ce_row (nth i crt_rows []) (correction_target self rows labels i) in
  if agrees rows labels i then (ce * 2)%Q else ce.

End SegmentationTerms.

(** ** Further definitions *)

(** The keys of the pseudo-label branch. *)
Definition pseudo_keys : gset string := {[ "loss_unsup_segm"; "loss_u_p"; "loss_v_p" ]}.

(** [torch.cat([rows[np.arange(n), pred[:, i]] for i in range(k)])] read
    position by position: for every channel rank [i] below [k], the entry of
    each row at the channel its [pred] row ranks [i]-th, the ranks one after
    the other. *)
Definition gathered (k : nat) (rows : list (list Q)) (pred : list (list nat)) : list Q :=
  concat ((fun i =>
             (fun r => nth (nth i (nth r pred []) 0%nat) (nth r rows []) 0%Q)
               <$> seq 0 (length pred)) <$> seq 0 k).

Section PseudoUVTerms.
Context `{helpers : Helpers}.

(** What an iteration after the first keeps of a per-position list: the
    positions of the stored mask when the gate is active. *)
Definition masked {A} (self : DensePoseChartLoss) (m : option (list bool)) (l : list A)
  : list A :=
  if gating self then
    match m with
    | Some m => mask_filter m l
    | None => l
    end
  else l.

(** The pseudo U/V terms: for every channel rank below [uv_loss_channels]
    and every kept position, smooth-L1 between the student value and the
    pseudo value at the channel of that rank. *)
Definition pseudo_uv_terms (self : DensePoseChartLoss)
    (pseudo_segm est pseudo : list (list Q)) : list Q :=
  concat ((fun i =>
             (fun j =>
                let c := nth i (nth j (top_k self pseudo_segm) []) 0%nat in
                smooth_l1 (nth c (nth j est []) 0%Q) (nth c (nth j pseudo []) 0%Q))
               <$> kept self pseudo_segm) <$> seq 0 (uv_loss_channels self)).

End PseudoUVTerms.


(** The sample configuration with [k] pseudo channels in use. *)
Definition cfg_channels (k : nat) (threshold : Q) (name : string) : CfgNode := {|
  HEATMAP_SIZE := HEATMAP_SIZE (Sample.cfg threshold name);
  POINT_REGRESSION_WEIGHTS := POINT_REGRESSION_WEIGHTS (Sample.cfg threshold name);
  PART_WEIGHTS := PART_WEIGHTS (Sample.cfg threshold name);
  INDEX_WEIGHTS := INDEX_WEIGHTS (Sample.cfg threshold name);
  NUM_COARSE_SEGM_CHANNELS := NUM_COARSE_SEGM_CHANNELS (Sample.cfg threshold name);
  COARSE_SEGM_TRAINED_BY_MASKS := COARSE_SEGM_TRAINED_BY_MASKS (Sample.cfg threshold name);
  NUM_PATCHES := NUM_PATCHES (Sample.cfg threshold name);
  SEMI_SEGM_WEIGHTS := SEMI_SEGM_WEIGHTS (Sample.cfg threshold name);
  SEMI_POINTS_WEIGHTS := SEMI_POINTS_WEIGHTS (Sample.cfg threshold name);
  SEMI_THRESHOLD := threshold;
  SEMI_LOSS_NAME := name;
  SEMI_UV_LOSS_CHANNELS := k;
  SEMI_COR_POINTS_WEIGHTS := SEMI_COR_POINTS_WEIGHTS (Sample.cfg threshold name);
  SEMI_COR_SEGM_WEIGHTS := SEMI_COR_SEGM_WEIGHTS (Sample.cfg threshold name);
|}.
(** * Properties *)

(** ** Results *)

Lemma bind_Ok {A B} (r : result A) (k : A -> result B) (b : B) :
  r ≫= k = Ok b -> exists a, r = Ok a /\ k a = Ok b.
Proof. destruct r as [a|e]; simpl; [eauto | discriminate]. Qed.

Lemma tbind_Ok {A B} (f : A -> result B) (t : tracked A) (r : tracked B) :
  tbind f t = Ok r -> f (data t) = Ok (data r) /\ graph r = graph t.
Proof.
  unfold tbind. intros E. apply bind_Ok in E as (b & Eb & E).
  injection E as <-. auto.
Qed.

Lemma tbind2_Ok {A B C} (f : A -> B -> result C) (a : tracked A) (b : tracked B)
    (r : tracked C) :
  tbind2 f a b = Ok r -> f (data a) (data b) = Ok (data r) /\ graph r = graph a ∪ graph b.
Proof.
  unfold tbind2. intros E. apply bind_Ok in E as (c & Ec & E).
  injection E as <-. auto.
Qed.

(** Splits the first bind of a hypothesis [r ≫= k = Ok b]. *)
Ltac bind_inv E :=
  let a := fresh "a" in
  let Ea := fresh "E" a in
  apply bind_Ok in E as (a & Ea & E).

(** ** Fake losses *)

Section FakeFacts.
Context `{helpers : Helpers}.

(** [t.sum() * 0] is zero exactly when the sum is finite, and NaN
    otherwise. *)
Lemma sum_times_zero_value (t : tracked tensor4) :
  is_zero (data (sum_times_zero t)) <-> sum_finite (data t) = true.
Proof.
  unfold sum_times_zero. simpl. destruct (sum_finite (data t)); simpl.
  - split; [done|]. intros _. ring.
  - split; [done|discriminate].
Qed.

Lemma sum_times_zero_nan (t : tracked tensor4) :
  data (sum_times_zero t) = NaN <-> sum_finite (data t) = false.
Proof.
  unfold sum_times_zero. simpl. destruct (sum_finite (data t)); split; done.
Qed.

Lemma sum_times_zero_graph (t : tracked tensor4) : graph (sum_times_zero t) = graph t.
Proof. reflexivity. Qed.

Lemma fake_dom self out corrections :
  dom (produce_fake_densepose_losses self out corrections) = expected_keys corrections.
Proof.
  unfold produce_fake_densepose_losses, produce_fake_densepose_losses_uv,
    produce_fake_densepose_losses_segm, produce_fake_densepose_losses_unsup, update,
    expected_keys, base_keys, correction_keys.
  destruct corrections; rewrite ?dom_union_L, ?dom_insert_L, ?dom_empty_L; set_solver.
Qed.

Lemma fake_unsup_dom self out :
  dom (produce_fake_densepose_losses_unsup self out)
  = {[ "loss_unsup_segm"; "loss_u_p"; "loss_v_p" ]}.
Proof.
  unfold produce_fake_densepose_losses_unsup.
  rewrite ?dom_insert_L, ?dom_empty_L. set_solver.
Qed.


End FakeFacts.

(** ** Masks *)

Lemma any_false (m : list bool) :
  any m = false <-> forall i, m !! i <> Some true.
Proof.
  unfold any. induction m as [|b m IH]; simpl.
  - split; [intros _ i; by rewrite lookup_nil | done].
  - rewrite orb_false_iff, IH. split.
    + intros [Hb Hm] [|i]; simpl; [unfold id in Hb; congruence | apply Hm].
    + intros Hi. split.
      * specialize (Hi 0%nat). simpl in Hi. unfold id. destruct b; congruence.
      * intros i. apply (Hi (S i)).
Qed.



(** ** Key sets of the real losses *)

Section RealKeys.
Context `{helpers : Helpers}.

Lemma uv_dom self proposals out pa interpolator fg corrections m :
  produce_densepose_losses_uv self proposals out pa interpolator fg corrections = Ok m ->
  dom m = {[ "loss_densepose_U"; "loss_densepose_V" ]}
          ∪ match corrections with
            | Some _ => {[ "loss_correction_U"; "loss_correction_V" ]}
            | None => ∅
            end.
Proof.
  unfold produce_densepose_losses_uv. intros E.
  do 6 bind_inv E. destruct corrections.
  - do 6 bind_inv E. injection E as <-. unfold update.
    rewrite ?dom_union_L, ?dom_insert_L, ?dom_empty_L. set_solver.
  - injection E as <-. rewrite ?dom_insert_L, ?dom_empty_L. set_solver.
Qed.

Lemma segm_dom self proposals out pa interpolator fg corrections m :
  produce_densepose_losses_segm self proposals out pa interpolator fg corrections = Ok m ->
  dom m = {[ "loss_densepose_I"; "loss_densepose_S" ]}
          ∪ match corrections with
            | Some _ => {[ "loss_correction_I" ]}
            | None => ∅
            end.
Proof.
  unfold produce_densepose_losses_segm. intros E.
  do 3 bind_inv E. destruct corrections.
  - do 2 bind_inv E. injection E as <-. unfold update.
    rewrite ?dom_union_L, ?dom_insert_L, ?dom_empty_L. set_solver.
  - injection E as <-. rewrite ?dom_insert_L, ?dom_empty_L. set_solver.
Qed.

End RealKeys.

(** ** The loop of the pseudo-label branch *)

Section PseudoLoop.
Context `{helpers : Helpers}.

Lemma index_mask_Ok {A} (xs : list A) (m : list bool) (r : list A) :
  index_mask xs m = Ok r -> length m = length xs /\ r = mask_filter m xs.
Proof. unfold index_mask. case_decide; [|discriminate]. by intros [= <-]. Qed.

Lemma cross_entropy_none_Ok (rows : list (list Q)) (target : list nat) (l : list Q) :
  cross_entropy_none rows target = Ok l ->
  length rows = length target /\ l = zip_with ce_row rows target.
Proof.
  unfold cross_entropy_none. case_decide; [|discriminate].
  destruct (forallb _ _); [|discriminate]. by intros [= <-].
Qed.

Lemma column_Ok (width i : nat) (pi : list (list nat)) (c : list nat) :
  column width i pi = Ok c ->
  (i < width)%nat /\ c = map (fun row => nth i row 0%nat) pi.
Proof. unfold column. case_decide; [|discriminate]. by intros [= <-]. Qed.

(** The first iteration leaves the loop only through the fake losses, and
    only when the gate is active and keeps nothing. *)
Lemma segm_branch_Return self out st est pseudo d :
  segm_branch self out st est pseudo = Ok (Return d) ->
  d = produce_fake_densepose_losses_unsup self out
  /\ gating self = true /\ count_true (confidence_mask self pseudo) = 0%nat.
Proof.
  unfold segm_branch. destruct (gating self) eqn:G.
  - case_decide as Hc.
    + intros [= <-]. unfold confidence_mask. split; [done|split; [done|lia]].
    + intros E. do 5 bind_inv E.
      repeat case_decide; try discriminate.
  - intros E. do 2 bind_inv E. repeat case_decide; try discriminate.
    destruct (mask st); discriminate.
Qed.

(** What the first iteration leaves behind when the loop goes on. *)
Lemma segm_branch_Continue self out st est pseudo st' :
  segm_branch self out st est pseudo = Ok (Continue st') ->
  loss_name self <> "sce"
  /\ (gating self = true ->
      count_true (confidence_mask self pseudo) <> 0%nat
      /\ length (confidence_mask self pseudo) = length (data est))
  /\ mask st' = (if gating self then Some (confidence_mask self pseudo) else mask st)
  /\ pred_index st' = Some (gated self pseudo (top_k self pseudo))
  /\ weights st' = weights st
  /\ exists l,
       cross_entropy_none (gated self pseudo (data est))
         (map (fun row => nth 0 row 0%nat) (gated self pseudo (top_k self pseudo))) = Ok l
       /\ losses st'
          = if decide (loss_name self = "ce")
            then update (losses st)
                   (<["loss_unsup_segm" :=
                        scale (Track (vmean l) (graph est)) (w_p_segm self)]> ∅)
            else losses st.
Proof.
  unfold segm_branch, gated. fold (confidence_mask self pseudo) (top_k self pseudo).
  destruct (gating self) eqn:G.
  - case_decide as Hc; [discriminate|].
    intros E. do 5 bind_inv E.
    apply index_mask_Ok in Ea as [_ ->].
    unfold tindex_mask in Ea0. apply tbind_Ok in Ea0 as [Ea0 Hg0].
    apply index_mask_Ok in Ea0 as [Hlen Ha0].
    apply column_Ok in Ea2 as [_ ->].
    apply tbind_Ok in Ea3 as [Ea3 Hg3]. rewrite Ha0 in Ea3.
    destruct (decide (loss_name self = "sce")) as [|Hsce]; [discriminate|].
    destruct (decide (loss_name self = "ce")) as [Hce|Hce];
      injection E as <-; simpl;
      (split; [done|]); (split; [intros _; split; [lia|done]|]);
      (split; [done|]); (split; [done|]); (split; [done|]);
      exists (data a3); (split; [done|]);
      [destruct a3 as [d3 g3]; simpl in *; subst g3; by rewrite Hg0 | done].
  - intros E. do 2 bind_inv E.
    apply column_Ok in Ea as [_ ->].
    apply tbind_Ok in Ea0 as [Ea0 Hg0].
    destruct (decide (loss_name self = "sce")) as [|Hsce];
      [destruct (mask st); discriminate|].
    destruct (decide (loss_name self = "ce")) as [Hce|Hce];
      injection E as <-; simpl;
      (split; [done|]); (split; [discriminate|]);
      (split; [done|]); (split; [done|]); (split; [done|]);
      exists (data a0); (split; [done|]);
      [destruct a0 as [d0 g0]; simpl in *; by subst g0 | done].
Qed.

(** The later iterations never leave the loop, and add one entry under the
    two known loss names. *)
Lemma uv_branch_Ok self p_key st est pseudo s :
  uv_branch self p_key st est pseudo = Ok s ->
  exists st', s = Continue st'
    /\ mask st' = mask st /\ pred_index st' = pred_index st /\ weights st' = weights st
    /\ ((loss_name self = "ce" \/ loss_name self = "sce") ->
        exists x, losses st' = update (losses st) (<["loss_" +:+ p_key := x]> ∅))
    /\ (loss_name self <> "ce" -> loss_name self <> "sce" -> losses st' = losses st).
Proof.
  unfold uv_branch. intros E. bind_inv E. destruct a as [pseudo' est'].
  destruct (pred_index st) as [pi|] eqn:Epi; [|discriminate].
  do 3 bind_inv E.
  destruct (decide (loss_name self = "sce")) as [Hsce|Hsce].
  - destruct (weights st) as [w|] eqn:Ew; [|discriminate].
    bind_inv E. injection E as <-. eexists. split; [done|]. simpl.
    repeat split; try done; try congruence; intros; eauto.
  - destruct (decide (loss_name self = "ce")) as [Hce|Hce]; injection E as <-.
    + eexists. split; [done|]. simpl. repeat split; try done; try congruence; intros; eauto.
    + exists st. repeat split; try done. intros [?|?]; congruence.
Qed.

Lemma iteration_Return self out pa pos st keys d :
  iteration self out pa pos st keys = Ok (Return d) ->
  d = produce_fake_densepose_losses_unsup self out.
Proof.
  unfold iteration. destruct keys as [p_key e_key]. intros E.
  bind_inv E. destruct a as [p|]; [|by injection E as <-].
  do 2 bind_inv E. destruct a0 as [est pseudo]. case_decide.
  - by apply segm_branch_Return in E as [-> _].
  - apply uv_branch_Ok in E as (st' & [=] & _).
Qed.

(** The branch returns the fake losses whenever an iteration leaves the
    loop, and otherwise what three completed iterations have stored. *)
Lemma unsup_cases self proposals out pa m :
  produce_densepose_losses_unsup self proposals out pa = Ok m ->
  m = produce_fake_densepose_losses_unsup self out
  \/ exists st1 st2 st3,
       let pos := pos_index_of self pa in
       iteration self out pa pos st0 ("fine_segm_p", "fine_segm") = Ok (Continue st1)
       /\ iteration self out pa pos st1 ("u_p", "u") = Ok (Continue st2)
       /\ iteration self out pa pos st2 ("v_p", "v") = Ok (Continue st3)
       /\ m = losses st3.
Proof.
  unfold produce_densepose_losses_unsup. simpl zip. unfold for_loop. intros E.
  bind_inv E. destruct a as [st1|d]; [|injection E as <-; left; by eapply iteration_Return].
  bind_inv E. destruct a as [st2|d]; [|injection E as <-; left; by eapply iteration_Return].
  bind_inv E. destruct a as [st3|d]; [|injection E as <-; left; by eapply iteration_Return].
  injection E as <-. right. by exists st1, st2, st3.
Qed.

End PseudoLoop.

Section PseudoBranch.
Context `{helpers : Helpers}.

Lemma iteration_segm self out pa pos st p est pseudo :
  fine_segm_p pa = Some p ->
  loop_inputs self pa pos (fine_segm out) p = Ok (est, pseudo) ->
  iteration self out pa pos st ("fine_segm_p", "fine_segm")
  = segm_branch self out st est pseudo.
Proof. intros Hp Hin. unfold iteration. simpl. by rewrite Hp, Hin. Qed.

Lemma iteration_u self out pa pos st p est pseudo :
  u_p pa = Some p ->
  loop_inputs self pa pos (u out) p = Ok (est, pseudo) ->
  iteration self out pa pos st ("u_p", "u") = uv_branch self "u_p" st est pseudo.
Proof. intros Hp Hin. unfold iteration. simpl. by rewrite Hp, Hin. Qed.

Lemma iteration_v self out pa pos st p est pseudo :
  v_p pa = Some p ->
  loop_inputs self pa pos (v out) p = Ok (est, pseudo) ->
  iteration self out pa pos st ("v_p", "v") = uv_branch self "v_p" st est pseudo.
Proof. intros Hp Hin. unfold iteration. simpl. by rewrite Hp, Hin. Qed.

Lemma iteration_segm_Continue self out pa pos st st' :
  iteration self out pa pos st ("fine_segm_p", "fine_segm") = Ok (Continue st') ->
  exists p est pseudo,
    fine_segm_p pa = Some p
    /\ loop_inputs self pa pos (fine_segm out) p = Ok (est, pseudo)
    /\ segm_branch self out st est pseudo = Ok (Continue st').
Proof.
  unfold iteration. simpl. destruct (fine_segm_p pa) as [p|]; simpl; [|discriminate].
  intros E. bind_inv E. destruct a as [est pseudo]. by exists p, est, pseudo.
Qed.

Lemma iteration_u_Continue self out pa pos st st' :
  iteration self out pa pos st ("u_p", "u") = Ok (Continue st') ->
  exists p est pseudo,
    u_p pa = Some p
    /\ loop_inputs self pa pos (u out) p = Ok (est, pseudo)
    /\ uv_branch self "u_p" st est pseudo = Ok (Continue st').
Proof.
  unfold iteration. simpl. destruct (u_p pa) as [p|]; simpl; [|discriminate].
  intros E. bind_inv E. destruct a as [est pseudo]. by exists p, est, pseudo.
Qed.

Lemma iteration_v_Continue self out pa pos st st' :
  iteration self out pa pos st ("v_p", "v") = Ok (Continue st') ->
  exists p est pseudo,
    v_p pa = Some p
    /\ loop_inputs self pa pos (v out) p = Ok (est, pseudo)
    /\ uv_branch self "v_p" st est pseudo = Ok (Continue st').
Proof.
  unfold iteration. simpl. destruct (v_p pa) as [p|]; simpl; [|discriminate].
  intros E. bind_inv E. destruct a as [est pseudo]. by exists p, est, pseudo.
Qed.

(** Three completed iterations under a known loss name store the three
    pseudo entries, one each. *)
Lemma three_iterations self out pa pos st1 st2 st3 :
  loss_name self = "ce" \/ loss_name self = "sce" ->
  iteration self out pa pos st0 ("fine_segm_p", "fine_segm") = Ok (Continue st1) ->
  iteration self out pa pos st1 ("u_p", "u") = Ok (Continue st2) ->
  iteration self out pa pos st2 ("v_p", "v") = Ok (Continue st3) ->
  exists a b c,
    loss_name self = "ce"
    /\ losses st1 = <["loss_unsup_segm" := a]> ∅
    /\ losses st2 = update (losses st1) (<["loss_u_p" := b]> ∅)
    /\ losses st3 = update (losses st2) (<["loss_v_p" := c]> ∅).
Proof.
  intros Hname E1 E2 E3.
  apply iteration_segm_Continue in E1 as (p1 & est1 & ps1 & _ & _ & E1).
  apply iteration_u_Continue in E2 as (p2 & est2 & ps2 & _ & _ & E2).
  apply iteration_v_Continue in E3 as (p3 & est3 & ps3 & _ & _ & E3).
  apply segm_branch_Continue in E1 as (Hsce & _ & _ & _ & _ & l & _ & E1).
  assert (Hce : loss_name self = "ce") by (destruct Hname; congruence).
  destruct (decide (loss_name self = "ce")); [|contradiction].
  apply uv_branch_Ok in E2 as (? & [= <-] & _ & _ & _ & E2 & _).
  apply uv_branch_Ok in E3 as (? & [= <-] & _ & _ & _ & E3 & _).
  destruct (E2 Hname) as [b Hb]. destruct (E3 Hname) as [c Hc].
  eexists _, b, c. split; [done|]. split; [|done].
  rewrite E1. unfold update, st0. simpl. by rewrite (right_id_L ∅ (∪)).
Qed.

Lemma unsup_dom self proposals out pa m :
  loss_name self = "ce" \/ loss_name self = "sce" ->
  produce_densepose_losses_unsup self proposals out pa = Ok m ->
  dom m = {[ "loss_unsup_segm"; "loss_u_p"; "loss_v_p" ]}.
Proof.
  intros Hname E. apply unsup_cases in E as [-> | (st1 & st2 & st3 & E1 & E2 & E3 & ->)].
  - apply fake_unsup_dom.
  - destruct (three_iterations _ _ _ _ _ _ _ Hname E1 E2 E3) as (a & b & c & _ & H1 & H2 & H3).
    rewrite H3, H2, H1. unfold update.
    rewrite ?dom_union_L, ?dom_insert_L, ?dom_empty_L. set_solver.
Qed.

(** Under a known loss name the real path stores the same keys as the fake
    path. *)
Lemma call_dom self proposals out corrections m :
  loss_name self = "ce" \/ loss_name self = "sce" ->
  call self proposals out corrections = Ok m ->
  dom m = expected_keys corrections.
Proof.
  intros Hname. unfold call.
  case_decide; [intros [= <-]; apply fake_dom|].
  destruct (extract_packed_annotations_from_matches proposals) as [pa|];
    [|intros [= <-]; apply fake_dom].
  intros E. bind_inv E.
  destruct (negb (any a)); [injection E as <-; apply fake_dom|].
  do 3 bind_inv E. injection E as <-.
  apply uv_dom in Ea0. apply segm_dom in Ea1. apply (unsup_dom _ _ _ _ _ Hname) in Ea2.
  unfold update. rewrite !dom_union_L, Ea0, Ea1, Ea2.
  unfold expected_keys, base_keys, correction_keys.
  destruct corrections; apply set_eq; intros k; set_unfold; tauto.
Qed.

End PseudoBranch.

(** C2, amended.  Every fake loss is the sum of its own output tensor
    multiplied by zero ([t.sum() * 0]): its graph is that of the tensor, so
    it is not a literal constant, and its value is zero exactly when the sum
    is a finite number.  The keys of the fake map are the seven base keys,
    with the three correction keys exactly when corrections are given.
    When [loss_name] is "ce" or "sce", every map that [__call__] returns,
    fake or real, has the same keys; for another name, which the
    constructor accepts, the keys of the real path can differ. *)
Theorem fake_losses_form_and_keys `{helpers : Helpers}
    (self : DensePoseChartLoss) (out : PredictorOutput)
    (corrections : option CorrectorPredictorOutput) :
  let fake := produce_fake_densepose_losses self out corrections in
  (fake !! "loss_densepose_U" = Some (sum_times_zero (u out))
   /\ fake !! "loss_densepose_V" = Some (sum_times_zero (v out))
   /\ fake !! "loss_densepose_I" = Some (sum_times_zero (fine_segm out))
   /\ fake !! "loss_densepose_S" = Some (sum_times_zero (coarse_segm out))
   /\ fake !! "loss_unsup_segm" = Some (sum_times_zero (fine_segm out))
   /\ fake !! "loss_u_p" = Some (sum_times_zero (u out))
   /\ fake !! "loss_v_p" = Some (sum_times_zero (v out)))
  /\ (forall crt, corrections = Some crt ->
        fake !! "loss_correction_U" = Some (sum_times_zero (crt_u crt))
        /\ fake !! "loss_correction_V" = Some (sum_times_zero (crt_v crt))
        /\ fake !! "loss_correction_I" = Some (sum_times_zero (crt_fine_segm crt)))
  /\ (forall t : tracked tensor4,
        (is_zero (data (sum_times_zero t)) <-> sum_finite (data t) = true)
        /\ graph (sum_times_zero t) = graph t)
  /\ dom fake = base_keys ∪ match corrections with
                             | Some _ => correction_keys
                             | None => ∅
                             end
  /\ (forall (proposals : list Instances) (m : LossDict),
        loss_name self = "ce" \/ loss_name self = "sce" ->
        call self proposals out corrections = Ok m ->
        dom m = dom fake).
Proof.
  intros fake. split; [|split; [|split; [|split]]].
  - subst fake. destruct corrections; repeat split; reflexivity.
  - intros crt ->. subst fake. repeat split; reflexivity.
  - intros t. split; [apply (sum_times_zero_value t) | reflexivity].
  - subst fake. rewrite fake_dom. unfold expected_keys.
    destruct corrections; set_solver.
  - intros proposals m Hname E. subst fake.
    rewrite fake_dom. by eapply call_dom.
Qed.

(** ** Selections by a mask, position by position *)

Lemma filter_fmap_S (P : nat -> Prop) `{!forall i, Decision (P i)} (l : list nat) :
  filter P (S <$> l) = S <$> filter (fun i => P (S i)) l.
Proof.
  induction l as [|i l IH]; [done|].
  rewrite fmap_cons, !filter_cons, IH. by destruct (decide (P (S i))).
Qed.

Lemma valid_points_cons (b : bool) (m : list bool) :
  valid_points (b :: m) = (if b then [0%nat] else []) ++ (S <$> valid_points m).
Proof.
  unfold valid_points. simpl length. rewrite <- cons_seq, <- fmap_S_seq.
  rewrite filter_cons, filter_fmap_S. simpl.
  destruct b; case_decide; naive_solver.
Qed.

Lemma valid_points_spec (m : list bool) (i : nat) :
  i ∈ valid_points m <-> m !! i = Some true.
Proof.
  unfold valid_points. rewrite list_elem_of_filter, elem_of_seq. split; [tauto|].
  intros Hi. split; [done|]. apply lookup_lt_Some in Hi. lia.
Qed.

Lemma valid_points_all (n : nat) : valid_points (replicate n true) = seq 0 n.
Proof.
  induction n as [|n IH]; [done|].
  simpl replicate. rewrite valid_points_cons, IH, fmap_S_seq. done.
Qed.

Lemma mask_filter_length {A} (m : list bool) (xs : list A) :
  length m = length xs -> length (mask_filter m xs) = length (valid_points m).
Proof.
  revert xs. induction m as [|b m IH]; intros [|x xs] Hlen; simplify_eq/=; [done|].
  rewrite valid_points_cons, length_app, length_fmap, <- (IH xs) by done.
  by destruct b.
Qed.

Lemma mask_filter_nth {A} (d : A) (m : list bool) (xs : list A) :
  length m = length xs ->
  mask_filter m xs = (fun i => nth i xs d) <$> valid_points m.
Proof.
  revert xs. induction m as [|b m IH]; intros [|x xs] Hlen; simplify_eq/=; [done|].
  rewrite valid_points_cons, fmap_app, <- list_fmap_compose, (IH xs) by done.
  by destruct b.
Qed.

Lemma mask_filter_fmap {A B} (f : A -> B) (m : list bool) (xs : list A) :
  mask_filter m (f <$> xs) = f <$> mask_filter m xs.
Proof.
  revert xs. induction m as [|b m IH]; intros [|x xs]; simpl; try done;
    try (by destruct b).
  rewrite IH. by destruct b.
Qed.

Lemma zip_with_fmap_same {A B C D} (f : B -> C -> D) (g : A -> B) (h : A -> C) (l : list A) :
  zip_with f (g <$> l) (h <$> l) = (fun i => f (g i) (h i)) <$> l.
Proof. induction l as [|x l IH]; [done|]. csimpl. by rewrite IH. Qed.

(** Two lists cut by one mask and combined: one term per valid point. *)
Lemma zip_with_mask_filter {A B C} (f : A -> B -> C) (da : A) (db : B)
    (m : list bool) (a : list A) (b : list B) :
  length m = length a -> length m = length b ->
  zip_with f (mask_filter m a) (mask_filter m b)
  = (fun i => f (nth i a da) (nth i b db)) <$> valid_points m.
Proof.
  intros Ha Hb. rewrite (mask_filter_nth da), (mask_filter_nth db) by done.
  apply zip_with_fmap_same.
Qed.

Lemma count_true_valid_points (m : list bool) :
  count_true m = length (valid_points m).
Proof.
  unfold count_true. induction m as [|b m IH]; [done|].
  rewrite valid_points_cons, length_app, length_fmap, <- IH, filter_cons.
  destruct b; case_decide; naive_solver.
Qed.

(** ** The U/V regression loss *)

Section Regression.
Context `{helpers : Helpers}.

Lemma smooth_l1_loss_sum_eq (est gt : tracked (list Q)) :
  length (data est) = length (data gt) ->
  smooth_l1_loss_sum est gt
  = Ok (Track (vsum (zip_with smooth_l1 (data est) (data gt))) (graph est ∪ graph gt)).
Proof.
  intros Hlen. unfold smooth_l1_loss_sum, tbind2, smooth_l1_loss_none, elementwise.
  by rewrite decide_True.
Qed.

Lemma smooth_l1_loss_sum_Ok (est gt : tracked (list Q)) (r : tracked scalar) :
  smooth_l1_loss_sum est gt = Ok r -> length (data est) = length (data gt).
Proof.
  unfold smooth_l1_loss_sum, tbind2, smooth_l1_loss_none, elementwise.
  case_decide; [done|discriminate].
Qed.

Lemma tindex_mask_eq {A} (t : tracked (list A)) (m : list bool) :
  length m = length (data t) ->
  tindex_mask t m = Ok (Track (mask_filter m (data t)) (graph t)).
Proof. intros Hlen. unfold tindex_mask, tbind, index_mask. by rewrite decide_True. Qed.

Lemma tindex_mask_Ok {A} (t : tracked (list A)) (m : list bool) (r : tracked (list A)) :
  tindex_mask t m = Ok r ->
  length m = length (data t) /\ r = Track (mask_filter m (data t)) (graph t).
Proof.
  unfold tindex_mask. intros E. apply tbind_Ok in E as [E Hg].
  apply index_mask_Ok in E as [Hlen Hd]. split; [done|].
  destruct r; simpl in *; by subst.
Qed.

Lemma index_mask_eq {A} (xs : list A) (m : list bool) :
  length m = length xs -> index_mask xs m = Ok (mask_filter m xs).
Proof. intros Hlen. unfold index_mask. by rewrite decide_True. Qed.

End Regression.

Section RegressionLoss.
Context `{helpers : Helpers}.

Lemma residual_at_points (fg : list bool) (gt est : list Q) :
  length fg = length gt -> length fg = length est ->
  zip_with Qminus (mask_filter fg gt) (clamp 0 1 <$> mask_filter fg est)
  = (fun i => nth i gt 0 - clamp 0 1 (nth i est 0))%Q <$> valid_points fg.
Proof.
  intros Hg He. rewrite <- mask_filter_fmap.
  rewrite (zip_with_mask_filter Qminus 0%Q (clamp 0 1 0%Q)) by (by rewrite ?length_fmap).
  apply (list_fmap_ext _ _ (valid_points fg)). intros j i Hi. simpl.
  by rewrite <- (map_nth (clamp 0 1)).
Qed.

Lemma correction_at_points (fg : list bool) (crt_est est gt : list Q) :
  length fg = length crt_est -> length fg = length gt -> length fg = length est ->
  vsum (zip_with smooth_l1 (mask_filter fg crt_est)
          (zip_with Qminus (mask_filter fg gt) (map (clamp 0 1) (mask_filter fg est))))
  = correction_term fg crt_est est gt.
Proof.
  intros Hc Hg He. unfold correction_term.
  change (map (clamp 0 1) (mask_filter fg est)) with (clamp 0 1 <$> mask_filter fg est).
  rewrite residual_at_points, (mask_filter_nth 0%Q fg crt_est) by done.
  by rewrite zip_with_fmap_same.
Qed.

Lemma uv_inv self proposals out pa interpolator fg corrections m :
  produce_densepose_losses_uv self proposals out pa interpolator fg corrections = Ok m ->
  let pts t := extract_at_points interpolator (data t) in
  (length fg = length (u_gt pa) /\ length fg = length (pts (u out))
   /\ length fg = length (v_gt pa) /\ length fg = length (pts (v out)))
  /\ m !! "loss_densepose_U"
     = Some (scale (Track (regression_term fg (pts (u out)) (u_gt pa)) (graph (u out) ∪ ∅))
               (w_points self))
  /\ m !! "loss_densepose_V"
     = Some (scale (Track (regression_term fg (pts (v out)) (v_gt pa)) (graph (v out) ∪ ∅))
               (w_points self))
  /\ match corrections with
     | None => True
     | Some crt =>
         (length fg = length (pts (crt_u crt)) /\ length fg = length (pts (crt_v crt)))
         /\ m !! "loss_correction_U"
            = Some (scale (Track (correction_term fg (pts (crt_u crt)) (pts (u out)) (u_gt pa))
                             (graph (crt_u crt) ∪ ∅)) (w_crt_points self))
         /\ m !! "loss_correction_V"
            = Some (scale (Track (correction_term fg (pts (crt_v crt)) (pts (v out)) (v_gt pa))
                             (graph (crt_v crt) ∪ ∅)) (w_crt_points self))
     end.
Proof.
  intros E pts. subst pts. unfold produce_densepose_losses_uv in E.
  bind_inv E. apply index_mask_Ok in Ea as [Hug ->].
  bind_inv E. apply tindex_mask_Ok in Ea as [Hue ->].
  bind_inv E. apply index_mask_Ok in Ea as [Hvg ->].
  bind_inv E. apply tindex_mask_Ok in Ea as [Hve ->].
  simpl in Hue, Hve.
  rewrite !smooth_l1_loss_sum_eq in E
    by (simpl; rewrite !mask_filter_length by done; done).
  simpl in E. split; [done|].
  unfold regression_term.
  rewrite <- !(zip_with_mask_filter smooth_l1 0%Q 0%Q) by done.
  destruct corrections as [crt|]; [|by injection E as <-].
  bind_inv E. apply tindex_mask_Ok in Ea as [Hcu ->].
  bind_inv E. apply tindex_mask_Ok in Ea as [Hcv ->].
  simpl in Hcu, Hcv.
  unfold tbind2, elementwise in E. simpl in E.
  rewrite !decide_True in E
    by (rewrite length_fmap, !mask_filter_length by done; done).
  simpl in E.
  rewrite !smooth_l1_loss_sum_eq in E
    by (simpl; rewrite length_zip_with, length_fmap, !mask_filter_length by done; lia).
  simpl in E. injection E as <-.
  rewrite <- !correction_at_points by done.
  done.
Qed.
End RegressionLoss.

Section RegressionTheorems.
Context `{helpers : Helpers}.

Lemma uv_total self proposals out pa interpolator fg corrections :
  let pts t := extract_at_points interpolator (data t) in
  length fg = length (u_gt pa) -> length fg = length (pts (u out)) ->
  length fg = length (v_gt pa) -> length fg = length (pts (v out)) ->
  match corrections with
  | None => True
  | Some crt => length fg = length (pts (crt_u crt)) /\ length fg = length (pts (crt_v crt))
  end ->
  exists m,
    produce_densepose_losses_uv self proposals out pa interpolator fg corrections = Ok m.
Proof.
  intros pts Hug Hue Hvg Hve Hcrt. subst pts. unfold produce_densepose_losses_uv.
  rewrite !index_mask_eq, !tindex_mask_eq by done. simpl.
  rewrite !smooth_l1_loss_sum_eq by (simpl; rewrite !mask_filter_length by done; done).
  simpl. destruct corrections as [crt|]; [|eauto]. destruct Hcrt as [Hcu Hcv].
  rewrite !tindex_mask_eq by done. simpl.
  unfold tbind2, elementwise. simpl.
  rewrite !decide_True by (rewrite length_map, !mask_filter_length by done; done).
  simpl.
  rewrite !smooth_l1_loss_sum_eq
    by (simpl; rewrite length_zip_with, length_map, !mask_filter_length by done; lia).
  simpl. eauto.
Qed.

Lemma smooth_l1_quadratic (x y : Q) :
  (Qabs (x - y) < 1)%Q -> (smooth_l1 x y == (1#2) * (x - y) * (x - y))%Q.
Proof.
  intros Hd. unfold smooth_l1.
  destruct (Qle_bool 1 (Qabs (x - y))) eqn:E.
  - apply Qle_bool_iff in E. exfalso. by apply (Qlt_not_le _ _ Hd).
  - rewrite <- Qmult_assoc, <- Qabs_Qmult, Qabs_pos.
    + ring.
    + clear. generalize (x - y)%Q. intros d.
      destruct (Qlt_le_dec d 0) as [Hneg|Hpos].
      * setoid_replace (d * d)%Q with ((- d) * (- d))%Q using relation Qeq by ring.
        apply Qmult_le_0_compat; lra.
      * by apply Qmult_le_0_compat.
Qed.

End RegressionTheorems.

(** C3. On the real path [loss_densepose_U] is the smooth-L1 loss between the
    U values extracted at the annotated points and [u_gt], both restricted
    to the valid foreground points, summed over those points (not averaged)
    and multiplied by [w_points]; the same holds for V.  The loss is
    returned whenever the per-point vectors have the length of the mask.  For
    a single valid point with [u_gt = 0.4] and [u_est = 0.5] the value is
    [0.005 * w_points]. *)
Theorem loss_densepose_UV_summed_smooth_l1 `{helpers : Helpers}
    (self : DensePoseChartLoss) (proposals : list Instances) (out : PredictorOutput)
    (pa : PackedAnnotations) (interpolator : Interpolator) (fg : list bool)
    (corrections : option CorrectorPredictorOutput) :
  let pts t := extract_at_points interpolator (data t) in
  let term est gt i := smooth_l1 (nth i est 0%Q) (nth i gt 0%Q) in
  (forall m,
     produce_densepose_losses_uv self proposals out pa interpolator fg corrections = Ok m ->
     exists lu lv,
       m !! "loss_densepose_U" = Some lu
       /\ m !! "loss_densepose_V" = Some lv
       /\ data lu
          = Fin (Qsum (term (pts (u out)) (u_gt pa) <$> valid_points fg) * w_points self)%Q
       /\ data lv
          = Fin (Qsum (term (pts (v out)) (v_gt pa) <$> valid_points fg) * w_points self)%Q)
  /\ (length fg = length (u_gt pa) -> length fg = length (pts (u out)) ->
      length fg = length (v_gt pa) -> length fg = length (pts (v out)) ->
      exists m,
        produce_densepose_losses_uv self proposals out pa interpolator fg None = Ok m)
  /\ (forall m i,
        produce_densepose_losses_uv self proposals out pa interpolator fg corrections = Ok m ->
        valid_points fg = [i] ->
        (nth i (u_gt pa) 0 == 4#10)%Q ->
        (nth i (pts (u out)) 0 == 5#10)%Q ->
        exists lu q,
          m !! "loss_densepose_U" = Some lu /\ data lu = Fin q
          /\ (q == (5#1000) * w_points self)%Q).
Proof.
  intros pts term. split; [|split].
  - intros m E. apply uv_inv in E as (_ & HU & HV & _).
    eexists _, _. split; [exact HU|]. split; [exact HV|]. done.
  - intros Hug Hue Hvg Hve.
    by apply (uv_total self proposals out pa interpolator fg None).
  - subst pts term. intros m i E Hi Hgt Hest. apply uv_inv in E as (_ & HU & _ & _).
    eexists _, _. split; [exact HU|]. split; [reflexivity|].
    rewrite Hi. simpl. rewrite smooth_l1_quadratic.
    + rewrite Hgt, Hest. ring.
    + rewrite Hgt, Hest. reflexivity.
Qed.

(** C6. With corrections, the target of the correction U term is the
    residual [u_gt - clamp(u_est, 0, 1)] at the valid foreground points, and
    [loss_correction_U] is the smooth-L1 loss between the corrected U
    extracted at those points and that residual, summed and multiplied by
    [w_crt_points]; the same holds for V.  The residual is built without
    gradient: the graph of the loss is that of the corrected output alone,
    the base estimate does not enter it.  The losses are returned whenever
    the per-point vectors have the length of the mask. *)
Theorem correction_regression_detached_residual `{helpers : Helpers}
    (self : DensePoseChartLoss) (proposals : list Instances) (out : PredictorOutput)
    (pa : PackedAnnotations) (interpolator : Interpolator) (fg : list bool)
    (crt : CorrectorPredictorOutput) :
  let pts t := extract_at_points interpolator (data t) in
  let term crt_est est gt i :=
    smooth_l1 (nth i crt_est 0%Q) (nth i gt 0%Q - clamp 0 1 (nth i est 0%Q))%Q in
  (forall m,
     produce_densepose_losses_uv self proposals out pa interpolator fg (Some crt) = Ok m ->
     exists lu lv,
       m !! "loss_correction_U" = Some lu
       /\ m !! "loss_correction_V" = Some lv
       /\ data lu
          = Fin (Qsum (term (pts (crt_u crt)) (pts (u out)) (u_gt pa) <$> valid_points fg)
                 * w_crt_points self)%Q
       /\ data lv
          = Fin (Qsum (term (pts (crt_v crt)) (pts (v out)) (v_gt pa) <$> valid_points fg)
                 * w_crt_points self)%Q
       /\ graph lu = graph (crt_u crt)
       /\ graph lv = graph (crt_v crt))
  /\ (length fg = length (u_gt pa) -> length fg = length (pts (u out)) ->
      length fg = length (v_gt pa) -> length fg = length (pts (v out)) ->
      length fg = length (pts (crt_u crt)) -> length fg = length (pts (crt_v crt)) ->
      exists m,
        produce_densepose_losses_uv self proposals out pa interpolator fg (Some crt) = Ok m).
Proof.
  intros pts term. split.
  - intros m E. apply uv_inv in E as (_ & _ & _ & _ & HU & HV).
    eexists _, _. split; [exact HU|]. split; [exact HV|].
    repeat split; simpl; apply (right_id_L ∅ (∪)).
  - intros Hug Hue Hvg Hve Hcu Hcv.
    by apply (uv_total self proposals out pa interpolator fg (Some crt)).
Qed.

(** ** The segmentation loss *)

Section SegmentationLoss.
Context `{helpers : Helpers}.

Lemma cross_entropy_none_points (f : nat -> list Q) (g : nat -> nat) (pts : list nat) :
  (forall i, i ∈ pts -> (g i < length (f i))%nat) ->
  cross_entropy_none (f <$> pts) (g <$> pts)
  = Ok ((fun i => ce_row (f i) (g i)) <$> pts).
Proof.
  intros Hrange. unfold cross_entropy_none.
  rewrite decide_True by (by rewrite !length_fmap).
  rewrite !zip_with_fmap_same.
  replace (forallb _ _) with true; [done|].
  symmetry. apply forallb_forall. intros p Hp.
  apply list_elem_of_In, list_elem_of_fmap in Hp as (i & -> & Hi). simpl.
  apply Nat.ltb_lt. by apply Hrange.
Qed.

Lemma correction_terms_at_points self (crt_rows rows : list (list Q)) (labels : list nat)
    (pts : list nat) :
  let f i := nth i rows [] in
  let g i := nth i labels 0%nat in
  let index := zip_with (fun row y => negb (argmax row =? y)%nat) (f <$> pts) (g <$> pts) in
  let target := assign_where index (map (fun _ => n_channels self) (g <$> pts)) (g <$> pts) in
  target = correction_target self rows labels <$> pts
  /\ forall l,
       l = (fun i => ce_row (nth i crt_rows []) (correction_target self rows labels i)) <$> pts ->
       assign_where (map negb index) l (map (fun x => x * 2)%Q l)
       = correction_segm_term self crt_rows rows labels <$> pts.
Proof.
  intros f g index target. subst index target.
  rewrite zip_with_fmap_same.
  change (map (fun _ => n_channels self) (g <$> pts))
    with ((fun _ : nat => n_channels self) <$> (g <$> pts)).
  rewrite <- list_fmap_compose. unfold assign_where.
  split.
  - rewrite !zip_with_fmap_same.
    apply (list_fmap_ext _ _ pts). intros j i _. simpl.
    unfold correction_target, agrees. subst f g. simpl. by destruct (_ =? _)%nat.
  - intros l ->.
    change (map negb ?k) with (negb <$> k).
    change (map (fun x => x * 2)%Q ?k) with ((fun x => x * 2)%Q <$> k).
    rewrite <- !list_fmap_compose, !zip_with_fmap_same.
    apply (list_fmap_ext _ _ pts). intros j i _. simpl.
    unfold correction_segm_term, agrees. subst f g. simpl. by destruct (_ =? _)%nat.
Qed.

Lemma segm_inv self proposals out pa interpolator fg corrections m :
  produce_densepose_losses_segm self proposals out pa interpolator fg corrections = Ok m ->
  let jv := j_valid interpolator in
  let rows := data (extract_all interpolator (fine_segm out)) in
  let labels := fine_segm_labels_gt pa in
  (length jv = length labels /\ length jv = length rows)
  /\ m !! "loss_densepose_I"
     = Some (scale (Track (vmean (fine_segm_term rows labels <$> valid_points jv))
                      (graph (fine_segm out))) (w_part self))
  /\ m !! "loss_densepose_S" = Some (scale (segm_loss proposals out pa) (w_segm self))
  /\ match corrections with
     | None => True
     | Some crt =>
         let crt_rows := data (extract_all interpolator (crt_fine_segm crt)) in
         length jv = length crt_rows
         /\ m !! "loss_correction_I"
            = Some (scale (Track (vmean (correction_segm_term self crt_rows rows labels
                                           <$> valid_points jv))
                             (graph (crt_fine_segm crt))) (w_crt_segm self))
     end.
Proof.
  intros E jv rows labels. unfold produce_densepose_losses_segm in E.
  bind_inv E. apply index_mask_Ok in Ea as [Hl ->].
  bind_inv E. apply tindex_mask_Ok in Ea as [Hr ->].
  bind_inv E. unfold cross_entropy in Ea. apply tbind_Ok in Ea as [Ea Hg].
  bind_inv Ea. injection Ea as Ea. apply cross_entropy_none_Ok in Ea0 as [_ ->].
  simpl in *. fold jv rows labels in Hl, Hr, Ea, E |- *.   fold rows in Ea, E.
  rewrite (zip_with_mask_filter ce_row [] 0%nat) in Ea by done.
  destruct a as [d g]. simpl in *. subst d g.
  split; [done|].
  destruct corrections as [crt|]; [|by injection E as <-].
  bind_inv E. apply tindex_mask_Ok in Ea as [Hc ->].
  bind_inv E. apply tbind_Ok in Ea as [Ea Hg]. simpl in Ea, Hg.
  apply cross_entropy_none_Ok in Ea as [_ Ea].
  injection E as <-.
  rewrite (mask_filter_nth [] jv rows), (mask_filter_nth 0%nat jv labels) in Ea |- * by done.
  destruct (correction_terms_at_points self (data (extract_all interpolator (crt_fine_segm crt)))
              rows labels (valid_points jv)) as [Ht Hw].
  simpl in Ht, Hw. rewrite Ht in Ea.
  rewrite (mask_filter_nth [] jv) in Ea by done.
  rewrite zip_with_fmap_same in Ea.
  destruct a as [d g]. simpl in *. subst g.
  unfold tmap. simpl. rewrite (Hw d Ea). done.
Qed.

End SegmentationLoss.

Section SegmentationTheorems.
Context `{helpers : Helpers}.

Lemma segm_total self proposals out pa interpolator fg corrections :
  let jv := j_valid interpolator in
  let rows := data (extract_all interpolator (fine_segm out)) in
  let labels := fine_segm_labels_gt pa in
  length jv = length labels -> length jv = length rows ->
  (forall i, i ∈ valid_points jv -> (nth i labels 0 < length (nth i rows []))%nat) ->
  match corrections with
  | None => True
  | Some crt =>
      let crt_rows := data (extract_all interpolator (crt_fine_segm crt)) in
      length jv = length crt_rows
      /\ forall i, i ∈ valid_points jv ->
           (correction_target self rows labels i < length (nth i crt_rows []))%nat
  end ->
  exists m,
    produce_densepose_losses_segm self proposals out pa interpolator fg corrections = Ok m.
Proof.
  intros jv rows labels Hl Hr Hrange Hcrt. unfold produce_densepose_losses_segm.
  subst jv rows labels. simpl in *.
  rewrite index_mask_eq, tindex_mask_eq by done. simpl.
  unfold cross_entropy, tbind. simpl.
  rewrite (mask_filter_nth (A:=list Q) []), (mask_filter_nth 0%nat) by done.
  rewrite cross_entropy_none_points by done. simpl.
  destruct corrections as [crt|]; [|eauto]. destruct Hcrt as [Hc Hcrange].
  rewrite tindex_mask_eq by done. simpl.
  destruct (correction_terms_at_points self
              (data (extract_all interpolator (crt_fine_segm crt)))
              (data (extract_all interpolator (fine_segm out)))
              (fine_segm_labels_gt pa) (valid_points (j_valid interpolator))) as [Ht _].
  simpl in Ht. rewrite Ht.
  rewrite (mask_filter_nth (A:=list Q) []) by done.
  rewrite cross_entropy_none_points by done. simpl. eauto.
Qed.

End SegmentationTheorems.

(** C4. On the real path [loss_densepose_I] is the cross entropy between the
    full score vectors extracted at the annotated points and the
    ground-truth labels, taken at every point that is valid for the
    interpolator (mask [j_valid]; the foreground mask used for U/V plays no
    part, so a valid point with label 0 counts), averaged over those points
    and multiplied by [w_part].  The loss is returned whenever the per-point
    vectors have the length of [j_valid] and every label indexes its score
    vector. *)
Theorem loss_densepose_I_mean_cross_entropy `{helpers : Helpers}
    (self : DensePoseChartLoss) (proposals : list Instances) (out : PredictorOutput)
    (pa : PackedAnnotations) (interpolator : Interpolator) (fg : list bool)
    (corrections : option CorrectorPredictorOutput) :
  let jv := j_valid interpolator in
  let rows := data (extract_all interpolator (fine_segm out)) in
  let labels := fine_segm_labels_gt pa in
  let term i := ce_row (nth i rows []) (nth i labels 0%nat) in
  (forall m,
     produce_densepose_losses_segm self proposals out pa interpolator fg corrections = Ok m ->
     exists l,
       m !! "loss_densepose_I" = Some l
       /\ data l = smul (vmean (term <$> valid_points jv)) (w_part self)
       /\ graph l = graph (fine_segm out))
  /\ (forall i, i ∈ valid_points jv <-> jv !! i = Some true)
  /\ (forall fg',
        produce_densepose_losses_segm self proposals out pa interpolator fg' corrections
        = produce_densepose_losses_segm self proposals out pa interpolator fg corrections)
  /\ (valid_points jv <> [] ->
      vmean (term <$> valid_points jv)
      = Fin (Qsum (term <$> valid_points jv)
             / inject_Z (Z.of_nat (length (valid_points jv))))%Q)
  /\ (length jv = length labels -> length jv = length rows ->
      (forall i, i ∈ valid_points jv -> (nth i labels 0 < length (nth i rows []))%nat) ->
      exists m,
        produce_densepose_losses_segm self proposals out pa interpolator fg None = Ok m).
Proof.
  intros jv rows labels term. split; [|split; [|split; [|split]]].
  - intros m E. apply segm_inv in E as (_ & HI & _).
    eexists. split; [exact HI|]. done.
  - apply valid_points_spec.
  - reflexivity.
  - intros Hne. unfold vmean. rewrite length_fmap.
    destruct (valid_points jv); [done|reflexivity].
  - intros Hl Hr Hrange.
    by apply (segm_total self proposals out pa interpolator fg None).
Qed.

(** C5. With corrections, the class the correction head is trained on at a
    valid point is the abstain class [n_channels] unless the argmax of the
    base fine-segmentation scores differs from the ground-truth label, in
    which case it is that label; the cross entropy of a point where the base
    prediction agrees is multiplied by two and that of a disagreeing point is
    left as it is; [loss_correction_I] is the mean of these terms over the
    valid points, multiplied by [w_crt_segm]. *)
Theorem loss_correction_I_abstain_target `{helpers : Helpers}
    (self : DensePoseChartLoss) (proposals : list Instances) (out : PredictorOutput)
    (pa : PackedAnnotations) (interpolator : Interpolator) (fg : list bool)
    (crt : CorrectorPredictorOutput) :
  let jv := j_valid interpolator in
  let rows := data (extract_all interpolator (fine_segm out)) in
  let crt_rows := data (extract_all interpolator (crt_fine_segm crt)) in
  let labels := fine_segm_labels_gt pa in
  let disagree i := argmax (nth i rows []) <> nth i labels 0%nat in
  let target i := if decide (disagree i) then nth i labels 0%nat else n_channels self in
  let term i :=
    if decide (disagree i) then ce_row (nth i crt_rows []) (target i)
    else (ce_row (nth i crt_rows []) (target i) * 2)%Q in
  (forall m,
     produce_densepose_losses_segm self proposals out pa interpolator fg (Some crt) = Ok m ->
     exists l,
       m !! "loss_correction_I" = Some l
       /\ data l = smul (vmean (term <$> valid_points jv)) (w_crt_segm self)
       /\ graph l = graph (crt_fine_segm crt))
  /\ (length jv = length labels -> length jv = length rows -> length jv = length crt_rows ->
      (forall i, i ∈ valid_points jv ->
         (nth i labels 0 < length (nth i rows []))%nat
         /\ (target i < length (nth i crt_rows []))%nat) ->
      exists m,
        produce_densepose_losses_segm self proposals out pa interpolator fg (Some crt) = Ok m).
Proof.
  intros jv rows crt_rows labels disagree target term.
  assert (Hterm : forall i, term i = correction_segm_term self crt_rows rows labels i).
  { intros i. subst term target disagree. unfold correction_segm_term, correction_target, agrees.
    simpl. destruct (Nat.eqb_spec (argmax (nth i rows [])) (nth i labels 0%nat));
      case_decide; done. }
  assert (Htarget : forall i, target i = correction_target self rows labels i).
  { intros i. subst target disagree. unfold correction_target, agrees.
    simpl. destruct (Nat.eqb_spec (argmax (nth i rows [])) (nth i labels 0%nat));
      case_decide; done. }
  split.
  - intros m E. apply segm_inv in E as (_ & _ & _ & _ & HI).
    eexists. split; [exact HI|]. split; [|done]. simpl. do 2 f_equal.
    apply (list_fmap_ext _ _ (valid_points jv)). intros j i _. symmetry. apply Hterm.
  - intros Hl Hr Hc Hrange.
    apply (segm_total self proposals out pa interpolator fg (Some crt)); try done.
    + intros i Hi. by apply Hrange.
    + split; [done|]. intros i Hi. rewrite <- Htarget. by apply Hrange.
Qed.

(** ** Gating in the pseudo-label branch *)

Section Gating.
Context `{helpers : Helpers}.

Lemma gating_true (self : DensePoseChartLoss) :
  gating self = true <-> (pseudo_threshold self < 1)%Q.
Proof.
  unfold gating. rewrite negb_true_iff. split.
  - intros E. apply Qnot_le_lt. intros Hle. apply Qle_bool_iff in Hle. congruence.
  - intros Hlt. destruct (Qle_bool 1 (pseudo_threshold self)) eqn:E; [|done].
    apply Qle_bool_iff in E. exfalso. by apply (Qlt_not_le _ _ Hlt).
Qed.

Lemma gating_false (self : DensePoseChartLoss) :
  gating self = false <-> (1 <= pseudo_threshold self)%Q.
Proof.
  unfold gating. rewrite negb_false_iff. apply Qle_bool_iff.
Qed.

Lemma count_true_none (m : list bool) :
  (forall i, m !! i <> Some true) -> count_true m = 0%nat.
Proof.
  intros Hm. rewrite count_true_valid_points.
  destruct (valid_points m) as [|i l] eqn:E; [done|].
  exfalso. apply (Hm i). apply valid_points_spec. rewrite E. apply list_elem_of_here.
Qed.

Lemma mask_filter_none {A} (m : list bool) (xs : list A) :
  any m = false -> mask_filter m xs = [].
Proof.
  revert xs. induction m as [|b m IH]; intros [|x xs] Hm; try done.
  unfold any in Hm. simpl in Hm. apply orb_false_iff in Hm as [Hb Hm].
  unfold id in Hb. subst b. simpl. by apply IH.
Qed.

Lemma mask_filter_all {A} (xs : list A) :
  mask_filter (replicate (length xs) true) xs = xs.
Proof. induction xs as [|x xs IH]; [done|]. simpl. by rewrite IH. Qed.

(** Two lists of one length combined: one term per position. *)
Lemma zip_with_positions {A B C} (f : A -> B -> C) (da : A) (db : B)
    (a : list A) (b : list B) :
  length a = length b ->
  zip_with f a b = (fun i => f (nth i a da) (nth i b db)) <$> seq 0 (length a).
Proof.
  intros Hlen. rewrite <- valid_points_all.
  rewrite <- (zip_with_mask_filter f da db) by (by rewrite length_replicate).
  by rewrite mask_filter_all, Hlen, mask_filter_all.
Qed.

(** The confidence of a kept point reaches the threshold. *)
Lemma confidence_mask_spec (self : DensePoseChartLoss) (pseudo : list (list Q)) (i : nat) :
  confidence_mask self pseudo !! i = Some true
  <-> exists row, pseudo !! i = Some row /\ (pseudo_threshold self <= row_max row)%Q.
Proof.
  unfold confidence_mask.
  change (map ?f ?l) with (f <$> l).
  rewrite <- list_fmap_compose, list_lookup_fmap.
  destruct (pseudo !! i) as [row|]; simpl.
  - split.
    + intros [= E]. exists row. split; [done|]. by apply Qle_bool_iff.
    + intros (row' & [= <-] & Hle). f_equal. by apply Qle_bool_iff.
  - split; [done|]. by intros (row & ? & _).
Qed.

End Gating.

Section GatingTheorems.
Context `{helpers : Helpers}.

Lemma segm_branch_loss self out st est pseudo st' :
  loss_name self = "ce" ->
  segm_branch self out st est pseudo = Ok (Continue st') ->
  losses st'
  = update (losses st)
      (<["loss_unsup_segm" :=
           scale (Track (vmean (pseudo_segm_term self (data est) pseudo <$> kept self pseudo))
                    (graph est)) (w_p_segm self)]> ∅).
Proof.
  intros Hce E.
  apply segm_branch_Continue in E as (_ & Hgate & _ & _ & _ & l & Hl & ->).
  rewrite decide_True by done.
  apply cross_entropy_none_Ok in Hl as [Hlen ->].
  assert (Hterms :
    zip_with ce_row (gated self pseudo (data est))
      (map (fun row => nth 0 row 0%nat) (gated self pseudo (top_k self pseudo)))
    = pseudo_segm_term self (data est) pseudo <$> kept self pseudo); [|by rewrite Hterms].
  unfold gated, kept in *. destruct (gating self).
  - destruct Hgate as [_ Hm]; [done|].
    change (map ?f ?k) with (f <$> k). rewrite <- mask_filter_fmap.
    rewrite (zip_with_mask_filter ce_row [] 0%nat)
      by (rewrite ?length_fmap; unfold top_k, confidence_mask in *;
          rewrite ?length_map in *; done).
    apply (list_fmap_ext _ _ (valid_points _)). intros j i _. unfold pseudo_segm_term.
    f_equal. by rewrite <- (map_nth (fun row => nth 0 row 0%nat)).
  - rewrite (zip_with_positions ce_row [] 0%nat) by done.
    rewrite Hlen. unfold top_k at 2. rewrite !length_map.
    apply (list_fmap_ext _ _ (seq _ _)). intros j i _. unfold pseudo_segm_term.
    f_equal. by rewrite <- (map_nth (fun row => nth 0 row 0%nat)).
Qed.

Lemma for_loop_first_Return body st k keys d :
  body st k = Ok (Return d) -> for_loop body st (k :: keys) = Ok d.
Proof. intros E. simpl. by rewrite E. Qed.

Lemma for_loop_first_Continue body st k keys st' :
  body st k = Ok (Continue st') -> for_loop body st (k :: keys) = for_loop body st' keys.
Proof. intros E. simpl. by rewrite E. Qed.

(** An active gate that keeps no position sends the branch to the fake
    losses. *)
Lemma unsup_gate_empty self proposals out pa p est pseudo :
  fine_segm_p pa = Some p ->
  loop_inputs self pa (pos_index_of self pa) (fine_segm out) p = Ok (est, pseudo) ->
  gating self = true ->
  count_true (confidence_mask self pseudo) = 0%nat ->
  produce_densepose_losses_unsup self proposals out pa
  = Ok (produce_fake_densepose_losses_unsup self out).
Proof.
  intros Hp Hin Hg Hc. unfold produce_densepose_losses_unsup.
  apply for_loop_first_Return.
  rewrite (iteration_segm _ _ _ _ _ _ _ _ Hp Hin).
  unfold segm_branch. rewrite Hg. fold (confidence_mask self pseudo).
  rewrite decide_True by lia. done.
Qed.

Lemma loop_inputs_Ok self pa pos e p est pseudo :
  loop_inputs self pa pos e p = Ok (est, pseudo) ->
  exists rows, length pos = length rows /\ pseudo = mask_filter pos rows.
Proof.
  unfold loop_inputs. intros E. do 2 bind_inv E. injection E as <- <-.
  unfold pixel_rows in Ea0. bind_inv Ea0. apply index_mask_Ok in Ea0. eauto.
Qed.

End GatingTheorems.

Section PseudoTheorems.
Context `{helpers : Helpers}.

(** What the branch returns under the plain cross entropy: the fake losses,
    or a map whose segmentation entry is the mean term over the kept
    positions. *)
Lemma unsup_segm_entry self proposals out pa p est pseudo m :
  fine_segm_p pa = Some p ->
  loop_inputs self pa (pos_index_of self pa) (fine_segm out) p = Ok (est, pseudo) ->
  loss_name self = "ce" ->
  produce_densepose_losses_unsup self proposals out pa = Ok m ->
  m = produce_fake_densepose_losses_unsup self out
  \/ exists a,
       m !! "loss_unsup_segm" = Some a
       /\ data a
          = smul (vmean (pseudo_segm_term self (data est) pseudo <$> kept self pseudo))
              (w_p_segm self).
Proof.
  intros Hp Hin Hce E.
  apply unsup_cases in E as [-> | (st1 & st2 & st3 & E1 & E2 & E3 & ->)]; [by left|].
  right. rewrite (iteration_segm _ _ _ _ _ _ _ _ Hp Hin) in E1.
  apply (segm_branch_loss _ _ _ _ _ _ Hce) in E1.
  apply iteration_u_Continue in E2 as (p2 & est2 & ps2 & _ & _ & E2).
  apply iteration_v_Continue in E3 as (p3 & est3 & ps3 & _ & _ & E3).
  apply uv_branch_Ok in E2 as (? & [= <-] & _ & _ & _ & E2 & _).
  apply uv_branch_Ok in E3 as (? & [= <-] & _ & _ & _ & E3 & _).
  destruct E2 as [b Hb]; [by left|]. destruct E3 as [c Hc]; [by left|].
  eexists. rewrite Hc, Hb, E1. split; [reflexivity|done].
Qed.

Lemma unsup_unknown_name self proposals out pa m :
  loss_name self <> "ce" -> loss_name self <> "sce" ->
  produce_densepose_losses_unsup self proposals out pa = Ok m ->
  m = produce_fake_densepose_losses_unsup self out \/ m = ∅.
Proof.
  intros Hce Hsce E.
  apply unsup_cases in E as [-> | (st1 & st2 & st3 & E1 & E2 & E3 & ->)]; [by left|].
  right.
  apply iteration_segm_Continue in E1 as (p1 & est1 & ps1 & _ & _ & E1).
  apply iteration_u_Continue in E2 as (p2 & est2 & ps2 & _ & _ & E2).
  apply iteration_v_Continue in E3 as (p3 & est3 & ps3 & _ & _ & E3).
  apply segm_branch_Continue in E1 as (_ & _ & _ & _ & _ & l & _ & E1).
  rewrite decide_False in E1 by done.
  apply uv_branch_Ok in E2 as (? & [= <-] & _ & _ & _ & _ & E2).
  apply uv_branch_Ok in E3 as (? & [= <-] & _ & _ & _ & _ & E3).
  by rewrite E3, E2, E1.
Qed.

(** An iteration leaves the loop only for a missing pseudo tensor or, in
    the first iteration, under an active gate. *)
Lemma iteration_Return_cause self out pa pos st p_key e_key d :
  iteration self out pa pos st (p_key, e_key) = Ok (Return d) ->
  getattr_packed pa p_key = Ok None
  \/ (p_key = "fine_segm_p" /\ gating self = true).
Proof.
  unfold iteration. intros E.
  apply bind_Ok in E as (p & Hp & E). destruct p as [p|]; [|by left].
  apply bind_Ok in E as (e & He & E). apply bind_Ok in E as ([est pseudo] & Hin & E).
  case_decide.
  - apply segm_branch_Return in E as (_ & Hg & _). by right.
  - apply uv_branch_Ok in E as (st' & [=] & _).
Qed.

(** With the three pseudo tensors present, and a gate that is off or keeps
    some position, the loop runs its three iterations. *)
Lemma unsup_completes self proposals out pa p est pseudo m :
  fine_segm_p pa = Some p ->
  loop_inputs self pa (pos_index_of self pa) (fine_segm out) p = Ok (est, pseudo) ->
  u_p pa <> None -> v_p pa <> None ->
  (gating self = true -> count_true (confidence_mask self pseudo) <> 0%nat) ->
  produce_densepose_losses_unsup self proposals out pa = Ok m ->
  exists st1 st2 st3,
    segm_branch self out st0 est pseudo = Ok (Continue st1)
    /\ iteration self out pa (pos_index_of self pa) st1 ("u_p", "u") = Ok (Continue st2)
    /\ iteration self out pa (pos_index_of self pa) st2 ("v_p", "v") = Ok (Continue st3)
    /\ m = losses st3.
Proof.
  intros Hp Hin Hu Hv Hgate.
  unfold produce_densepose_losses_unsup. simpl zip. unfold for_loop. intros E.
  apply bind_Ok in E as (s1 & E1 & E).
  rewrite (iteration_segm _ _ _ _ _ _ _ _ Hp Hin) in E1.
  destruct s1 as [st1|d].
  2:{ apply segm_branch_Return in E1 as (_ & Hg & Hc). by destruct (Hgate Hg). }
  apply bind_Ok in E as (s2 & E2 & E). destruct s2 as [st2|d].
  2:{ apply iteration_Return_cause in E2 as [E2|[E2 _]]; [|discriminate].
      unfold getattr_packed in E2. repeat case_decide; try discriminate; congruence. }
  apply bind_Ok in E as (s3 & E3 & E). destruct s3 as [st3|d].
  2:{ apply iteration_Return_cause in E3 as [E3|[E3 _]]; [|discriminate].
      unfold getattr_packed in E3. repeat case_decide; try discriminate; congruence. }
  injection E as <-. by exists st1, st2, st3.
Qed.

(** The segmentation entry of a run that completes, under the plain cross
    entropy: the mean term over the kept positions. *)
Lemma unsup_segm_value self proposals out pa p est pseudo m :
  fine_segm_p pa = Some p ->
  loop_inputs self pa (pos_index_of self pa) (fine_segm out) p = Ok (est, pseudo) ->
  u_p pa <> None -> v_p pa <> None ->
  (gating self = true -> count_true (confidence_mask self pseudo) <> 0%nat) ->
  loss_name self = "ce" ->
  produce_densepose_losses_unsup self proposals out pa = Ok m ->
  m !! "loss_unsup_segm"
  = Some (scale (Track (vmean (pseudo_segm_term self (data est) pseudo <$> kept self pseudo))
                   (graph est)) (w_p_segm self)).
Proof.
  intros Hp Hin Hu Hv Hgate Hce E.
  destruct (unsup_completes _ _ _ _ _ _ _ _ Hp Hin Hu Hv Hgate E)
    as (st1 & st2 & st3 & E1 & E2 & E3 & ->).
  apply (segm_branch_loss _ _ _ _ _ _ Hce) in E1.
  apply iteration_u_Continue in E2 as (p2 & est2 & ps2 & _ & _ & E2).
  apply iteration_v_Continue in E3 as (p3 & est3 & ps3 & _ & _ & E3).
  apply uv_branch_Ok in E2 as (? & [= <-] & _ & _ & _ & E2 & _).
  apply uv_branch_Ok in E3 as (? & [= <-] & _ & _ & _ & E3 & _).
  destruct E2 as [b Hb]; [by left|]. destruct E3 as [c Hc]; [by left|].
  rewrite Hc, Hb, E1. reflexivity.
Qed.

(** Some kept position means that an active gate keeps some position. *)
Lemma kept_nonempty self (pseudo : list (list Q)) :
  kept self pseudo <> [] ->
  gating self = true -> count_true (confidence_mask self pseudo) <> 0%nat.
Proof.
  unfold kept. intros Hne Hg. rewrite Hg in Hne.
  rewrite count_true_valid_points. by destruct (valid_points _).
Qed.

End PseudoTheorems.

(** C7, amended.  The confidence gate of the pseudo-label branch works only
    when [pseudo_threshold < 1]: the kept positions are then those whose
    confidence [segm_conf] is at least the threshold, and the branch returns
    the pseudo fake losses when none is kept.  With [pseudo_threshold >= 1],
    and so at exactly 1.0, there is no gate: every foreground position is
    kept whatever its confidence, and confidences below 1 do not send the
    branch to the fake losses.  In both cases, when some position is kept
    and the three pseudo tensors are present, a map returned under the plain
    cross entropy holds in [loss_unsup_segm] the mean cross-entropy term
    over exactly the kept positions, times [w_p_segm]. *)
Theorem confidence_gate_only_below_one `{helpers : Helpers}
    (self : DensePoseChartLoss) (proposals : list Instances) (out : PredictorOutput)
    (pa : PackedAnnotations) (p : tensor4)
    (est : tracked (list (list Q))) (pseudo : list (list Q)) :
  fine_segm_p pa = Some p ->
  loop_inputs self pa (pos_index_of self pa) (fine_segm out) p = Ok (est, pseudo) ->
  ((pseudo_threshold self < 1)%Q ->
   forall i, i ∈ kept self pseudo
             <-> exists row, pseudo !! i = Some row
                             /\ (pseudo_threshold self <= row_max row)%Q)
  /\ ((1 <= pseudo_threshold self)%Q -> kept self pseudo = seq 0 (length pseudo))
  /\ ((pseudo_threshold self < 1)%Q ->
      (forall row, row ∈ pseudo -> (row_max row < pseudo_threshold self)%Q) ->
      produce_densepose_losses_unsup self proposals out pa
      = Ok (produce_fake_densepose_losses_unsup self out))
  /\ ((1 <= pseudo_threshold self)%Q ->
      forall d,
        iteration self out pa (pos_index_of self pa) st0 ("fine_segm_p", "fine_segm")
        <> Ok (Return d))
  /\ (loss_name self = "ce" ->
      u_p pa <> None -> v_p pa <> None ->
      kept self pseudo <> [] ->
      forall m,
        produce_densepose_losses_unsup self proposals out pa = Ok m ->
        exists a,
          m !! "loss_unsup_segm" = Some a
          /\ data a
             = smul (vmean (pseudo_segm_term self (data est) pseudo <$> kept self pseudo))
                 (w_p_segm self)).
Proof.
  intros Hp Hin. split; [|split; [|split; [|split]]].
  - intros Hlt i. apply gating_true in Hlt. unfold kept. rewrite Hlt.
    rewrite valid_points_spec. apply confidence_mask_spec.
  - intros Hge. apply gating_false in Hge. unfold kept. by rewrite Hge.
  - intros Hlt Hlow. apply gating_true in Hlt.
    apply (unsup_gate_empty _ _ _ _ _ _ _ Hp Hin Hlt).
    apply count_true_none. intros i Hi.
    apply confidence_mask_spec in Hi as (row & Hrow & Hle).
    apply (Qlt_not_le _ _ (Hlow row (list_elem_of_lookup_2 _ _ _ Hrow))). done.
  - intros Hge d E. apply gating_false in Hge.
    rewrite (iteration_segm _ _ _ _ _ _ _ _ Hp Hin) in E.
    apply segm_branch_Return in E as (_ & Hg & _). congruence.
  - intros Hce Hu Hv Hkept m E. eexists. split.
    + exact (unsup_segm_value _ _ _ _ _ _ _ _ Hp Hin Hu Hv (kept_nonempty _ _ Hkept) Hce E).
    + reflexivity.
Qed.

(** The foreground mask [pos_index] is the ground-truth coarse segmentation
    resampled from the ground-truth boxes to the estimated boxes at
    [heatmap_size] with nearest-neighbour mode and zero padding, compared
    with zero and flattened; it is a boolean tensor built without gradient.
    When it selects no position and [pseudo_threshold < 1], the branch
    returns the pseudo fake losses: the test [mask.sum() <= 0] catches the
    empty selection. *)
Lemma empty_foreground_falls_back_below_one `{helpers : Helpers}
    (self : DensePoseChartLoss) (proposals : list Instances) (out : PredictorOutput)
    (pa : PackedAnnotations) :
  pos_index_of self pa
  = map (fun q => negb (Qle_bool q 0))
      (flat (resample_data (unsqueeze1 (coarse_segm_gt pa)) (bbox_xywh_gt pa)
               (bbox_xywh_est pa) (heatmap_size self) (heatmap_size self) nearest zeros))
  /\ ((pseudo_threshold self < 1)%Q ->
      any (pos_index_of self pa) = false ->
      (fine_segm_p pa = None
       \/ exists p est pseudo,
            fine_segm_p pa = Some p
            /\ loop_inputs self pa (pos_index_of self pa) (fine_segm out) p
               = Ok (est, pseudo)) ->
      produce_densepose_losses_unsup self proposals out pa
      = Ok (produce_fake_densepose_losses_unsup self out)).
Proof.
  split; [reflexivity|].
  intros Hlt Hpos [Hnone | (p & est & pseudo & Hp & Hin)].
  - unfold produce_densepose_losses_unsup. apply for_loop_first_Return.
    unfold iteration. simpl. by rewrite Hnone.
  - apply gating_true in Hlt.
    apply (unsup_gate_empty _ _ _ _ _ _ _ Hp Hin Hlt).
    apply loop_inputs_Ok in Hin as (rows & _ & ->).
    by rewrite mask_filter_none.
Qed.

(** C9, amended.  The constructor checks neither [pseudo_threshold] nor
    [loss_name]: it never raises and stores both as given.  A loss name
    other than "ce" and "sce" is then accepted by the forward call too: the
    pseudo-label branch, when it returns, returns the fake pseudo losses or
    an empty map. *)
Theorem constructor_stores_configuration_unchecked (cfg : CfgNode) :
  (exists self,
     init cfg = Ok self
     /\ pseudo_threshold self = SEMI_THRESHOLD cfg
     /\ loss_name self = SEMI_LOSS_NAME cfg)
  /\ (forall (helpers : Helpers) (self : DensePoseChartLoss) (proposals : list Instances)
             (out : PredictorOutput) (pa : PackedAnnotations) (m : LossDict),
        init cfg = Ok self ->
        SEMI_LOSS_NAME cfg <> "ce" -> SEMI_LOSS_NAME cfg <> "sce" ->
        produce_densepose_losses_unsup self proposals out pa = Ok m ->
        m = produce_fake_densepose_losses_unsup self out \/ m = ∅).
Proof.
  split.
  - eexists. split; [reflexivity|]. done.
  - intros helpers self proposals out pa m [= <-] Hce Hsce E.
    by apply (unsup_unknown_name _ proposals out pa m); simpl.
Qed.

(** C10, amended.  When [loss_name] is "ce" or "sce", the pseudo-label branch
    is all or nothing: a returned map is the fake pseudo losses, or it holds
    exactly the three entries [loss_unsup_segm], [loss_u_p] and [loss_v_p]
    stored by three completed iterations of the loop.  When [fine_segm_p] is
    present and [u_p] or [v_p] is absent, a returned map is the fake one: the
    segmentation loss that the first iteration has stored is dropped. *)
Theorem pseudo_branch_all_or_nothing `{helpers : Helpers}
    (self : DensePoseChartLoss) (proposals : list Instances) (out : PredictorOutput)
    (pa : PackedAnnotations) :
  loss_name self = "ce" \/ loss_name self = "sce" ->
  let pos := pos_index_of self pa in
  let fake := produce_fake_densepose_losses_unsup self out in
  (forall m,
     produce_densepose_losses_unsup self proposals out pa = Ok m ->
     m = fake
     \/ exists st1 st2 st3 a b c,
          iteration self out pa pos st0 ("fine_segm_p", "fine_segm") = Ok (Continue st1)
          /\ iteration self out pa pos st1 ("u_p", "u") = Ok (Continue st2)
          /\ iteration self out pa pos st2 ("v_p", "v") = Ok (Continue st3)
          /\ losses st1 = <["loss_unsup_segm" := a]> ∅
          /\ losses st2 = <["loss_u_p" := b]> (losses st1)
          /\ losses st3 = <["loss_v_p" := c]> (losses st2)
          /\ m = <["loss_v_p" := c]> (<["loss_u_p" := b]> (<["loss_unsup_segm" := a]> ∅)))
  /\ (forall m,
        u_p pa = None \/ v_p pa = None ->
        produce_densepose_losses_unsup self proposals out pa = Ok m -> m = fake)
  /\ (forall st1,
        iteration self out pa pos st0 ("fine_segm_p", "fine_segm") = Ok (Continue st1) ->
        u_p pa = None ->
        produce_densepose_losses_unsup self proposals out pa = Ok fake)
  /\ (forall st1 st2,
        iteration self out pa pos st0 ("fine_segm_p", "fine_segm") = Ok (Continue st1) ->
        iteration self out pa pos st1 ("u_p", "u") = Ok (Continue st2) ->
        v_p pa = None ->
        produce_densepose_losses_unsup self proposals out pa = Ok fake).
Proof.
  intros Hname pos fake. split; [|split; [|split]].
  - intros m E.
    apply unsup_cases in E as [-> | (st1 & st2 & st3 & E1 & E2 & E3 & ->)]; [by left|].
    right.
    destruct (three_iterations _ _ _ _ _ _ _ Hname E1 E2 E3) as (a & b & c & _ & H1 & H2 & H3).
    exists st1, st2, st3, a, b, c. unfold update in H2, H3.
    rewrite insert_empty, <- insert_union_singleton_l in H2, H3.
    repeat split; try done. by rewrite H3, H2, H1.
  - intros m Habsent E.
    apply unsup_cases in E as [-> | (st1 & st2 & st3 & _ & E2 & E3 & _)]; [done|].
    apply iteration_u_Continue in E2 as (p2 & _ & _ & Hu & _).
    apply iteration_v_Continue in E3 as (p3 & _ & _ & Hv & _).
    destruct Habsent; congruence.
  - intros st1 E1 Hu. unfold produce_densepose_losses_unsup. simpl zip.
    rewrite (for_loop_first_Continue _ _ _ _ _ E1).
    apply for_loop_first_Return. unfold iteration. simpl. by rewrite Hu.
  - intros st1 st2 E1 E2 Hv. unfold produce_densepose_losses_unsup. simpl zip.
    rewrite (for_loop_first_Continue _ _ _ _ _ E1).
    rewrite (for_loop_first_Continue _ _ _ _ _ E2).
    apply for_loop_first_Return. unfold iteration. simpl. by rewrite Hv.
Qed.

(** * Instances on the sample inputs *)

(** Membership in a list given in full. *)
Ltac each_point Hi :=
  vm_compute in Hi; apply list_elem_of_In in Hi; simpl in Hi;
  repeat (destruct Hi as [<- | Hi]); [.. | destruct Hi].



Lemma fake_losses_form_and_keys_witness :
  let r := @call Sample.h_all (Sample.loss_obj 1 "ce") [Sample.pa_fg] Sample.out
             (Some Sample.crt) in
  value_at "loss_densepose_U" r = Some (Fin (8#800))
  /\ keys_of r
     = Some (dom (@produce_fake_densepose_losses Sample.h_all (Sample.loss_obj 1 "ce") Sample.out
                    (Some Sample.crt))).
Proof.
  intros r.
  assert (Hv : value_at "loss_densepose_U" r = Some (Fin (8#800)))
    by (vm_compute; reflexivity).
  split; [exact Hv|].
  destruct r as [m|e] eqn:E; [|discriminate Hv]. simpl. f_equal.
  by apply (@fake_losses_form_and_keys Sample.h_all (Sample.loss_obj 1 "ce") Sample.out
              (Some Sample.crt)) with (proposals := [Sample.pa_fg]); [left|].
Defined.

(** C2, as stated, fails: with a loss name other than "ce" and "sce", which
    the constructor accepts, the real path returns four keys where the fake
    path returns seven. *)
Lemma unknown_loss_name_real_path_keys :
  let self := Sample.loss_obj 1 "foo" in
  let r := @call Sample.h_all self [Sample.pa_fg] Sample.out None in
  init (Sample.cfg 1 "foo") = Ok self
  /\ keys_of r
     = Some {[ "loss_densepose_U"; "loss_densepose_V"; "loss_densepose_I";
               "loss_densepose_S" ]}
  /\ keys_of r
     <> Some (dom (@produce_fake_densepose_losses Sample.h_all self Sample.out None)).
Proof.
  intros self r.
  assert (Hk : keys_of r
               = Some {[ "loss_densepose_U"; "loss_densepose_V"; "loss_densepose_I";
                         "loss_densepose_S" ]}) by (vm_compute; reflexivity).
  split; [reflexivity|]. split; [exact Hk|].
  rewrite Hk. intros E.
  apply (f_equal (fun o : option (gset string) =>
                    match o with
                    | Some X => bool_decide ("loss_u_p" ∈ X)
                    | None => false
                    end)) in E.
  vm_compute in E. discriminate.
Qed.

Lemma loss_densepose_UV_summed_smooth_l1_witness :
  let r := @produce_densepose_losses_uv Sample.h_all (Sample.loss_obj 1 "ce")
             [Sample.pa_fg] Sample.out Sample.pa_fg
             (@from_matches Sample.h_all Sample.pa_fg (1, 1)%nat) [true; false] None in
  valid_points [true; false] = [0%nat]
  /\ exists q, value_at "loss_densepose_U" r = Some (Fin q)
               /\ (q == (5#1000) * w_points (Sample.loss_obj 1 "ce"))%Q.
Proof.
  intros r. split; [reflexivity|].
  destruct (@loss_densepose_UV_summed_smooth_l1 Sample.h_all (Sample.loss_obj 1 "ce")
              [Sample.pa_fg] Sample.out Sample.pa_fg
              (@from_matches Sample.h_all Sample.pa_fg (1, 1)%nat) [true; false] None)
    as (_ & Htotal & Hpoint).
  destruct (Htotal eq_refl eq_refl eq_refl eq_refl) as [m E].
  destruct (Hpoint m 0%nat E eq_refl) as (lu & q & Hlu & Hq & Hval);
    [reflexivity | reflexivity |].
  exists q. subst r. rewrite E. simpl. rewrite Hlu. simpl. by rewrite Hq.
Defined.

Lemma loss_densepose_I_mean_cross_entropy_witness :
  let interpolator := @from_matches Sample.h_all Sample.pa_fg (1, 1)%nat in
  let r := @produce_densepose_losses_segm Sample.h_all (Sample.loss_obj 1 "ce")
             [Sample.pa_fg] Sample.out Sample.pa_fg interpolator [true; false] None in
  nth 1 (fine_segm_labels_gt Sample.pa_fg) 0%nat = 0%nat
  /\ 1%nat ∈ valid_points (@j_valid Sample.h_all interpolator)
  /\ value_at "loss_densepose_I" r
     = Some (smul (vmean ((fun i =>
                             @ce_row Sample.h_all
                               (nth i (data (@extract_all Sample.h_all interpolator
                                               (fine_segm Sample.out))) [])
                               (nth i (fine_segm_labels_gt Sample.pa_fg) 0%nat))
                          <$> [0; 1]%nat))
               (w_part (Sample.loss_obj 1 "ce"))).
Proof.
  intros interpolator r.
  destruct (@loss_densepose_I_mean_cross_entropy Sample.h_all (Sample.loss_obj 1 "ce")
              [Sample.pa_fg] Sample.out Sample.pa_fg interpolator [true; false] None)
    as (Hform & Hsel & _ & _ & Htotal).
  split; [reflexivity|]. split; [by apply Hsel|].
  assert (Hrange : forall i,
            i ∈ valid_points (@j_valid Sample.h_all interpolator) ->
            (nth i (fine_segm_labels_gt Sample.pa_fg) 0
             < length (nth i (data (@extract_all Sample.h_all interpolator
                                      (fine_segm Sample.out))) []))%nat).
  { intros i Hi. each_point Hi; vm_compute; lia. }
  destruct (Htotal eq_refl eq_refl Hrange) as [m E].
  destruct (Hform m E) as (l & Hl & Hd & _).
  subst r. rewrite E. simpl. rewrite Hl. simpl. by rewrite Hd.
Defined.

Lemma loss_correction_I_abstain_target_witness :
  let interpolator := @from_matches Sample.h_all Sample.pa_two (1, 1)%nat in
  let r := @produce_densepose_losses_segm Sample.h_all (Sample.loss_obj 1 "ce")
             [Sample.pa_two] Sample.out Sample.pa_two interpolator [true; true]
             (Some Sample.crt) in
  let crt_rows :=
    data (@extract_all Sample.h_all interpolator (crt_fine_segm Sample.crt)) in
  value_at "loss_correction_I" r
  = Some (smul (vmean [(@ce_row Sample.h_all (nth 0 crt_rows []) 2 * 2)%Q;
                       @ce_row Sample.h_all (nth 1 crt_rows []) 1])
            (w_crt_segm (Sample.loss_obj 1 "ce"))).
Proof.
  intros interpolator r crt_rows.
  destruct (@loss_correction_I_abstain_target Sample.h_all (Sample.loss_obj 1 "ce")
              [Sample.pa_two] Sample.out Sample.pa_two interpolator [true; true]
              Sample.crt) as (Hform & Htotal).
  destruct (Htotal eq_refl eq_refl eq_refl) as [m E].
  { intros i Hi. each_point Hi; vm_compute; lia. }
  destruct (Hform m E) as (l & Hl & Hd & _).
  subst r. rewrite E. simpl. rewrite Hl. simpl. by rewrite Hd.
Defined.

Lemma correction_regression_detached_residual_witness :
  let interpolator := @from_matches Sample.h_all Sample.pa_fg (1, 1)%nat in
  let r := @produce_densepose_losses_uv Sample.h_all (Sample.loss_obj 1 "ce")
             [Sample.pa_fg] Sample.out Sample.pa_fg interpolator [true; false]
             (Some Sample.crt) in
  value_at "loss_correction_U" r
  = Some (Fin ((smooth_l1 (1#10) ((4#10) - clamp 0 1 (1#2)) + 0)
               * w_crt_points (Sample.loss_obj 1 "ce"))%Q)
  /\ exists m l, r = Ok m /\ m !! "loss_correction_U" = Some l
                 /\ graph l = {["crt_u"]}.
Proof.
  intros interpolator r.
  destruct (@correction_regression_detached_residual Sample.h_all (Sample.loss_obj 1 "ce")
              [Sample.pa_fg] Sample.out Sample.pa_fg interpolator [true; false]
              Sample.crt) as (Hform & Htotal).
  destruct (Htotal eq_refl eq_refl eq_refl eq_refl eq_refl eq_refl) as [m E].
  destruct (Hform m E) as (lu & lv & Hlu & _ & Hdu & _ & Hgu & _).
  subst r. rewrite E. split.
  - simpl. rewrite Hlu. simpl. by rewrite Hdu.
  - by exists m, lu.
Defined.

Lemma confidence_gate_only_below_one_witness :
  let self := Sample.loss_obj (95#100) "ce" in
  exists est pseudo,
    @loop_inputs Sample.h_all self Sample.pa_fg
      (@pos_index_of Sample.h_all self Sample.pa_fg) (fine_segm Sample.out)
      Sample.pseudo_segm = Ok (est, pseudo)
    /\ pseudo = [[1#10; 9#10]]%Q
    /\ @produce_densepose_losses_unsup Sample.h_all self [Sample.pa_fg] Sample.out
         Sample.pa_fg
       = Ok (@produce_fake_densepose_losses_unsup Sample.h_all self Sample.out).
Proof.
  intros self.
  assert (Hin : exists est,
            @loop_inputs Sample.h_all self Sample.pa_fg
              (@pos_index_of Sample.h_all self Sample.pa_fg) (fine_segm Sample.out)
              Sample.pseudo_segm = Ok (est, [[1#10; 9#10]]%Q))
    by (eexists; vm_compute; reflexivity).
  destruct Hin as [est Hin]. exists est, [[1#10; 9#10]]%Q.
  split; [exact Hin|]. split; [reflexivity|].
  apply (@confidence_gate_only_below_one Sample.h_all self [Sample.pa_fg] Sample.out
           Sample.pa_fg Sample.pseudo_segm est _ eq_refl Hin).
  - reflexivity.
  - intros row Hrow. apply list_elem_of_singleton in Hrow as ->. reflexivity.
Defined.

(** C7, as stated, fails: at [pseudo_threshold = 1.0] with every confidence
    below 1 the branch does not fall back to the fake losses; it keeps the
    foreground position and returns a loss computed from it. *)
Lemma threshold_one_keeps_every_position :
  let self := Sample.loss_obj 1 "ce" in
  let r := @produce_densepose_losses_unsup Sample.h_all self [Sample.pa_fg] Sample.out
             Sample.pa_fg in
  pseudo_threshold self = 1%Q
  /\ (exists est,
        @loop_inputs Sample.h_all self Sample.pa_fg
          (@pos_index_of Sample.h_all self Sample.pa_fg) (fine_segm Sample.out)
          Sample.pseudo_segm = Ok (est, [[1#10; 9#10]]%Q))
  /\ (row_max [1#10; 9#10] < 1)%Q
  /\ value_at "loss_u_p" r = Some (Fin (4#128))
  /\ r <> Ok (@produce_fake_densepose_losses_unsup Sample.h_all self Sample.out).
Proof.
  intros self r.
  assert (Hv : value_at "loss_u_p" r = Some (Fin (4#128))) by (vm_compute; reflexivity).
  split; [reflexivity|]. split; [eexists; vm_compute; reflexivity|].
  split; [reflexivity|]. split; [exact Hv|].
  intros E. rewrite E in Hv. vm_compute in Hv. discriminate.
Qed.

(** C8.  The claim asks for the fake losses whenever the foreground
    selection is empty, for every threshold.  The code tests for an empty
    selection only under [pseudo_threshold < 1]: with the same inputs and no
    foreground position it returns the fake losses at threshold 1/2, but at
    threshold 1.0 it goes on and returns three means over an empty tensor,
    NaN, also through [__call__]. *)
Theorem empty_foreground_without_gate_is_not_fake :
  let self := Sample.loss_obj 1 "ce" in
  let r := @produce_densepose_losses_unsup Sample.h_all self [Sample.pa_empty] Sample.out
             Sample.pa_empty in
  let below := Sample.loss_obj (1#2) "ce" in
  any (@pos_index_of Sample.h_all self Sample.pa_empty) = false
  /\ @produce_densepose_losses_unsup Sample.h_all below [Sample.pa_empty] Sample.out
       Sample.pa_empty
     = Ok (@produce_fake_densepose_losses_unsup Sample.h_all below Sample.out)
  /\ value_at "loss_unsup_segm" r = Some NaN
  /\ value_at "loss_u_p" r = Some NaN
  /\ value_at "loss_v_p" r = Some NaN
  /\ r <> Ok (@produce_fake_densepose_losses_unsup Sample.h_all self Sample.out)
  /\ value_at "loss_unsup_segm"
       (@call Sample.h_all self [Sample.pa_empty] Sample.out None) = Some NaN.
Proof.
  intros self r below.
  assert (Hv : value_at "loss_unsup_segm" r = Some NaN) by (vm_compute; reflexivity).
  split; [reflexivity|]. split.
  { apply (@empty_foreground_falls_back_below_one Sample.h_all below [Sample.pa_empty]
             Sample.out Sample.pa_empty); [reflexivity|reflexivity|].
    right. exists Sample.pseudo_segm. eexists _, _. split; [reflexivity|].
    vm_compute. reflexivity. }
  split; [exact Hv|].
  split; [vm_compute; reflexivity|]. split; [vm_compute; reflexivity|].
  split; [|vm_compute; reflexivity].
  intros E. rewrite E in Hv. vm_compute in Hv. discriminate.
Qed.

Lemma constructor_stores_configuration_unchecked_witness :
  let self := Sample.loss_obj 1 "foo" in
  init (Sample.cfg 1 "foo") = Ok self
  /\ keys_of (@produce_densepose_losses_unsup Sample.h_all self [Sample.pa_fg] Sample.out
                Sample.pa_fg) = Some ∅.
Proof.
  intros self. split; [reflexivity|].
  assert (Hk : keys_of (@produce_densepose_losses_unsup Sample.h_all self [Sample.pa_fg]
                          Sample.out Sample.pa_fg) = Some ∅)
    by (vm_compute; reflexivity).
  destruct (@produce_densepose_losses_unsup Sample.h_all self [Sample.pa_fg] Sample.out
              Sample.pa_fg) as [m|e] eqn:E; [|discriminate Hk].
  destruct (proj2 (constructor_stores_configuration_unchecked (Sample.cfg 1 "foo"))
              Sample.h_all self [Sample.pa_fg] Sample.out Sample.pa_fg m)
    as [-> | ->]; try done.
Defined.

(** C9, as stated, fails: the constructor returns an object for a threshold
    outside [0, 1] and an unknown loss name. *)
Lemma constructor_accepts_invalid_configuration :
  ~ (0 <= 2 <= 1)%Q /\ "foo" <> "ce" /\ "foo" <> "sce"
  /\ (exists self,
        init (Sample.cfg 2 "foo") = Ok self
        /\ pseudo_threshold self = 2%Q /\ loss_name self = "foo")
  /\ forall e, init (Sample.cfg 2 "foo") <> Raise e.
Proof.
  split; [intros [_ H]; by apply H|]. split; [done|]. split; [done|].
  split; [eexists; split; [reflexivity|done]|]. discriminate.
Qed.

Lemma pseudo_branch_all_or_nothing_witness :
  let self := Sample.loss_obj 1 "ce" in
  let pos := @pos_index_of Sample.h_all self Sample.pa_no_u in
  (exists st1,
     @iteration Sample.h_all self Sample.out Sample.pa_no_u pos st0
       ("fine_segm_p", "fine_segm") = Ok (Continue st1)
     /\ dom (losses st1) = {["loss_unsup_segm"]})
  /\ u_p Sample.pa_no_u = None
  /\ @produce_densepose_losses_unsup Sample.h_all self [Sample.pa_no_u] Sample.out
       Sample.pa_no_u
     = Ok (@produce_fake_densepose_losses_unsup Sample.h_all self Sample.out).
Proof.
  intros self pos.
  assert (H1 : exists st1,
            @iteration Sample.h_all self Sample.out Sample.pa_no_u pos st0
              ("fine_segm_p", "fine_segm") = Ok (Continue st1)
            /\ dom (losses st1) = {["loss_unsup_segm"]}).
  { eexists. split; [vm_compute; reflexivity|]. vm_compute. reflexivity. }
  split; [exact H1|]. split; [reflexivity|].
  destruct H1 as (st1 & E1 & _).
  by apply (proj1 (proj2 (proj2 (@pseudo_branch_all_or_nothing Sample.h_all self
                                   [Sample.pa_no_u] Sample.out Sample.pa_no_u
                                   (or_introl eq_refl)))) st1 E1).
Defined.

(** C10, as stated, fails: with a loss name other than "ce" and "sce",
    which the constructor accepts, the branch runs its three iterations and
    returns an empty map: none of the three keys holds a computed loss, and
    the map is not the fake one either. *)
Lemma unknown_loss_name_stores_no_pseudo_loss :
  let self := Sample.loss_obj 1 "foo" in
  let r := @produce_densepose_losses_unsup Sample.h_all self [Sample.pa_fg] Sample.out
             Sample.pa_fg in
  init (Sample.cfg 1 "foo") = Ok self
  /\ keys_of r = Some ∅
  /\ r <> Ok (@produce_fake_densepose_losses_unsup Sample.h_all self Sample.out).
Proof.
  intros self r.
  assert (Hk : keys_of r = Some ∅) by (vm_compute; reflexivity).
  split; [reflexivity|]. split; [exact Hk|].
  intros E. rewrite E in Hk.
  apply (f_equal (fun o : option (gset string) =>
                    match o with
                    | Some X => bool_decide ("loss_u_p" ∈ X)
                    | None => false
                    end)) in Hk.
  vm_compute in Hk. discriminate.
Qed.

(** * Further properties of the loss *)

(** ** How [__call__] merges the three maps *)

Section Merge.
Context `{helpers : Helpers}.

(** Whatever the loss name, the pseudo branch stores pseudo keys only. *)
Lemma unsup_dom_sub self proposals out pa m :
  produce_densepose_losses_unsup self proposals out pa = Ok m ->
  dom m ⊆ pseudo_keys.
Proof.
  intros E. unfold pseudo_keys.
  apply unsup_cases in E as [-> | (st1 & st2 & st3 & E1 & E2 & E3 & ->)].
  - by rewrite fake_unsup_dom.
  - apply iteration_segm_Continue in E1 as (p1 & est1 & ps1 & _ & _ & E1).
    apply iteration_u_Continue in E2 as (p2 & est2 & ps2 & _ & _ & E2).
    apply iteration_v_Continue in E3 as (p3 & est3 & ps3 & _ & _ & E3).
    apply segm_branch_Continue in E1 as (Hsce & _ & _ & _ & _ & l & _ & E1).
    apply uv_branch_Ok in E2 as (? & [= <-] & _ & _ & _ & E2 & E2').
    apply uv_branch_Ok in E3 as (? & [= <-] & _ & _ & _ & E3 & E3').
    destruct (decide (loss_name self = "ce")) as [Hce|Hce].
    + destruct E2 as [b Hb]; [by left|]. destruct E3 as [c Hc]; [by left|].
      rewrite Hc, Hb, E1. unfold update, st0. simpl.
      rewrite ?dom_union_L, ?dom_insert_L, ?dom_empty_L.
      intros k. set_unfold; tauto.
    + rewrite (E3' Hce Hsce), (E2' Hce Hsce), E1. unfold st0. simpl.
      rewrite dom_empty_L. apply empty_subseteq.
Qed.

Lemma uv_segm_disjoint (a b c : LossDict) (corrections : option CorrectorPredictorOutput) :
  dom a = {[ "loss_densepose_U"; "loss_densepose_V" ]}
          ∪ match corrections with
            | Some _ => {[ "loss_correction_U"; "loss_correction_V" ]}
            | None => ∅
            end ->
  dom b = {[ "loss_densepose_I"; "loss_densepose_S" ]}
          ∪ match corrections with
            | Some _ => {[ "loss_correction_I" ]}
            | None => ∅
            end ->
  dom c ⊆ pseudo_keys ->
  dom a ## dom b /\ dom a ## dom c /\ dom b ## dom c.
Proof.
  intros Ha Hb Hc. rewrite Ha, Hb. unfold pseudo_keys in Hc.
  repeat split; intros k Hk1 Hk2; try apply Hc in Hk1; try apply Hc in Hk2;
    destruct corrections; set_unfold; intuition (subst; discriminate).
Qed.

Lemma merged_lookup (a b c : LossDict) (k : string) (l : tracked scalar) :
  dom a ## dom b -> dom a ## dom c -> dom b ## dom c ->
  update (update a b) c !! k = Some l
  <-> a !! k = Some l \/ b !! k = Some l \/ c !! k = Some l.
Proof.
  intros Hab Hac Hbc. unfold update.
  rewrite lookup_union_Some; [rewrite lookup_union_Some; [tauto|]|].
  - by apply map_disjoint_dom.
  - apply map_disjoint_union_r. split; apply map_disjoint_dom; done.
Qed.

(** The foreground mask of [__call__] holds where the point is valid and its
    label is a part. *)
Lemma mul_mask_points (valid : list bool) (labels : list nat) (fg : list bool) :
  mul_mask valid (map (fun l => 0 <? l)%nat labels) = Ok fg ->
  length fg = length valid
  /\ length fg = length labels
  /\ forall i, fg !! i = Some true
               <-> valid !! i = Some true /\ exists l, labels !! i = Some l /\ (0 < l)%nat.
Proof.
  unfold mul_mask. rewrite length_map. case_decide as Hlen; [|discriminate].
  intros [= <-]. rewrite length_zip_with, length_map.
  split; [lia|]. split; [lia|]. intros i.
  rewrite lookup_zip_with.
  change (map ?f ?k) with (f <$> k). rewrite list_lookup_fmap.
  destruct (valid !! i) as [b|], (labels !! i) as [l|]; simpl.
  - split.
    + intros [= Hb]. apply andb_true_iff in Hb as [-> Hl]. apply Nat.ltb_lt in Hl. eauto.
    + intros ([= ->] & l' & [= <-] & Hl). f_equal. simpl. by apply Nat.ltb_lt.
  - split; [done|]. by intros (_ & l' & ? & _).
  - split; [done|]. by intros (? & _).
  - split; [done|]. by intros (? & _).
Qed.

(** The two ways [__call__] returns: the fake losses, or the merge of the
    three real maps, whose keys are pairwise disjoint. *)
Lemma call_cases
    (self : DensePoseChartLoss) (proposals : list Instances) (out : PredictorOutput)
    (corrections : option CorrectorPredictorOutput) (m : LossDict) :
  call self proposals out corrections = Ok m ->
  m = produce_fake_densepose_losses self out corrections
  \/ exists pa fg a b c,
       let interpolator := from_matches pa (dH (data (u out)), dW (data (u out))) in
       extract_packed_annotations_from_matches proposals = Some pa
       /\ mul_mask (j_valid interpolator) (map (fun l => 0 <? l)%nat (fine_segm_labels_gt pa))
          = Ok fg
       /\ any fg = true
       /\ produce_densepose_losses_uv self proposals out pa interpolator fg corrections = Ok a
       /\ produce_densepose_losses_segm self proposals out pa interpolator fg corrections = Ok b
       /\ produce_densepose_losses_unsup self proposals out pa = Ok c
       /\ dom a ## dom b /\ dom a ## dom c /\ dom b ## dom c
       /\ forall k l, m !! k = Some l
                      <-> a !! k = Some l \/ b !! k = Some l \/ c !! k = Some l.
Proof.
  unfold call. case_decide; [intros [= <-]; by left|].
  destruct (extract_packed_annotations_from_matches proposals) as [pa|];
    [|intros [= <-]; by left].
  intros E. bind_inv E. rename a into fg.
  destruct (any fg) eqn:Hany; simpl in E; [|injection E as <-; by left].
  bind_inv E. bind_inv E. rename a0 into b. bind_inv E. rename a0 into c.
  injection E as <-. right. exists pa, fg, a, b, c.
  destruct (uv_segm_disjoint a b c corrections) as (Hab & Hac & Hbc);
    [by eapply uv_dom | by eapply segm_dom | by eapply unsup_dom_sub |].
  repeat split; try done; by apply merged_lookup.
Qed.

End Merge.

(** X1. When [__call__] takes the real path, the three maps it merges (U/V,
    segmentation, pseudo labels) have pairwise disjoint keys, so the merge
    overwrites nothing: an entry is in the returned map exactly when it is
    in one of the three. *)
Theorem call_merges_disjoint_losses `{helpers : Helpers}
    (self : DensePoseChartLoss) (proposals : list Instances) (out : PredictorOutput)
    (corrections : option CorrectorPredictorOutput) (m : LossDict) :
  call self proposals out corrections = Ok m ->
  m = produce_fake_densepose_losses self out corrections
  \/ exists pa fg a b c,
       let interpolator := from_matches pa (dH (data (u out)), dW (data (u out))) in
       extract_packed_annotations_from_matches proposals = Some pa
       /\ mul_mask (j_valid interpolator) (map (fun l => 0 <? l)%nat (fine_segm_labels_gt pa))
          = Ok fg
       /\ any fg = true
       /\ produce_densepose_losses_uv self proposals out pa interpolator fg corrections = Ok a
       /\ produce_densepose_losses_segm self proposals out pa interpolator fg corrections = Ok b
       /\ produce_densepose_losses_unsup self proposals out pa = Ok c
       /\ dom a ## dom b /\ dom a ## dom c /\ dom b ## dom c
       /\ forall k l, m !! k = Some l
                      <-> a !! k = Some l \/ b !! k = Some l \/ c !! k = Some l.
Proof.
  unfold call. case_decide; [intros [= <-]; by left|].
  destruct (extract_packed_annotations_from_matches proposals) as [pa|];
    [|intros [= <-]; by left].
  intros E. bind_inv E. rename a into fg.
  destruct (any fg) eqn:Hany; simpl in E; [|injection E as <-; by left].
  bind_inv E. bind_inv E. rename a0 into b. bind_inv E. rename a0 into c.
  injection E as <-. right. exists pa, fg, a, b, c.
  destruct (uv_segm_disjoint a b c corrections) as (Hab & Hac & Hbc);
    [by eapply uv_dom | by eapply segm_dom | by eapply unsup_dom_sub |].
  repeat split; try done; by apply merged_lookup.
Qed.

(** X2. On the real path of [__call__] the regression loss runs over the
    points that are valid for the interpolator and carry a part label, while
    the fine-segmentation loss runs over every valid point:
    [loss_densepose_U] is the smooth-L1 term summed over the positions of
    the mask [j_valid * (fine_segm_labels_gt > 0)], each position once,
    times [w_points]; [loss_densepose_I] is the mean cross entropy over the
    positions of [j_valid], times [w_part]. *)
Theorem call_losses_at_points `{helpers : Helpers}
    (self : DensePoseChartLoss) (proposals : list Instances) (out : PredictorOutput)
    (corrections : option CorrectorPredictorOutput) (pa : PackedAnnotations)
    (m : LossDict) :
  let interpolator := from_matches pa (dH (data (u out)), dW (data (u out))) in
  let valid := j_valid interpolator in
  let labels := fine_segm_labels_gt pa in
  let u_pts := extract_at_points interpolator (data (u out)) in
  let rows := data (extract_all interpolator (fine_segm out)) in
  let fg := valid_points (zip_with andb valid (map (fun l => 0 <? l)%nat labels)) in
  proposals <> [] ->
  extract_packed_annotations_from_matches proposals = Some pa ->
  (exists i l, valid !! i = Some true /\ labels !! i = Some l /\ (0 < l)%nat) ->
  call self proposals out corrections = Ok m ->
  (forall i, i ∈ fg
             <-> valid !! i = Some true /\ exists l, labels !! i = Some l /\ (0 < l)%nat)
  /\ NoDup fg
  /\ exists lu li,
       m !! "loss_densepose_U" = Some lu
       /\ data lu
          = Fin (Qsum ((fun i => smooth_l1 (nth i u_pts 0) (nth i (u_gt pa) 0)) <$> fg)
                 * w_points self)%Q
       /\ m !! "loss_densepose_I" = Some li
       /\ data li
          = smul (vmean ((fun i => ce_row (nth i rows []) (nth i labels 0%nat))
                         <$> valid_points valid)) (w_part self).
Proof.
  intros interpolator valid labels u_pts rows fg Hne Hpa (i0 & l0 & Hv0 & Hl0 & Hpos0).
  unfold call. rewrite decide_False by (by destruct proposals).
  rewrite Hpa. intros E. apply bind_Ok in E as (mask & Hmask & E).
  destruct (mul_mask_points _ _ _ Hmask) as (_ & _ & Hfg).
  assert (Hm : mask = zip_with andb valid (map (fun l => 0 <? l)%nat labels)).
  { unfold mul_mask in Hmask. case_decide; [|discriminate]. by injection Hmask as <-. }
  assert (Hany : any mask = true).
  { destruct (any mask) eqn:Hany; [done|]. exfalso.
    apply (proj1 (any_false mask) Hany i0). apply Hfg. eauto. }
  rewrite Hany in E. simpl in E.
  apply bind_Ok in E as (a & Ha & E). apply bind_Ok in E as (b & Hb & E).
  apply bind_Ok in E as (c & Hc & E). injection E as <-.
  destruct (uv_segm_disjoint a b c corrections) as (Hab & Hac & Hbc);
    [by eapply uv_dom | by eapply segm_dom | by eapply unsup_dom_sub |].
  apply uv_inv in Ha as (_ & HU & _). apply segm_inv in Hb as (_ & HI & _).
  subst fg. rewrite <- Hm.
  split; [intros i; rewrite valid_points_spec; apply Hfg|].
  split; [unfold valid_points; apply NoDup_filter, NoDup_seq|].
  eexists _, _.
  split; [apply merged_lookup; [done..|left; exact HU]|].
  split; [reflexivity|].
  split; [apply merged_lookup; [done..|right; left; exact HI]|].
  reflexivity.
Qed.

(** ** The pseudo U/V losses *)

Section Gather.
Context `{helpers : Helpers}.

Lemma mapM_result_Ok {A B} (f : A -> result B) (l : list A) (r : list B) :
  mapM f l = Ok r <-> Forall2 (fun x y => f x = Ok y) l r.
Proof.
  revert r. induction l as [|x l IH]; intros r; simpl.
  - split.
    + intros [= <-]. constructor.
    + intros Hr. apply Forall2_nil_inv_l in Hr as ->. done.
  - split.
    + intros E. bind_inv E. bind_inv E. injection E as <-.
      constructor; [done|]. by apply IH.
    + intros Hr. apply Forall2_cons_inv_l in Hr as (y & k & Hy & Hk & ->).
      rewrite Hy. simpl. apply IH in Hk. rewrite Hk. done.
Qed.

Lemma Forall2_fmap_eq {A B} (g : A -> B) (l : list A) (r : list B) :
  Forall2 (fun x y => y = g x) l r -> r = g <$> l.
Proof. induction 1 as [|x y l r -> _ ->]; done. Qed.

Lemma nth_fmap_lt {A B} (f : A -> B) (l : list A) (d : A) (d' : B) (j : nat) :
  (j < length l)%nat -> nth j (f <$> l) d' = f (nth j l d).
Proof.
  intros Hj. apply nth_lookup_Some. rewrite list_lookup_fmap.
  destruct (nth_lookup_or_length l j d) as [-> | ?]; [done | lia].
Qed.

Lemma zip_seq_column (i : nat) (pred : list (list nat)) :
  zip (seq 0 (length pred)) (map (fun row => nth i row 0%nat) pred)
  = (fun r => (r, nth i (nth r pred []) 0%nat)) <$> seq 0 (length pred).
Proof.
  rewrite (zip_with_positions pair 0%nat 0%nat) by (by rewrite length_map, length_seq).
  rewrite length_seq. apply (list_fmap_ext _ _ (seq _ _)). intros k r Hr.
  apply lookup_seq in Hr as [-> Hk]. simpl. f_equal.
  - by apply nth_lookup_Some, lookup_seq_lt.
  - by apply (nth_fmap_lt (fun row => nth _ row 0%nat)).
Qed.

Lemma gather_Ok (rows : list (list Q)) (pred : list (list nat)) (n i : nat) (l : list Q) :
  gather rows n (map (fun row => nth i row 0%nat) pred) = Ok l ->
  n = length pred
  /\ l = (fun r => nth (nth i (nth r pred []) 0%nat) (nth r rows []) 0%Q)
           <$> seq 0 (length pred).
Proof.
  unfold gather. rewrite length_map. case_decide as Hn; [subst n|discriminate].
  intros E. split; [done|]. apply mapM_result_Ok in E.
  rewrite zip_seq_column in E. apply Forall2_fmap_l in E.
  apply Forall2_fmap_eq. eapply Forall2_impl; [exact E|].
  intros r x Hx. simpl in Hx.
  destruct (rows !! r) as [row|] eqn:Hrow; [|discriminate].
  destruct (row !! _) as [y|] eqn:Hy; [|discriminate].
  injection Hx as <-. rewrite (nth_lookup_Some _ _ _ _ Hrow).
  symmetry. by apply nth_lookup_Some.
Qed.

Lemma gather_top_Ok (k width n : nat) (rows : list (list Q)) (pred : list (list nat))
    (l : list Q) :
  gather_top k width rows n pred = Ok l ->
  k <> 0%nat /\ n = length pred /\ l = gathered k rows pred.
Proof.
  unfold gather_top. case_decide as Hk; [discriminate|].
  intros E. bind_inv E. injection E as <-. apply mapM_result_Ok in Ea.
  split; [done|].
  assert (Hparts : Forall2 (fun i part =>
            n = length pred
            /\ part = (fun r => nth (nth i (nth r pred []) 0%nat) (nth r rows []) 0%Q)
                        <$> seq 0 (length pred)) (seq 0 k) a).
  { eapply Forall2_impl; [exact Ea|]. intros i part E. simpl in E.
    bind_inv E. apply column_Ok in Ea0 as [_ ->]. by apply gather_Ok in E. }
  split.
  - destruct k; [done|]. inversion Hparts as [|? ? ? ? [Hn _]]; done.
  - unfold gathered. f_equal. apply Forall2_fmap_eq.
    eapply Forall2_impl; [exact Hparts|]. by intros i part [_ ->].
Qed.

End Gather.

Section PseudoUV.
Context `{helpers : Helpers}.

(** What an iteration after the first stores under the plain cross entropy. *)
Lemma uv_branch_loss self p_key st est pseudo s :
  loss_name self = "ce" ->
  uv_branch self p_key st est pseudo = Ok s ->
  exists pred,
    pred_index st = Some pred
    /\ (gating self = true ->
        exists m, mask st = Some m /\ length m = length (data est)
                  /\ length m = length pseudo)
    /\ length (masked self (mask st) pseudo) = length pred
    /\ s = Continue {|
             losses :=
               update (losses st)
                 (<["loss_" +:+ p_key :=
                      scale (Track (vmean (zip_with smooth_l1
                                             (gathered (uv_loss_channels self)
                                                (masked self (mask st) (data est)) pred)
                                             (gathered (uv_loss_channels self)
                                                (masked self (mask st) pseudo) pred)))
                               (graph est)) (w_p_points self)]> ∅);
             mask := mask st; pred_index := pred_index st; weights := weights st |}.
Proof.
  intros Hce. unfold uv_branch, masked. intros E.
  bind_inv E. destruct a as [pseudo' est'].
  destruct (pred_index st) as [pred|] eqn:Hpred; [|discriminate].
  exists pred. split; [done|].
  assert (Hsel : pseudo' = (if gating self then
                              match mask st with Some m => mask_filter m pseudo | None => pseudo end
                            else pseudo)
                 /\ data est' = (if gating self then
                                   match mask st with
                                   | Some m => mask_filter m (data est)
                                   | None => data est
                                   end
                                 else data est)
                 /\ graph est' = graph est
                 /\ (gating self = true ->
                     exists m, mask st = Some m /\ length m = length (data est)
                               /\ length m = length pseudo)).
  { destruct (gating self).
    - destruct (mask st) as [m|]; [|discriminate].
      do 2 bind_inv Ea. injection Ea as <- <-.
      apply index_mask_Ok in Ea0 as [Hlp ->].
      apply tindex_mask_Ok in Ea1 as [Hle ->]. simpl. eauto 10.
    - injection Ea as <- <-. repeat split; try done. }
  destruct Hsel as (Hp & He & Hg & Hm). split; [done|].
  bind_inv E. apply gather_top_Ok in Ea0 as (_ & Hn & ->).
  bind_inv E. apply tbind_Ok in Ea0 as [Ea0 Hg2].
  apply gather_top_Ok in Ea0 as (_ & _ & Ha0).
  bind_inv E. apply tbind2_Ok in Ea0 as [Ea0 Hg3].
  unfold smooth_l1_loss_none, elementwise in Ea0.
  destruct (decide (length (data a) = _)) as [_|]; [|discriminate].
  injection Ea0 as Ea0. simpl in Ea0, Hg3.
  assert (Ha : a0 = Track (zip_with smooth_l1
                             (gathered (uv_loss_channels self) (data est') pred)
                             (gathered (uv_loss_channels self) pseudo' pred))
                      (graph est)).
  { destruct a0 as [d3 g3]. simpl in *. subst d3 g3.
    by rewrite Ha0, Hg2, Hg, (right_id_L ∅ (∪)). }
  subst a0.
  rewrite decide_False in E by (rewrite Hce; discriminate).
  rewrite decide_True in E by done. injection E as <-.
  rewrite <- Hp, <- He. split; [by rewrite Hn|]. reflexivity.
Qed.

End PseudoUV.

Section PseudoUVFormula.
Context `{helpers : Helpers}.

Lemma gathered_at_positions (k : nat) (f : nat -> list Q) (g : nat -> list nat)
    (pts : list nat) :
  gathered k (f <$> pts) (g <$> pts)
  = concat ((fun i => (fun j => nth (nth i (g j) 0%nat) (f j) 0%Q) <$> pts) <$> seq 0 k).
Proof.
  unfold gathered. f_equal. apply (list_fmap_ext _ _ (seq 0 k)). intros n i _.
  rewrite <- (zip_with_fmap_same (fun row pr => nth (nth i pr 0%nat) row 0%Q) f g pts).
  rewrite (zip_with_positions _ [] []) by (by rewrite !length_fmap).
  by rewrite !length_fmap.
Qed.

Lemma zip_with_concat_same {A} (h : Q -> Q -> Q) (fa fb : nat -> A -> Q)
    (pts : list A) (ranks : list nat) :
  zip_with h (concat ((fun i => fa i <$> pts) <$> ranks))
             (concat ((fun i => fb i <$> pts) <$> ranks))
  = concat ((fun i => (fun j => h (fa i j) (fb i j)) <$> pts) <$> ranks).
Proof.
  induction ranks as [|i ranks IH]; [done|]. csimpl.
  rewrite zip_with_app by (by rewrite !length_fmap).
  by rewrite zip_with_fmap_same, IH.
Qed.

(** The terms of an iteration after the first, position by position. *)
Lemma pseudo_uv_terms_eq self (pseudo_segm est pseudo : list (list Q))
    (m : option (list bool)) :
  m = (if gating self then Some (confidence_mask self pseudo_segm) else None) ->
  (gating self = true ->
   length (confidence_mask self pseudo_segm) = length est
   /\ length (confidence_mask self pseudo_segm) = length pseudo) ->
  zip_with smooth_l1
    (gathered (uv_loss_channels self) (masked self m est)
       (gated self pseudo_segm (top_k self pseudo_segm)))
    (gathered (uv_loss_channels self) (masked self m pseudo)
       (gated self pseudo_segm (top_k self pseudo_segm)))
  = pseudo_uv_terms self pseudo_segm est pseudo.
Proof.
  intros -> Hlen. unfold masked, gated, pseudo_uv_terms, kept.
  destruct (gating self).
  - destruct Hlen as [He Hp]; [done|].
    assert (Ht : length (confidence_mask self pseudo_segm)
                 = length (top_k self pseudo_segm))
      by (unfold confidence_mask, top_k; by rewrite !length_map).
    rewrite (mask_filter_nth [] _ est), (mask_filter_nth [] _ pseudo),
      (mask_filter_nth [] _ (top_k self pseudo_segm)) by done.
    rewrite !gathered_at_positions. apply zip_with_concat_same.
  - unfold gathered.
    replace (length (top_k self pseudo_segm)) with (length pseudo_segm)
      by (unfold top_k; by rewrite length_map).
    apply zip_with_concat_same.
Qed.

Lemma loop_inputs_graph self pa pos e p est pseudo :
  loop_inputs self pa pos e p = Ok (est, pseudo) -> graph est = graph e.
Proof.
  unfold loop_inputs. intros E. bind_inv E. apply tbind_Ok in Ea as [_ Hg].
  bind_inv E. by injection E as <- <-.
Qed.

(** An iteration after the first, run on the state the first one leaves. *)
Lemma uv_iteration_entry self out p_key st est_s pseudo_s est pseudo st1 s :
  loss_name self = "ce" ->
  segm_branch self out st est_s pseudo_s = Ok (Continue st1) ->
  mask st = None ->
  uv_branch self p_key st1 est pseudo = Ok s ->
  exists st2,
    s = Continue st2
    /\ mask st2 = mask st1 /\ pred_index st2 = pred_index st1
    /\ losses st2
       = update (losses st1)
           (<["loss_" +:+ p_key :=
                scale (Track (vmean (pseudo_uv_terms self pseudo_s (data est) pseudo))
                         (graph est)) (w_p_points self)]> ∅).
Proof.
  intros Hce E1 Hst E2.
  apply segm_branch_Continue in E1 as (_ & _ & Hmask & Hpred & _).
  rewrite Hst in Hmask.
  apply (uv_branch_loss _ _ _ _ _ _ Hce) in E2 as (pred & Hp & Hlen & _ & ->).
  rewrite Hpred in Hp. injection Hp as <-.
  eexists. split; [reflexivity|]. simpl. split; [done|]. split; [done|].
  rewrite (pseudo_uv_terms_eq self pseudo_s (data est) pseudo (mask st1) Hmask); [done|].
  intros Hg. destruct (Hlen Hg) as (m & Hm & He & Hps).
  rewrite Hmask, Hg in Hm. injection Hm as <-. done.
Qed.

End PseudoUVFormula.

(** X3. Under the plain cross entropy, when the pseudo-label branch does not
    fall back to the fake losses, [loss_u_p] is the mean, over the channel
    ranks below [uv_loss_channels] and the kept foreground positions, of the
    smooth-L1 term between the student U value and the pseudo U value at the
    channel that [torch.argsort] of the pseudo segmentation ranks there
    (whatever order it gives to equal scores), times [w_p_points]; the same
    holds for [loss_v_p].  Each is connected to its own student output
    only.  When some position is kept there is no fallback: the returned
    map holds these two losses. *)
Theorem pseudo_uv_losses_over_top_channels `{helpers : Helpers}
    (self : DensePoseChartLoss) (proposals : list Instances) (out : PredictorOutput)
    (pa : PackedAnnotations) (pf pu pv : tensor4)
    (est_s est_u est_v : tracked (list (list Q))) (pseudo_s pseudo_u pseudo_v : list (list Q))
    (m : LossDict) :
  let pos := pos_index_of self pa in
  let real :=
    exists lu lv,
      m !! "loss_u_p" = Some lu /\ m !! "loss_v_p" = Some lv
      /\ data lu
         = smul (vmean (pseudo_uv_terms self pseudo_s (data est_u) pseudo_u)) (w_p_points self)
      /\ data lv
         = smul (vmean (pseudo_uv_terms self pseudo_s (data est_v) pseudo_v)) (w_p_points self)
      /\ graph lu = graph (u out) /\ graph lv = graph (v out) in
  fine_segm_p pa = Some pf -> loop_inputs self pa pos (fine_segm out) pf = Ok (est_s, pseudo_s) ->
  u_p pa = Some pu -> loop_inputs self pa pos (u out) pu = Ok (est_u, pseudo_u) ->
  v_p pa = Some pv -> loop_inputs self pa pos (v out) pv = Ok (est_v, pseudo_v) ->
  loss_name self = "ce" ->
  produce_densepose_losses_unsup self proposals out pa = Ok m ->
  (m = produce_fake_densepose_losses_unsup self out \/ real)
  /\ (kept self pseudo_s <> [] -> real).
Proof.
  intros pos real Hpf Hins Hpu Hinu Hpv Hinv Hce E.
  assert (Hreal : forall st1 st2 st3,
    segm_branch self out st0 est_s pseudo_s = Ok (Continue st1) ->
    iteration self out pa pos st1 ("u_p", "u") = Ok (Continue st2) ->
    iteration self out pa pos st2 ("v_p", "v") = Ok (Continue st3) ->
    m = losses st3 -> real).
  { intros st1 st2 st3 E1 E2 E3 ->. subst real.
    rewrite (iteration_u _ _ _ _ _ _ _ _ Hpu Hinu) in E2.
    rewrite (iteration_v _ _ _ _ _ _ _ _ Hpv Hinv) in E3.
    destruct (uv_iteration_entry _ _ _ _ _ _ _ _ _ _ Hce E1 eq_refl E2)
      as (? & [= <-] & Hm2 & Hp2 & Hl2).
    assert (E1'' := E1).
    apply segm_branch_Continue in E1'' as (_ & _ & Hmask1 & Hpred1 & _).
    apply (uv_branch_loss _ _ _ _ _ _ Hce) in E3 as (pred & Hp3 & Hlen3 & _ & [= ->]).
    rewrite Hp2, Hpred1 in Hp3. injection Hp3 as <-. simpl.
    rewrite Hm2 in Hlen3 |- *.
    rewrite (pseudo_uv_terms_eq self pseudo_s (data est_v) pseudo_v (mask st1) Hmask1).
    2:{ intros Hg. destruct (Hlen3 Hg) as (m & Hm & He & Hps).
        rewrite Hmask1, Hg in Hm. injection Hm as <-. done. }
    rewrite Hl2. unfold update. eexists _, _.
    split; [rewrite lookup_union_r by done; by apply lookup_union_Some_l|].
    split; [by apply lookup_union_Some_l|].
    simpl.
    rewrite (loop_inputs_graph _ _ _ _ _ _ _ Hinu), (loop_inputs_graph _ _ _ _ _ _ _ Hinv).
    done. }
  split.
  - apply unsup_cases in E as [-> | (st1 & st2 & st3 & E1 & E2 & E3 & Hm)]; [by left|].
    right. fold pos in E1, E2, E3.
    rewrite (iteration_segm _ _ _ _ _ _ _ _ Hpf Hins) in E1.
    by apply (Hreal st1 st2 st3).
  - intros Hkept.
    destruct (unsup_completes self proposals out pa pf est_s pseudo_s m Hpf Hins)
      as (st1 & st2 & st3 & E1 & E2 & E3 & Hm);
      [congruence|congruence|by apply kept_nonempty|exact E|].
    by apply (Hreal st1 st2 st3).
Qed.

(** ** The graphs of the real losses *)

Section Graphs.
Context `{helpers : Helpers}.

Lemma uv_graphs self proposals out pa interpolator fg corrections a k l :
  produce_densepose_losses_uv self proposals out pa interpolator fg corrections = Ok a ->
  a !! k = Some l ->
  (k = "loss_densepose_U" /\ graph l = graph (u out))
  \/ (k = "loss_densepose_V" /\ graph l = graph (v out))
  \/ exists crt, corrections = Some crt
       /\ ((k = "loss_correction_U" /\ graph l = graph (crt_u crt))
           \/ (k = "loss_correction_V" /\ graph l = graph (crt_v crt))).
Proof.
  intros E Hk. pose proof (elem_of_dom_2 _ _ _ Hk) as Hdom.
  rewrite (uv_dom _ _ _ _ _ _ _ _ E) in Hdom.
  apply uv_inv in E as (_ & HU & HV & Hcrt).
  destruct corrections as [crt|].
  - destruct Hcrt as (_ & HcU & HcV). set_unfold in Hdom.
    destruct Hdom as [[-> | ->] | [-> | ->]].
    + left. rewrite HU in Hk. injection Hk as <-. split; [done|]. simpl.
      apply (right_id_L ∅ (∪)).
    + right. left. rewrite HV in Hk. injection Hk as <-. split; [done|]. simpl.
      apply (right_id_L ∅ (∪)).
    + right. right. exists crt. split; [done|]. left.
      rewrite HcU in Hk. injection Hk as <-. split; [done|]. simpl.
      apply (right_id_L ∅ (∪)).
    + right. right. exists crt. split; [done|]. right.
      rewrite HcV in Hk. injection Hk as <-. split; [done|]. simpl.
      apply (right_id_L ∅ (∪)).
  - set_unfold in Hdom. destruct Hdom as [[-> | ->] | []].
    + left. rewrite HU in Hk. injection Hk as <-. split; [done|]. simpl.
      apply (right_id_L ∅ (∪)).
    + right. left. rewrite HV in Hk. injection Hk as <-. split; [done|]. simpl.
      apply (right_id_L ∅ (∪)).
Qed.

Lemma segm_graphs self proposals out pa interpolator fg corrections b k l :
  produce_densepose_losses_segm self proposals out pa interpolator fg corrections = Ok b ->
  b !! k = Some l ->
  (k = "loss_densepose_I" /\ graph l = graph (fine_segm out))
  \/ k = "loss_densepose_S"
  \/ exists crt, corrections = Some crt
       /\ k = "loss_correction_I" /\ graph l = graph (crt_fine_segm crt).
Proof.
  intros E Hk. pose proof (elem_of_dom_2 _ _ _ Hk) as Hdom.
  rewrite (segm_dom _ _ _ _ _ _ _ _ E) in Hdom.
  apply segm_inv in E as (_ & HI & _ & Hcrt).
  destruct corrections as [crt|].
  - destruct Hcrt as (_ & HcI). set_unfold in Hdom.
    destruct Hdom as [[-> | ->] | ->].
    + left. rewrite HI in Hk. by injection Hk as <-.
    + by right; left.
    + right. right. exists crt. split; [done|]. split; [done|].
      rewrite HcI in Hk. by injection Hk as <-.
  - set_unfold in Hdom. destruct Hdom as [[-> | ->] | []].
    + left. rewrite HI in Hk. by injection Hk as <-.
    + by right; left.
Qed.

(** The pseudo branch under the plain cross entropy: the fake losses, or
    three entries, each connected to its own student output. *)
Lemma unsup_entries self proposals out pa c :
  loss_name self = "ce" ->
  produce_densepose_losses_unsup self proposals out pa = Ok c ->
  c = produce_fake_densepose_losses_unsup self out
  \/ exists ls lu lv,
       c = <["loss_v_p" := lv]> (<["loss_u_p" := lu]> (<["loss_unsup_segm" := ls]> ∅))
       /\ graph ls = graph (fine_segm out)
       /\ graph lu = graph (u out) /\ graph lv = graph (v out).
Proof.
  intros Hce E.
  apply unsup_cases in E as [-> | (st1 & st2 & st3 & E1 & E2 & E3 & ->)]; [by left|].
  right.
  apply iteration_segm_Continue in E1 as (p1 & est1 & ps1 & _ & Hin1 & E1).
  apply iteration_u_Continue in E2 as (p2 & est2 & ps2 & _ & Hin2 & E2).
  apply iteration_v_Continue in E3 as (p3 & est3 & ps3 & _ & Hin3 & E3).
  apply (segm_branch_loss _ _ _ _ _ _ Hce) in E1.
  apply (uv_branch_loss _ _ _ _ _ _ Hce) in E2 as (? & _ & _ & _ & [= ->]).
  apply (uv_branch_loss _ _ _ _ _ _ Hce) in E3 as (? & _ & _ & _ & [= ->]).
  simpl. rewrite E1. unfold update, st0. simpl.
  rewrite (right_id_L ∅ (∪)), !insert_empty, <- !insert_union_singleton_l.
  eexists _, _, _. split; [reflexivity|]. simpl.
  by rewrite (loop_inputs_graph _ _ _ _ _ _ _ Hin1), (loop_inputs_graph _ _ _ _ _ _ _ Hin2),
    (loop_inputs_graph _ _ _ _ _ _ _ Hin3).
Qed.

Lemma unsup_graphs self proposals out pa c k l :
  loss_name self = "ce" ->
  produce_densepose_losses_unsup self proposals out pa = Ok c ->
  c !! k = Some l ->
  (k = "loss_unsup_segm" /\ graph l = graph (fine_segm out))
  \/ (k = "loss_u_p" /\ graph l = graph (u out))
  \/ (k = "loss_v_p" /\ graph l = graph (v out)).
Proof.
  intros Hce E Hk.
  apply (unsup_entries _ _ _ _ _ Hce) in E as [-> | (ls & lu & lv & -> & Hs & Hu & Hv)].
  - unfold produce_fake_densepose_losses_unsup in Hk.
    apply lookup_insert_Some in Hk as [[<- <-] | [_ Hk]]; [by right; right|].
    apply lookup_insert_Some in Hk as [[<- <-] | [_ Hk]]; [by right; left|].
    apply lookup_insert_Some in Hk as [[<- <-] | [_ Hk]]; [by left|].
    by rewrite lookup_empty in Hk.
  - apply lookup_insert_Some in Hk as [[<- <-] | [_ Hk]]; [by right; right|].
    apply lookup_insert_Some in Hk as [[<- <-] | [_ Hk]]; [by right; left|].
    apply lookup_insert_Some in Hk as [[<- <-] | [_ Hk]]; [by left|].
    by rewrite lookup_empty in Hk.
Qed.

End Graphs.

(** X4. Under the plain cross entropy every loss that [__call__] returns,
    whether a real one or a fake one, is connected to the same tensor: for
    every key but [loss_densepose_S] (which belongs to the coarse
    segmentation module) the graph of the returned entry is the graph of the
    fake entry of that key. *)
Theorem call_graphs_as_fake `{helpers : Helpers}
    (self : DensePoseChartLoss) (proposals : list Instances) (out : PredictorOutput)
    (corrections : option CorrectorPredictorOutput) (m : LossDict)
    (k : string) (l : tracked scalar) :
  loss_name self = "ce" ->
  call self proposals out corrections = Ok m ->
  k <> "loss_densepose_S" ->
  m !! k = Some l ->
  exists lf,
    produce_fake_densepose_losses self out corrections !! k = Some lf
    /\ graph l = graph lf.
Proof.
  intros Hce E HS Hk.
  apply call_cases in E
    as [-> | (pa & fg & a & b & c & _ & _ & _ & Ea & Eb & Ec & _ & _ & _ & Hm)];
    [by exists l|].
  apply Hm in Hk as [Hk | [Hk | Hk]].
  - destruct (uv_graphs _ _ _ _ _ _ _ _ _ _ Ea Hk)
      as [[-> Hg] | [[-> Hg] | (crt & -> & [[-> Hg] | [-> Hg]])]];
      try destruct corrections;
      (eexists; split; [reflexivity|]; by rewrite Hg).
  - destruct (segm_graphs _ _ _ _ _ _ _ _ _ _ Eb Hk)
      as [[-> Hg] | [-> | (crt & -> & -> & Hg)]]; [|done|];
      try destruct corrections;
      (eexists; split; [reflexivity|]; by rewrite Hg).
  - destruct (unsup_graphs _ _ _ _ _ _ _ Hce Ec Hk)
      as [[-> Hg] | [[-> Hg] | [-> Hg]]];
      destruct corrections;
      (eexists; split; [reflexivity|]; by rewrite Hg).
Qed.

(** ** Configurations under which the pseudo branch computes nothing *)

Section Degenerate.
Context `{helpers : Helpers}.

Lemma segm_branch_width self out st est pseudo st' :
  segm_branch self out st est pseudo = Ok (Continue st') ->
  (0 < uv_loss_channels self `min` n_channels self)%nat.
Proof.
  unfold segm_branch. destruct (gating self).
  - case_decide; [discriminate|]. intros E. do 4 bind_inv E.
    by apply column_Ok in Ea2 as [? _].
  - intros E. bind_inv E. by apply column_Ok in Ea as [? _].
Qed.

Lemma gather_top_width (k width n : nat) (rows : list (list Q)) (pred : list (list nat))
    (l : list Q) :
  gather_top k width rows n pred = Ok l -> (k <= width)%nat.
Proof.
  unfold gather_top. case_decide as Hk; [discriminate|].
  intros E. bind_inv E. apply mapM_result_Ok in Ea.
  destruct k as [|k]; [done|].
  assert (Hlast : seq 0 (S k) !! k = Some k) by (by apply lookup_seq_lt; lia).
  destruct (Forall2_lookup_l _ _ _ _ _ Ea Hlast) as (part & _ & Hpart).
  simpl in Hpart. bind_inv Hpart. apply column_Ok in Ea0 as [? _]. lia.
Qed.

Lemma uv_branch_width self p_key st est pseudo s :
  uv_branch self p_key st est pseudo = Ok s ->
  (uv_loss_channels self <= uv_loss_channels self `min` n_channels self)%nat.
Proof.
  unfold uv_branch. intros E. bind_inv E. destruct a as [pseudo' est'].
  destruct (pred_index st); [|discriminate]. bind_inv E.
  by apply gather_top_width in Ea0.
Qed.

(** Without a gate the first iteration under "sce" always ends in an
    exception. *)
Lemma segm_branch_sce_no_gate self out st est pseudo :
  loss_name self = "sce" -> gating self = false -> mask st = None ->
  exists e, segm_branch self out st est pseudo = Raise e.
Proof.
  intros Hsce Hg Hm. unfold segm_branch. rewrite Hg.
  destruct (column _ 0 _) as [top|e]; simpl; [|eauto].
  destruct (tbind _ est) as [loss|e]; simpl; [|eauto].
  rewrite decide_True by done. rewrite Hm. eauto.
Qed.

End Degenerate.

(** X5. With [loss_name == "sce"] and a threshold that switches the gate off
    ([pseudo_threshold >= 1]), the pseudo-label branch raises whenever
    [fine_segm_p] is present: the symmetric term multiplies by the mask,
    which is still [None]. *)
Theorem sce_without_gate_raises `{helpers : Helpers}
    (self : DensePoseChartLoss) (proposals : list Instances) (out : PredictorOutput)
    (pa : PackedAnnotations) (p : tensor4) :
  loss_name self = "sce" ->
  (1 <= pseudo_threshold self)%Q ->
  fine_segm_p pa = Some p ->
  exists e, produce_densepose_losses_unsup self proposals out pa = Raise e.
Proof.
  intros Hsce Hge Hp. apply gating_false in Hge.
  unfold produce_densepose_losses_unsup. simpl zip. unfold for_loop.
  unfold iteration at 1. simpl. rewrite Hp. simpl.
  destruct (loop_inputs _ _ _ _ _) as [[est pseudo]|e]; simpl; [|eauto].
  destruct (segm_branch_sce_no_gate self out st0 est pseudo Hsce Hge eq_refl) as [e ->].
  simpl. eauto.
Qed.

(** X6. With [loss_name == "sce"] the pseudo-label branch never stores a
    computed loss: whatever it returns is the fake pseudo losses.  The
    symmetric term multiplies by [mask], which is [None] without the gate,
    and with the gate it takes [1 - mask] of the boolean mask, which torch
    refuses; the branch can only return before that line. *)
Theorem sce_returns_only_fake_losses `{helpers : Helpers}
    (self : DensePoseChartLoss) (proposals : list Instances) (out : PredictorOutput)
    (pa : PackedAnnotations) (m : LossDict) :
  loss_name self = "sce" ->
  produce_densepose_losses_unsup self proposals out pa = Ok m ->
  m = produce_fake_densepose_losses_unsup self out.
Proof.
  intros Hsce E.
  apply unsup_cases in E as [-> | (st1 & _ & _ & E1 & _)]; [done|].
  apply iteration_segm_Continue in E1 as (p & est & pseudo & _ & _ & E1).
  by apply segm_branch_Continue in E1 as [Hne _].
Qed.

(** X7. When [uv_loss_channels] is zero or exceeds [n_channels], the
    pseudo-label branch computes no loss under any loss name: a returned map
    is the fake pseudo losses (column 0 of an empty ranking, or a rank
    beyond the channels, is an index error). *)
Theorem channel_count_out_of_range_gives_no_loss `{helpers : Helpers}
    (self : DensePoseChartLoss) (proposals : list Instances) (out : PredictorOutput)
    (pa : PackedAnnotations) (m : LossDict) :
  uv_loss_channels self = 0%nat \/ (n_channels self < uv_loss_channels self)%nat ->
  produce_densepose_losses_unsup self proposals out pa = Ok m ->
  m = produce_fake_densepose_losses_unsup self out.
Proof.
  intros Hk E.
  apply unsup_cases in E as [-> | (st1 & st2 & _ & E1 & E2 & _)]; [done|].
  apply iteration_segm_Continue in E1 as (p & est & pseudo & _ & _ & E1).
  apply iteration_u_Continue in E2 as (p2 & est2 & pseudo2 & _ & _ & E2).
  apply segm_branch_width in E1. apply uv_branch_width in E2. lia.
Qed.

(** ** Sign of the regression losses *)

Section Sign.
Context `{helpers : Helpers}.

Lemma smooth_l1_nonneg (x y : Q) : (0 <= smooth_l1 x y)%Q.
Proof.
  unfold smooth_l1. pose proof (Qabs_nonneg (x - y)) as Hd.
  destruct (Qle_bool 1 (Qabs (x - y))) eqn:E.
  - apply Qle_bool_iff in E. lra.
  - rewrite <- Qmult_assoc. apply Qmult_le_0_compat; [lra|].
    by apply Qmult_le_0_compat.
Qed.

Lemma smooth_l1_zero (x y : Q) : (smooth_l1 x y == 0)%Q <-> (x == y)%Q.
Proof.
  unfold smooth_l1. pose proof (Qabs_nonneg (x - y)) as Hd. split.
  - destruct (Qle_bool 1 (Qabs (x - y))) eqn:E.
    + apply Qle_bool_iff in E. intros H0. lra.
    + intros H0.
      assert (Hz : (Qabs (x - y) == 0)%Q).
      { destruct (Qeq_dec (Qabs (x - y)) 0) as [|Hne]; [done|]. exfalso.
        assert (Hpos : (0 < Qabs (x - y))%Q) by (apply Qle_lteq in Hd as [|Heq]; [done|];
          exfalso; apply Hne; by symmetry).
        assert (Hsq : (0 < Qabs (x - y) * Qabs (x - y))%Q)
          by (by apply Qmult_lt_0_compat).
        rewrite <- Qmult_assoc in H0. lra. }
      assert (Hle : (Qabs (x - y) <= 0)%Q) by lra.
      apply Qabs_Qle_condition in Hle. lra.
  - intros Hxy.
    assert (Hz : (Qabs (x - y) == 0)%Q).
    { setoid_replace (x - y)%Q with 0%Q using relation Qeq by lra. reflexivity. }
    destruct (Qle_bool 1 (Qabs (x - y))) eqn:E.
    + apply Qle_bool_iff in E. lra.
    + rewrite Hz. ring.
Qed.

Lemma Qsum_terms_nonneg {A} (f : A -> Q) (pts : list A) :
  (forall i, 0 <= f i)%Q -> (0 <= Qsum (f <$> pts))%Q.
Proof.
  intros Hf. induction pts as [|i pts IH]; csimpl; [lra|].
  specialize (Hf i). lra.
Qed.

Lemma Qsum_terms_zero {A} (f : A -> Q) (pts : list A) :
  (forall i, 0 <= f i)%Q ->
  (Qsum (f <$> pts) == 0)%Q <-> forall i, i ∈ pts -> (f i == 0)%Q.
Proof.
  intros Hf. induction pts as [|i pts IH]; csimpl.
  - split; [intros _ i Hi; by apply elem_of_nil in Hi | reflexivity].
  - pose proof (Hf i) as Hi. pose proof (Qsum_terms_nonneg f pts Hf) as Hs. split.
    + intros H0 j Hj. apply elem_of_cons in Hj as [-> | Hj].
      * lra.
      * apply IH; [lra|done].
    + intros Hall.
      assert (H1 : (f i == 0)%Q) by (apply Hall, list_elem_of_here).
      assert (H2 : (Qsum (f <$> pts) == 0)%Q)
        by (apply IH; intros j Hj; by apply Hall, list_elem_of_further).
      lra.
Qed.

Lemma scaled_sum_zero {A} (f : A -> Q) (pts : list A) (w : Q) :
  (forall i, 0 <= f i)%Q -> (0 < w)%Q ->
  (0 <= Qsum (f <$> pts) * w)%Q
  /\ ((Qsum (f <$> pts) * w == 0)%Q <-> forall i, i ∈ pts -> (f i == 0)%Q).
Proof.
  intros Hf Hw. pose proof (Qsum_terms_nonneg f pts Hf) as Hs. split.
  - apply Qmult_le_0_compat; lra.
  - rewrite <- (Qsum_terms_zero f pts Hf). split.
    + intros H0. apply Qmult_integral in H0 as [|]; [done|lra].
    + intros ->. ring.
Qed.

End Sign.

(** X8. With a positive [w_points] the regression losses are non-negative,
    and [loss_densepose_U] is zero exactly when the estimate extracted at
    every valid foreground point equals its ground truth; the same holds for
    [loss_densepose_V]. *)
Theorem regression_loss_zero_iff_exact `{helpers : Helpers}
    (self : DensePoseChartLoss) (proposals : list Instances) (out : PredictorOutput)
    (pa : PackedAnnotations) (interpolator : Interpolator) (fg : list bool)
    (corrections : option CorrectorPredictorOutput) (m : LossDict) :
  let pts t := extract_at_points interpolator (data t) in
  (0 < w_points self)%Q ->
  produce_densepose_losses_uv self proposals out pa interpolator fg corrections = Ok m ->
  exists lu lv qu qv,
    m !! "loss_densepose_U" = Some lu /\ data lu = Fin qu
    /\ m !! "loss_densepose_V" = Some lv /\ data lv = Fin qv
    /\ (0 <= qu)%Q /\ (0 <= qv)%Q
    /\ ((qu == 0)%Q
        <-> forall i, i ∈ valid_points fg -> (nth i (pts (u out)) 0 == nth i (u_gt pa) 0)%Q)
    /\ ((qv == 0)%Q
        <-> forall i, i ∈ valid_points fg -> (nth i (pts (v out)) 0 == nth i (v_gt pa) 0)%Q).
Proof.
  intros pts Hw E. apply uv_inv in E as (_ & HU & HV & _).
  eexists _, _, _, _. split; [exact HU|]. split; [reflexivity|].
  split; [exact HV|]. split; [reflexivity|].
  destruct (scaled_sum_zero
              (fun i => smooth_l1 (nth i (pts (u out)) 0%Q) (nth i (u_gt pa) 0%Q))
              (valid_points fg) (w_points self)) as [Hu0 Hu1];
    [intros; apply smooth_l1_nonneg | done |].
  destruct (scaled_sum_zero
              (fun i => smooth_l1 (nth i (pts (v out)) 0%Q) (nth i (v_gt pa) 0%Q))
              (valid_points fg) (w_points self)) as [Hv0 Hv1];
    [intros; apply smooth_l1_nonneg | done |].
  split; [exact Hu0|]. split; [exact Hv0|]. split.
  - split.
    + intros H0 i Hi. apply smooth_l1_zero. by apply (proj1 Hu1).
    + intros H. apply (proj2 Hu1). intros i Hi. apply smooth_l1_zero. by apply H.
  - split.
    + intros H0 i Hi. apply smooth_l1_zero. by apply (proj1 Hv1).
    + intros H. apply (proj2 Hv1). intros i Hi. apply smooth_l1_zero. by apply H.
Qed.

(** X9. With corrections and a positive [w_crt_points], [loss_correction_U]
    is non-negative and is zero exactly when, at every valid foreground
    point, the corrected value equals the residual
    [u_gt - clamp(u_est, 0, 1)]; the same holds for [loss_correction_V]. *)
Theorem correction_loss_zero_iff_residual `{helpers : Helpers}
    (self : DensePoseChartLoss) (proposals : list Instances) (out : PredictorOutput)
    (pa : PackedAnnotations) (interpolator : Interpolator) (fg : list bool)
    (crt : CorrectorPredictorOutput) (m : LossDict) :
  let pts t := extract_at_points interpolator (data t) in
  (0 < w_crt_points self)%Q ->
  produce_densepose_losses_uv self proposals out pa interpolator fg (Some crt) = Ok m ->
  exists lu lv qu qv,
    m !! "loss_correction_U" = Some lu /\ data lu = Fin qu
    /\ m !! "loss_correction_V" = Some lv /\ data lv = Fin qv
    /\ (0 <= qu)%Q /\ (0 <= qv)%Q
    /\ ((qu == 0)%Q
        <-> forall i, i ∈ valid_points fg ->
              (nth i (pts (crt_u crt)) 0
               == nth i (u_gt pa) 0 - clamp 0 1 (nth i (pts (u out)) 0))%Q)
    /\ ((qv == 0)%Q
        <-> forall i, i ∈ valid_points fg ->
              (nth i (pts (crt_v crt)) 0
               == nth i (v_gt pa) 0 - clamp 0 1 (nth i (pts (v out)) 0))%Q).
Proof.
  intros pts Hw E. apply uv_inv in E as (_ & _ & _ & _ & HU & HV).
  eexists _, _, _, _. split; [exact HU|]. split; [reflexivity|].
  split; [exact HV|]. split; [reflexivity|].
  destruct (scaled_sum_zero
              (fun i => smooth_l1 (nth i (pts (crt_u crt)) 0%Q)
                          (nth i (u_gt pa) 0%Q - clamp 0 1 (nth i (pts (u out)) 0%Q))%Q)
              (valid_points fg) (w_crt_points self)) as [Hu0 Hu1];
    [intros; apply smooth_l1_nonneg | done |].
  destruct (scaled_sum_zero
              (fun i => smooth_l1 (nth i (pts (crt_v crt)) 0%Q)
                          (nth i (v_gt pa) 0%Q - clamp 0 1 (nth i (pts (v out)) 0%Q))%Q)
              (valid_points fg) (w_crt_points self)) as [Hv0 Hv1];
    [intros; apply smooth_l1_nonneg | done |].
  split; [exact Hu0|]. split; [exact Hv0|]. split.
  - split.
    + intros H0 i Hi. apply smooth_l1_zero. by apply (proj1 Hu1).
    + intros H. apply (proj2 Hu1). intros i Hi. apply smooth_l1_zero. by apply H.
  - split.
    + intros H0 i Hi. apply smooth_l1_zero. by apply (proj1 Hv1).
    + intros H. apply (proj2 Hv1). intros i Hi. apply smooth_l1_zero. by apply H.
Qed.

(** ** A gate that keeps everything *)

Section FullGate.
Context `{helpers : Helpers}.

Lemma confidence_mask_all self (pseudo : list (list Q)) :
  (forall row, row ∈ pseudo -> (pseudo_threshold self <= row_max row)%Q) ->
  confidence_mask self pseudo = replicate (length pseudo) true.
Proof.
  intros Hall. unfold confidence_mask. induction pseudo as [|row pseudo IH]; [done|].
  simpl. f_equal.
  - apply Qle_bool_iff, Hall, list_elem_of_here.
  - apply IH. intros r Hr. by apply Hall, list_elem_of_further.
Qed.

Lemma kept_all self (pseudo : list (list Q)) :
  (forall row, row ∈ pseudo -> (pseudo_threshold self <= row_max row)%Q) ->
  kept self pseudo = seq 0 (length pseudo).
Proof.
  intros Hall. unfold kept. destruct (gating self); [|done].
  by rewrite confidence_mask_all, valid_points_all.
Qed.

End FullGate.

(** X10. A threshold that no confidence falls below filters nothing: under
    the plain cross entropy, when every pseudo confidence is at least
    [pseudo_threshold], a returned map that is not the fake one holds in
    [loss_unsup_segm] the mean cross-entropy term over all foreground
    positions, as with the gate switched off; and with the three pseudo
    tensors present and some foreground position the returned map does hold
    it.  (The confidence is the raw pseudo score, so a threshold of zero is
    such a threshold only when the scores are not negative.) *)
Theorem gate_under_every_confidence_keeps_all `{helpers : Helpers}
    (self : DensePoseChartLoss) (proposals : list Instances) (out : PredictorOutput)
    (pa : PackedAnnotations) (p : tensor4)
    (est : tracked (list (list Q))) (pseudo : list (list Q)) (m : LossDict) :
  let over_all :=
    exists a,
      m !! "loss_unsup_segm" = Some a
      /\ data a
         = smul (vmean (pseudo_segm_term self (data est) pseudo <$> seq 0 (length pseudo)))
             (w_p_segm self) in
  fine_segm_p pa = Some p ->
  loop_inputs self pa (pos_index_of self pa) (fine_segm out) p = Ok (est, pseudo) ->
  loss_name self = "ce" ->
  (forall row, row ∈ pseudo -> (pseudo_threshold self <= row_max row)%Q) ->
  produce_densepose_losses_unsup self proposals out pa = Ok m ->
  (m = produce_fake_densepose_losses_unsup self out \/ over_all)
  /\ (u_p pa <> None -> v_p pa <> None -> pseudo <> [] -> over_all).
Proof.
  intros over_all Hp Hin Hce Hall E. subst over_all. split.
  - destruct (unsup_segm_entry _ _ _ _ _ _ _ _ Hp Hin Hce E) as [-> | (a & Ha & Hd)];
      [by left|].
    right. exists a. split; [done|]. by rewrite <- (kept_all self pseudo Hall).
  - intros Hu Hv Hne.
    assert (Hkept : kept self pseudo <> []).
    { rewrite (kept_all self pseudo Hall). by destruct pseudo. }
    eexists. split.
    + exact (unsup_segm_value _ _ _ _ _ _ _ _ Hp Hin Hu Hv (kept_nonempty _ _ Hkept) Hce E).
    + unfold scale, tmap. cbn [data]. by rewrite (kept_all self pseudo Hall).
Qed.

(** ** Class indices of the segmentation losses *)

Section Ranges.
Context `{helpers : Helpers}.

Lemma cross_entropy_none_range (rows : list (list Q)) (target : list nat) (l : list Q)
    (i : nat) (r : list Q) (y : nat) :
  cross_entropy_none rows target = Ok l ->
  rows !! i = Some r -> target !! i = Some y -> (y < length r)%nat.
Proof.
  unfold cross_entropy_none. case_decide; [|discriminate].
  destruct (forallb _ _) eqn:Hall; [|discriminate]. intros _ Hr Hy.
  rewrite forallb_forall in Hall.
  apply Nat.ltb_lt. apply (Hall (r, y)).
  apply list_elem_of_In. apply (list_elem_of_lookup_2 _ i).
  by rewrite lookup_zip_with, Hr, Hy.
Qed.

Lemma segm_ranges self proposals out pa interpolator fg corrections m i :
  produce_densepose_losses_segm self proposals out pa interpolator fg corrections = Ok m ->
  let jv := j_valid interpolator in
  let rows := data (extract_all interpolator (fine_segm out)) in
  let labels := fine_segm_labels_gt pa in
  i ∈ valid_points jv ->
  (nth i labels 0 < length (nth i rows []))%nat
  /\ match corrections with
     | None => True
     | Some crt =>
         (correction_target self rows labels i
          < length (nth i (data (extract_all interpolator (crt_fine_segm crt))) []))%nat
     end.
Proof.
  intros E jv rows labels Hi. unfold produce_densepose_losses_segm in E.
  subst jv rows labels. simpl in *.
  apply list_elem_of_lookup in Hi as [j Hj].
  bind_inv E. apply index_mask_Ok in Ea as [Hl ->].
  bind_inv E. apply tindex_mask_Ok in Ea as [Hr ->].
  bind_inv E. unfold cross_entropy in Ea. apply tbind_Ok in Ea as [Ea _].
  bind_inv Ea. clear Ea. simpl in *.
  rewrite (mask_filter_nth (A:=list Q) []), (mask_filter_nth 0%nat) in Ea0, E by done.
  split.
  { eapply (cross_entropy_none_range _ _ _ j); [exact Ea0| |];
      rewrite list_lookup_fmap, Hj; reflexivity. }
  destruct corrections as [crt|]; [|done].
  bind_inv E.
  match goal with
  | H : tindex_mask _ _ = Ok _ |- _ => apply tindex_mask_Ok in H as [Hc ->]
  end.
  bind_inv E.
  match goal with
  | H : tbind _ _ = Ok _ |- _ => apply tbind_Ok in H as [Hce _]
  end.
  simpl in Hce, Hc.
  destruct (correction_terms_at_points self
              (data (extract_all interpolator (crt_fine_segm crt)))
              (data (extract_all interpolator (fine_segm out)))
              (fine_segm_labels_gt pa) (valid_points (j_valid interpolator))) as [Ht _].
  simpl in Ht. rewrite Ht in Hce.
  rewrite (mask_filter_nth (A:=list Q) []) in Hce by done.
  eapply (cross_entropy_none_range _ _ _ j); [exact Hce| |];
    rewrite list_lookup_fmap, Hj; reflexivity.
Qed.

End Ranges.

(** X11. Whenever the segmentation loss returns with corrections, the
    correction head has a score for the abstain class: at every valid point
    whose base prediction is right, the correction score vector has more
    than [n_channels] entries (one class more than the base head), and at
    every valid point the label indexes the base score vector. *)
Theorem correction_head_has_abstain_class `{helpers : Helpers}
    (self : DensePoseChartLoss) (proposals : list Instances) (out : PredictorOutput)
    (pa : PackedAnnotations) (interpolator : Interpolator) (fg : list bool)
    (crt : CorrectorPredictorOutput) (m : LossDict) (i : nat) :
  let jv := j_valid interpolator in
  let rows := data (extract_all interpolator (fine_segm out)) in
  let crt_rows := data (extract_all interpolator (crt_fine_segm crt)) in
  let labels := fine_segm_labels_gt pa in
  produce_densepose_losses_segm self proposals out pa interpolator fg (Some crt) = Ok m ->
  jv !! i = Some true ->
  (nth i labels 0 < length (nth i rows []))%nat
  /\ (argmax (nth i rows []) = nth i labels 0%nat ->
      (n_channels self < length (nth i crt_rows []))%nat)
  /\ (argmax (nth i rows []) <> nth i labels 0%nat ->
      (nth i labels 0 < length (nth i crt_rows []))%nat).
Proof.
  intros jv rows crt_rows labels E Hi. apply valid_points_spec in Hi.
  destruct (segm_ranges _ _ _ _ _ _ _ _ i E Hi) as [Hl Hc].
  split; [exact Hl|]. unfold correction_target, agrees in Hc. fold rows labels in Hc.
  split; intros Hag.
  - apply Nat.eqb_eq in Hag. by rewrite Hag in Hc.
  - apply Nat.eqb_neq in Hag. by rewrite Hag in Hc.
Qed.

(** ** Shapes in the pseudo-label branch *)

Section Shapes.
Context `{helpers : Helpers}.

Lemma chunks_aux_rows (n fuel : nat) (v : list Q) :
  n <> 0%nat -> (length v `mod` n = 0)%nat -> (length v <= fuel)%nat ->
  Forall (fun r => length r = n) (chunks_aux fuel n v).
Proof.
  intros Hn. revert v. induction fuel as [|fuel IH]; intros v Hmod Hlen; [constructor|].
  simpl. destruct v as [|x v]; [constructor|].
  apply Nat.Div0.mod_divides in Hmod as [c Hc].
  assert (Hc1 : (1 <= c)%nat) by (destruct c; [simpl in Hc; lia | lia]).
  assert (Hge : (n <= length (x :: v))%nat) by (rewrite Hc; nia).
  constructor.
  - rewrite length_take. lia.
  - apply IH.
    + rewrite length_drop. apply Nat.Div0.mod_divides. exists (c - 1)%nat.
      rewrite Hc. nia.
    + rewrite length_drop. simpl in *. lia.
Qed.

Lemma reshape_rows_Ok (n : nat) (v : list Q) (rows : list (list Q)) :
  reshape_rows n v = Ok rows -> n <> 0%nat /\ Forall (fun r => length r = n) rows.
Proof.
  unfold reshape_rows. case_decide as Hn; [discriminate|].
  case_decide as Hmod; [|discriminate]. intros [= <-].
  split; [done|]. by apply chunks_aux_rows.
Qed.

Lemma Forall_mask_filter {A} (P : A -> Prop) (m : list bool) (xs : list A) :
  Forall P xs -> Forall P (mask_filter m xs).
Proof.
  intros Hxs. revert m. induction Hxs as [|x xs Hx _ IH]; intros [|b m]; simpl;
    try constructor.
  destruct b; [constructor; [done|]|]; apply IH.
Qed.

Lemma pixel_rows_Ok self (t : tensor4) (pos : list bool) (rows : list (list Q)) :
  pixel_rows self t pos = Ok rows ->
  n_channels self <> 0%nat
  /\ Forall (fun r => length r = n_channels self) rows
  /\ length rows = length (valid_points pos).
Proof.
  unfold pixel_rows. intros E. bind_inv E.
  apply reshape_rows_Ok in Ea as [Hn Hall].
  apply index_mask_Ok in E as [Hlen ->].
  split; [done|]. split; [by apply Forall_mask_filter|]. by apply mask_filter_length.
Qed.

(** The rows that enter an iteration: as many student rows as pseudo rows,
    each with [n_channels] entries. *)
Lemma loop_inputs_shape self pa pos e p est pseudo :
  loop_inputs self pa pos e p = Ok (est, pseudo) ->
  n_channels self <> 0%nat
  /\ Forall (fun r => length r = n_channels self) (data est)
  /\ Forall (fun r => length r = n_channels self) pseudo
  /\ length (data est) = length (valid_points pos)
  /\ length pseudo = length (valid_points pos).
Proof.
  unfold loop_inputs. intros E.
  apply bind_Ok in E as (est' & Hest & E). apply tbind_Ok in Hest as [Hest _].
  apply bind_Ok in Hest as (sel & _ & Hest).
  apply pixel_rows_Ok in Hest as (Hn & He & Hle).
  apply bind_Ok in E as (pseudo' & Hps & E).
  apply pixel_rows_Ok in Hps as (_ & Hp & Hlp).
  injection E as <- <-. done.
Qed.

Lemma insert_desc_Forall (tie : nat -> nat -> bool) (P : nat * Q -> Prop)
    (p : nat * Q) (l : list (nat * Q)) :
  P p -> Forall P l -> Forall P (insert_desc tie p l).
Proof.
  intros Hp Hl. induction Hl as [|q l Hq Hl IH]; simpl; [by repeat constructor|].
  destruct (before tie p q); by repeat constructor.
Qed.

Lemma insert_desc_length (tie : nat -> nat -> bool) (p : nat * Q) (l : list (nat * Q)) :
  length (insert_desc tie p l) = S (length l).
Proof.
  induction l as [|q l IH]; simpl; [done|].
  destruct (before tie p q); simpl; by rewrite ?IH.
Qed.

Lemma sorted_insert_Forall (tie : nat -> nat -> bool) (P : nat * Q -> Prop)
    (l : list (nat * Q)) :
  Forall P l -> Forall P (foldr (insert_desc tie) [] l).
Proof.
  induction 1 as [|p l Hp _ IH]; simpl; [constructor|]. by apply insert_desc_Forall.
Qed.

Lemma sorted_insert_length (tie : nat -> nat -> bool) (l : list (nat * Q)) :
  length (foldr (insert_desc tie) [] l) = length l.
Proof.
  induction l as [|p l IH]; simpl; [done|]. by rewrite insert_desc_length, IH.
Qed.

(** The ranking of a row lists positions of the row, one per entry,
    whatever the order of equal values. *)
Lemma argsort_desc_range (tie : nat -> nat -> bool) (row : list Q) :
  length (argsort_desc tie row) = length row
  /\ Forall (fun c => (c < length row)%nat) (argsort_desc tie row).
Proof.
  unfold argsort_desc. split.
  - by rewrite length_fmap, sorted_insert_length, length_imap.
  - apply Forall_fmap.
    apply (sorted_insert_Forall tie (fun q => (q.1 < length row)%nat)).
    apply Forall_lookup. intros i q Hq. rewrite list_lookup_imap in Hq.
    destruct (row !! i) as [x|] eqn:Hx; [|discriminate]. injection Hq as <-. simpl.
    by apply lookup_lt_Some in Hx.
Qed.

(** Every rank below the number of kept channels names a channel of the
    row. *)
Lemma top_channel_range self (tie : nat -> nat -> bool) (row : list Q) (i : nat) :
  (i < uv_loss_channels self `min` length row)%nat ->
  (nth i (take (uv_loss_channels self) (argsort_desc tie row)) 0 < length row)%nat.
Proof.
  intros Hi. destruct (argsort_desc_range tie row) as [Hlen Hall].
  assert (Hlt : (i < length (take (uv_loss_channels self) (argsort_desc tie row)))%nat)
    by (rewrite length_take, Hlen; lia).
  apply lookup_lt_is_Some_2 in Hlt as [c Hc].
  rewrite (nth_lookup_Some _ _ _ _ Hc).
  rewrite lookup_take in Hc. case_decide; [|discriminate].
  by apply (proj1 (Forall_lookup _ _) Hall i).
Qed.

Lemma list_as_positions {A} (d : A) (l : list A) :
  l = (fun i => nth i l d) <$> seq 0 (length l).
Proof.
  rewrite <- valid_points_all, <- (mask_filter_nth d) by (by rewrite length_replicate).
  by rewrite mask_filter_all.
Qed.

Lemma nth_Forall {A} (P : A -> Prop) (l : list A) (d : A) (i : nat) :
  Forall P l -> (i < length l)%nat -> P (nth i l d).
Proof.
  intros Hl Hi. apply lookup_lt_is_Some_2 in Hi as [x Hx].
  rewrite (nth_lookup_Some _ _ _ _ Hx). by apply (proj1 (Forall_lookup _ _) Hl i).
Qed.

Lemma nth_top_k self (pseudo : list (list Q)) (j : nat) :
  (j < length pseudo)%nat ->
  nth j (top_k self pseudo) []
  = take (uv_loss_channels self)
      (argsort_desc (tie_first (nth j pseudo [])) (nth j pseudo [])).
Proof.
  intros Hj. unfold top_k.
  by apply (nth_fmap_lt (fun row => take _ (argsort_desc (tie_first row) row)) pseudo [] []).
Qed.

Lemma valid_points_lt (m : list bool) (i : nat) :
  i ∈ valid_points m -> (i < length m)%nat.
Proof. intros Hi. apply valid_points_spec in Hi. by apply lookup_lt_Some in Hi. Qed.

Lemma kept_lt self (pseudo : list (list Q)) (j : nat) :
  j ∈ kept self pseudo -> (j < length pseudo)%nat.
Proof.
  unfold kept. destruct (gating self).
  - intros Hj. apply valid_points_lt in Hj. unfold confidence_mask in Hj.
    by rewrite !length_map in Hj.
  - intros Hj. apply elem_of_seq in Hj. lia.
Qed.

(** Cutting a per-position list down to the kept positions. *)
Lemma gated_at_kept {A} (d : A) self (pseudo : list (list Q)) (l : list A) :
  length l = length pseudo ->
  gated self pseudo l = (fun j => nth j l d) <$> kept self pseudo.
Proof.
  intros Hlen. unfold gated, kept. destruct (gating self).
  - apply mask_filter_nth. unfold confidence_mask. by rewrite !length_map.
  - rewrite <- Hlen. apply list_as_positions.
Qed.

End Shapes.

(** ** The ranking of the pseudo channels *)

Section Ranking.

Lemma insert_desc_perm (tie : nat -> nat -> bool) (p : nat * Q) (l : list (nat * Q)) :
  insert_desc tie p l ≡ₚ p :: l.
Proof.
  induction l as [|q l IH]; simpl; [done|].
  destruct (before tie p q); [done|]. rewrite IH. apply Permutation_swap.
Qed.

Lemma sorted_insert_perm (tie : nat -> nat -> bool) (l : list (nat * Q)) :
  foldr (insert_desc tie) [] l ≡ₚ l.
Proof.
  induction l as [|p l IH]; simpl; [done|]. by rewrite insert_desc_perm, IH.
Qed.

Lemma positions_fst (row : list Q) :
  (imap (fun i x => (i, x)) row).*1 = seq 0 (length row).
Proof.
  rewrite fmap_imap.
  rewrite (imap_ext _ (fun j _ => j)) by done.
  by rewrite (imap_seq_0 row (fun j => j)), list_fmap_id.
Qed.

Lemma argsort_desc_perm (tie : nat -> nat -> bool) (row : list Q) :
  argsort_desc tie row ≡ₚ seq 0 (length row).
Proof.
  unfold argsort_desc. by rewrite sorted_insert_perm, positions_fst.
Qed.

(** By decreasing value. *)
Lemma before_ge (tie : nat -> nat -> bool) (p q : nat * Q) :
  before tie p q = true -> (q.2 <= p.2)%Q.
Proof.
  unfold before. destruct (Qle_bool q.2 p.2) eqn:A; [|discriminate].
  intros _. by apply Qle_bool_iff.
Qed.

Lemma not_before_le (tie : nat -> nat -> bool) (p q : nat * Q) :
  before tie p q = false -> (p.2 <= q.2)%Q.
Proof.
  unfold before. destruct (Qle_bool q.2 p.2) eqn:A.
  - destruct (Qle_bool p.2 q.2) eqn:B; [|discriminate]. intros _. by apply Qle_bool_iff.
  - intros _. apply Qlt_le_weak, Qnot_le_lt. intros H. apply Qle_bool_iff in H. congruence.
Qed.

Lemma insert_desc_sorted (tie : nat -> nat -> bool) (p : nat * Q) (l : list (nat * Q)) :
  StronglySorted (fun a b => (b.2 <= a.2)%Q) l ->
  StronglySorted (fun a b => (b.2 <= a.2)%Q) (insert_desc tie p l).
Proof.
  induction 1 as [|q l Hl IH Hq]; simpl; [by repeat constructor|].
  destruct (before tie p q) eqn:B.
  - constructor; [by constructor|]. constructor; [by apply (before_ge tie)|].
    eapply Forall_impl; [exact Hq|]. intros x Hx. simpl in *.
    apply (Qle_trans _ q.2); [done|by apply (before_ge tie)].
  - constructor; [done|]. apply insert_desc_Forall; [|done].
    by apply (not_before_le tie).
Qed.

Lemma sorted_insert_sorted (tie : nat -> nat -> bool) (l : list (nat * Q)) :
  StronglySorted (fun a b => (b.2 <= a.2)%Q) (foldr (insert_desc tie) [] l).
Proof.
  induction l as [|p l IH]; simpl; [constructor|]. by apply insert_desc_sorted.
Qed.

Lemma StronglySorted_fmap_1 {A B} (R : relation B) (f : A -> B) (l : list A) :
  StronglySorted (fun a b => R (f a) (f b)) l -> StronglySorted R (f <$> l).
Proof.
  induction 1 as [|x l Hl IH Hx]; csimpl; constructor; [done|].
  by apply Forall_fmap.
Qed.

(** Whatever the order of ties, the ranking lists every position of the
    row once, by decreasing value. *)
Lemma argsort_desc_descending (tie : nat -> nat -> bool) (row : list Q) :
  StronglySorted (fun i j => (nth j row 0 <= nth i row 0)%Q) (argsort_desc tie row).
Proof.
  unfold argsort_desc. apply StronglySorted_fmap_1.
  assert (Hrow : Forall (fun p : nat * Q => row !! p.1 = Some p.2)
                   (foldr (insert_desc tie) [] (imap (fun i x => (i, x)) row))).
  { apply sorted_insert_Forall. apply Forall_lookup. intros i q Hq.
    rewrite list_lookup_imap in Hq.
    destruct (row !! i) as [x|] eqn:Hx; [|discriminate]. by injection Hq as <-. }
  pose proof (sorted_insert_sorted tie (imap (fun i x => (i, x)) row)) as Hs.
  revert Hrow Hs. generalize (foldr (insert_desc tie) [] (imap (fun i x => (i, x)) row)).
  intros l Hrow Hs. induction Hs as [|p l Hl IH Hp]; [constructor|].
  apply Forall_cons in Hrow as [Hp1 Hrow]. constructor; [by apply IH|].
  apply Forall_forall. intros q Hq.
  rewrite Forall_forall in Hp, Hrow.
  rewrite (nth_lookup_Some _ _ _ _ Hp1), (nth_lookup_Some _ _ _ _ (Hrow q Hq)).
  by apply Hp.
Qed.

Lemma index_of_lookup (t : list nat) (i : nat) : i ∈ t -> t !! index_of i t = Some i.
Proof.
  induction t as [|j t IH]; [by intros ?%elem_of_nil|]. intros Hi. simpl.
  case_decide; [by subst|]. simpl. apply IH.
  apply elem_of_cons in Hi as [?|?]; done.
Qed.

Lemma index_of_inj (t : list nat) (i j : nat) :
  i ∈ t -> j ∈ t -> index_of i t = index_of j t -> i = j.
Proof.
  intros Hi Hj E. apply index_of_lookup in Hi, Hj. rewrite E in Hi. congruence.
Qed.

Lemma index_of_sorted (R : relation nat) (t : list nat) (i j : nat) :
  StronglySorted R t -> i ∈ t -> j ∈ t ->
  (index_of i t < index_of j t)%nat -> R i j.
Proof.
  induction 1 as [|a t Ht IH Ha]; [by intros ?%elem_of_nil|]. simpl. intros Hi Hj.
  destruct (decide (i = a)) as [->|Hia]; destruct (decide (j = a)) as [->|Hja]; try lia.
  - intros _. apply elem_of_cons in Hj as [?|Hj]; [done|].
    by apply (proj1 (Forall_forall _ _) Ha).
  - intros Hlt. apply elem_of_cons in Hi as [?|Hi]; [done|].
    apply elem_of_cons in Hj as [?|Hj]; [done|]. apply IH; [done..|lia].
Qed.

Lemma StronglySorted_by_lookup {A} (R : relation A) (l : list A) :
  (forall a b x y, l !! a = Some x -> l !! b = Some y -> (a < b)%nat -> R x y) ->
  StronglySorted R l.
Proof.
  induction l as [|x l IH]; [constructor|]. intros H. constructor.
  - apply IH. intros a b y z Hy Hz Hab. apply (H (S a) (S b)); [done..|lia].
  - apply Forall_lookup. intros k y Hy. apply (H 0%nat (S k)); [done..|lia].
Qed.

Lemma index_of_positions (t : list nat) :
  NoDup t -> StronglySorted (fun i j => (index_of i t < index_of j t)%nat) t.
Proof.
  intros Hnd. apply StronglySorted_by_lookup. intros a b x y Hx Hy Hab.
  assert (Ha : index_of x t = a).
  { apply (NoDup_lookup t _ _ x Hnd); [|done].
    apply index_of_lookup. by apply (list_elem_of_lookup_2 _ a). }
  assert (Hb : index_of y t = b).
  { apply (NoDup_lookup t _ _ y Hnd); [|done].
    apply index_of_lookup. by apply (list_elem_of_lookup_2 _ b). }
  lia.
Qed.

Section Reproduce.
Variables (row : list Q) (t : list nat).
Hypothesis Hperm : t ≡ₚ seq 0 (length row).
Hypothesis Hsorted : StronglySorted (fun i j => (nth j row 0 <= nth i row 0)%Q) t.

Lemma row_position (p : nat * Q) : row !! p.1 = Some p.2 -> p.1 ∈ t.
Proof.
  intros Hp. rewrite Hperm. apply elem_of_seq. apply lookup_lt_Some in Hp. lia.
Qed.

Lemma before_rank (p q : nat * Q) :
  row !! p.1 = Some p.2 -> row !! q.1 = Some q.2 -> p.1 <> q.1 ->
  before (tie_of t) p q = true <-> (index_of p.1 t < index_of q.1 t)%nat.
Proof.
  intros Hp Hq Hne.
  pose proof (row_position p Hp) as Hpt. pose proof (row_position q Hq) as Hqt.
  assert (Hidx : index_of p.1 t <> index_of q.1 t)
    by (intros E; by apply Hne, (index_of_inj t)).
  assert (Hpq : (index_of p.1 t < index_of q.1 t)%nat -> (q.2 <= p.2)%Q).
  { intros Hlt. pose proof (index_of_sorted _ t _ _ Hsorted Hpt Hqt Hlt) as H.
    simpl in H. by rewrite (nth_lookup_Some _ _ _ _ Hp), (nth_lookup_Some _ _ _ _ Hq) in H. }
  assert (Hqp : (index_of q.1 t < index_of p.1 t)%nat -> (p.2 <= q.2)%Q).
  { intros Hlt. pose proof (index_of_sorted _ t _ _ Hsorted Hqt Hpt Hlt) as H.
    simpl in H. by rewrite (nth_lookup_Some _ _ _ _ Hp), (nth_lookup_Some _ _ _ _ Hq) in H. }
  unfold before, tie_of.
  destruct (Qle_bool q.2 p.2) eqn:A; [destruct (Qle_bool p.2 q.2) eqn:B|].
  - apply Nat.ltb_lt.
  - split; [intros _|done].
    destruct (decide (index_of p.1 t < index_of q.1 t)%nat) as [|Hn]; [done|].
    assert (Hle : (p.2 <= q.2)%Q) by (apply Hqp; lia).
    apply Qle_bool_iff in Hle. congruence.
  - split; [discriminate|]. intros Hlt. apply Hpq, Qle_bool_iff in Hlt. congruence.
Qed.

Lemma insert_desc_ranked (p : nat * Q) (l : list (nat * Q)) :
  row !! p.1 = Some p.2 ->
  Forall (fun q => row !! q.1 = Some q.2 /\ p.1 <> q.1) l ->
  StronglySorted (fun a b => (index_of a.1 t < index_of b.1 t)%nat) l ->
  StronglySorted (fun a b => (index_of a.1 t < index_of b.1 t)%nat)
    (insert_desc (tie_of t) p l).
Proof.
  intros Hp Hl Hs. induction Hs as [|q l Hs IH Hq]; simpl; [by repeat constructor|].
  apply Forall_cons in Hl as [[Hq1 Hne] Hl].
  destruct (before (tie_of t) p q) eqn:B.
  - apply (before_rank p q Hp Hq1 Hne) in B.
    constructor; [by constructor|]. constructor; [done|].
    eapply Forall_impl; [exact Hq|]. intros x Hx. simpl in *. lia.
  - constructor; [by apply IH|]. apply insert_desc_Forall; [|done].
    assert (Hn : ~ (index_of p.1 t < index_of q.1 t)%nat).
    { intros Hlt. apply (before_rank p q Hp Hq1 Hne) in Hlt. congruence. }
    assert (Hidx : index_of p.1 t <> index_of q.1 t).
    { intros E. apply Hne, (index_of_inj t); [by apply row_position..|done]. }
    lia.
Qed.

Lemma sorted_insert_ranked (l : list (nat * Q)) :
  Forall (fun q => row !! q.1 = Some q.2) l -> NoDup l.*1 ->
  StronglySorted (fun a b => (index_of a.1 t < index_of b.1 t)%nat)
    (foldr (insert_desc (tie_of t)) [] l).
Proof.
  induction l as [|p l IH]; simpl; [constructor|]. intros Hl Hnd.
  apply Forall_cons in Hl as [Hp Hl]. apply NoDup_cons in Hnd as [Hnot Hnd].
  apply insert_desc_ranked; [done| |by apply IH].
  apply sorted_insert_Forall. apply Forall_forall. intros q Hq.
  split; [by apply (proj1 (Forall_forall _ _) Hl)|].
  intros E. apply Hnot. rewrite E. by apply list_elem_of_fmap_2.
Qed.

(** Every ranking of the positions by decreasing value is what
    [argsort_desc] returns under some order of ties. *)
Lemma argsort_desc_any_ranking : argsort_desc (tie_of t) row = t.
Proof.
  assert (Hnd : NoDup t) by (rewrite Hperm; apply NoDup_seq).
  apply (StronglySorted_unique_strong (fun i j => (index_of i t < index_of j t)%nat)).
  - intros i j _ _ ? ?. lia.
  - unfold argsort_desc. apply StronglySorted_fmap_1. apply sorted_insert_ranked.
    + apply Forall_lookup. intros i q Hq. rewrite list_lookup_imap in Hq.
      destruct (row !! i) as [x|] eqn:Hx; [|discriminate]. by injection Hq as <-.
    + rewrite positions_fst. apply NoDup_seq.
  - by apply index_of_positions.
  - by rewrite argsort_desc_perm, Hperm.
Qed.

End Reproduce.

End Ranking.


(** ** The pseudo-label branch returns on well-shaped inputs *)

Section Totality.
Context `{helpers : Helpers}.

Lemma top1_in_range self (est pseudo : list (list Q)) (j : nat) :
  (1 <= uv_loss_channels self)%nat -> n_channels self <> 0%nat ->
  Forall (fun r => length r = n_channels self) est ->
  Forall (fun r => length r = n_channels self) pseudo ->
  length est = length pseudo ->
  (j < length pseudo)%nat ->
  (nth 0 (nth j (top_k self pseudo) []) 0 < length (nth j est []))%nat.
Proof.
  intros Hk Hn He Hp Hlen Hj. rewrite nth_top_k by done.
  rewrite (nth_Forall _ est [] j He) by lia.
  rewrite <- (nth_Forall _ pseudo [] j Hp Hj).
  apply top_channel_range. rewrite (nth_Forall _ pseudo [] j Hp Hj). lia.
Qed.

Lemma segm_branch_total self out st est pseudo :
  loss_name self = "ce" ->
  (1 <= uv_loss_channels self)%nat -> n_channels self <> 0%nat ->
  Forall (fun r => length r = n_channels self) (data est) ->
  Forall (fun r => length r = n_channels self) pseudo ->
  length (data est) = length pseudo ->
  exists s, segm_branch self out st est pseudo = Ok s.
Proof.
  intros Hce Hk Hn He Hp Hlen.
  assert (Hterms :
    cross_entropy_none (gated self pseudo (data est))
      (map (fun row => nth 0 row 0%nat) (gated self pseudo (top_k self pseudo)))
    = Ok (pseudo_segm_term self (data est) pseudo <$> kept self pseudo)).
  { rewrite (gated_at_kept [] self pseudo (data est)) by done.
    rewrite (gated_at_kept [] self pseudo (top_k self pseudo))
      by (unfold top_k; by rewrite length_map).
    change (map ?f ?k) with (f <$> k). rewrite <- list_fmap_compose.
    apply cross_entropy_none_points. intros j Hj. simpl.
    apply top1_in_range; try done. by apply kept_lt in Hj. }
  unfold gated in Hterms. unfold segm_branch.
  fold (confidence_mask self pseudo) (top_k self pseudo).
  destruct (gating self).
  - case_decide; [eauto|].
    assert (Hcm : length (confidence_mask self pseudo) = length pseudo)
      by (unfold confidence_mask; by rewrite !length_map).
    repeat (first [ rewrite index_mask_eq by (unfold top_k; rewrite ?length_map; lia)
                  | rewrite tindex_mask_eq by lia ]; simpl).
    unfold column. rewrite decide_True by lia. simpl.
    unfold tbind. simpl. rewrite Hterms. simpl.
    rewrite decide_False by (rewrite Hce; discriminate).
    rewrite decide_True by done. eauto.
  - unfold column. rewrite decide_True by lia. simpl.
    unfold tbind. rewrite Hterms. simpl.
    rewrite decide_False by (rewrite Hce; discriminate).
    rewrite decide_True by done. eauto.
Qed.

Lemma gather_total (rows : list (list Q)) (pred : list (list nat)) (c i : nat) :
  Forall (fun r => length r = c) rows ->
  Forall (fun pr => (nth i pr 0 < c)%nat) pred ->
  (length pred <= length rows)%nat ->
  gather rows (length pred) (map (fun row => nth i row 0%nat) pred)
  = Ok ((fun r => nth (nth i (nth r pred []) 0%nat) (nth r rows []) 0%Q)
          <$> seq 0 (length pred)).
Proof.
  intros Hrows Hpred Hlen. unfold gather.
  rewrite decide_True by (by rewrite length_map).
  apply mapM_result_Ok. rewrite zip_seq_column. apply Forall2_fmap.
  apply Forall_Forall2_diag, Forall_forall. intros r Hr. simpl.
  apply elem_of_seq in Hr.
  destruct (nth_lookup_or_length rows r []) as [-> | ?]; [|lia].
  assert (Hc : (nth i (nth r pred []) 0 < length (nth r rows []))%nat).
  { rewrite (nth_Forall _ rows [] r Hrows) by lia.
    apply (nth_Forall (fun pr => (nth i pr 0 < c)%nat) pred [] r Hpred). lia. }
  destruct (nth_lookup_or_length (nth r rows []) (nth i (nth r pred []) 0%nat) 0%Q)
    as [-> | ?]; [done | lia].
Qed.

Lemma gather_top_total (k width c : nat) (rows : list (list Q)) (pred : list (list nat)) :
  k <> 0%nat -> (k <= width)%nat ->
  Forall (fun r => length r = c) rows ->
  Forall (fun pr => forall i, (i < k)%nat -> (nth i pr 0 < c)%nat) pred ->
  (length pred <= length rows)%nat ->
  gather_top k width rows (length pred) pred = Ok (gathered k rows pred).
Proof.
  intros Hk Hw Hrows Hpred Hlen. unfold gather_top, gathered.
  rewrite decide_False by done.
  assert (Hparts :
    mapM (fun i => cols ← column width i pred; gather rows (length pred) cols) (seq 0 k)
    = Ok ((fun i =>
             (fun r => nth (nth i (nth r pred []) 0%nat) (nth r rows []) 0%Q)
               <$> seq 0 (length pred)) <$> seq 0 k)).
  { apply mapM_result_Ok. apply Forall2_fmap_r.
    apply Forall_Forall2_diag, Forall_forall. intros i Hi. simpl.
    apply elem_of_seq in Hi. unfold column. rewrite decide_True by lia. simpl.
    apply (gather_total rows pred c i); [done| |done].
    eapply Forall_impl; [exact Hpred|]. intros pr Hpr. apply Hpr. lia. }
  by rewrite Hparts.
Qed.

Lemma gathered_length (k : nat) (rows : list (list Q)) (pred : list (list nat)) :
  length (gathered k rows pred) = (k * length pred)%nat.
Proof.
  unfold gathered. transitivity (length (seq 0 k) * length pred)%nat;
    [|by rewrite length_seq].
  induction (seq 0 k) as [|i ranks IH]; [done|]. csimpl.
  by rewrite length_app, length_fmap, length_seq, IH.
Qed.

(** The ranks kept of every position name channels. *)
Lemma top_k_ranks self (pseudo : list (list Q)) :
  Forall (fun r => length r = n_channels self) pseudo ->
  (uv_loss_channels self <= n_channels self)%nat ->
  Forall (fun pr => forall i, (i < uv_loss_channels self)%nat ->
                              (nth i pr 0 < n_channels self)%nat) (top_k self pseudo).
Proof.
  intros Hp Hk. unfold top_k. change (map ?f ?l) with (f <$> l).
  apply Forall_fmap. eapply Forall_impl; [exact Hp|].
  intros row Hrow i Hi. simpl. rewrite <- Hrow.
  apply top_channel_range. rewrite Hrow. lia.
Qed.

Lemma uv_branch_total self p_key st est pseudo (pseudo_s : list (list Q)) :
  loss_name self = "ce" ->
  (1 <= uv_loss_channels self)%nat -> (uv_loss_channels self <= n_channels self)%nat ->
  mask st = (if gating self then Some (confidence_mask self pseudo_s) else None) ->
  pred_index st = Some (gated self pseudo_s (top_k self pseudo_s)) ->
  Forall (fun r => length r = n_channels self) pseudo_s ->
  Forall (fun r => length r = n_channels self) (data est) ->
  Forall (fun r => length r = n_channels self) pseudo ->
  length (data est) = length pseudo_s -> length pseudo = length pseudo_s ->
  exists s, uv_branch self p_key st est pseudo = Ok s.
Proof.
  intros Hce Hk1 Hk2 Hmask Hpred Hps He Hp Hle Hlp.
  pose proof (top_k_ranks self pseudo_s Hps Hk2) as Hranks.
  assert (Hcm : length (confidence_mask self pseudo_s) = length pseudo_s)
    by (unfold confidence_mask; by rewrite !length_map).
  assert (Htk : length (top_k self pseudo_s) = length pseudo_s)
    by (unfold top_k; by rewrite length_map).
  unfold uv_branch. rewrite Hmask, Hpred. unfold gated.
  destruct (gating self).
  - rewrite index_mask_eq, tindex_mask_eq by lia. simpl.
    assert (Hlen : forall {A} (l : list A), length l = length pseudo_s ->
              length (mask_filter (confidence_mask self pseudo_s) l)
              = length (mask_filter (confidence_mask self pseudo_s) (top_k self pseudo_s))).
    { intros A l Hl. rewrite !mask_filter_length by lia. done. }
    rewrite (Hlen _ pseudo Hlp).
    rewrite (gather_top_total _ _ (n_channels self)); try done; try lia;
      [|by apply Forall_mask_filter|by apply Forall_mask_filter|by rewrite <- (Hlen _ pseudo)].
    simpl. unfold tbind. simpl.
    rewrite (gather_top_total _ _ (n_channels self)); try done; try lia;
      [|by apply Forall_mask_filter|by apply Forall_mask_filter
       |by rewrite <- (Hlen _ (data est))].
    simpl. unfold tbind2, smooth_l1_loss_none, elementwise. simpl.
    rewrite decide_True by (by rewrite !gathered_length).
    simpl. rewrite decide_False by (rewrite Hce; discriminate).
    rewrite decide_True by done. eauto.
  - simpl. rewrite Hlp, <- Htk.
    rewrite (gather_top_total _ _ (n_channels self)); try done; try lia.
    simpl. unfold tbind. simpl.
    rewrite (gather_top_total _ _ (n_channels self)); try done; try lia.
    simpl. unfold tbind2, smooth_l1_loss_none, elementwise. simpl.
    rewrite decide_True by (by rewrite !gathered_length).
    simpl. rewrite decide_False by (rewrite Hce; discriminate).
    rewrite decide_True by done. eauto.
Qed.

End Totality.

(** X12. Under the plain cross entropy, with between one and [n_channels]
    pseudo channels in use, the pseudo-label branch returns a loss dictionary
    whenever the three pairs of tensors can be cut to the foreground pixels:
    the channel indices that [argsort] produces are always valid class
    indices for the cross entropy and valid columns for the gathering, so no
    index is ever out of range, whatever the scores, the threshold and the
    foreground. *)
Theorem pseudo_branch_returns_on_shaped_inputs `{helpers : Helpers}
    self proposals out pa p1 p2 p3 est1 ps1 est2 ps2 est3 ps3 :
  loss_name self = "ce" ->
  (1 <= uv_loss_channels self)%nat ->
  (uv_loss_channels self <= n_channels self)%nat ->
  fine_segm_p pa = Some p1 ->
  loop_inputs self pa (pos_index_of self pa) (fine_segm out) p1 = Ok (est1, ps1) ->
  u_p pa = Some p2 ->
  loop_inputs self pa (pos_index_of self pa) (u out) p2 = Ok (est2, ps2) ->
  v_p pa = Some p3 ->
  loop_inputs self pa (pos_index_of self pa) (v out) p3 = Ok (est3, ps3) ->
  exists m, produce_densepose_losses_unsup self proposals out pa = Ok m
            /\ dom m = pseudo_keys.
Proof.
  intros Hce Hk1 Hk2 Hp1 Hin1 Hp2 Hin2 Hp3 Hin3.
  assert (Hret : exists m, produce_densepose_losses_unsup self proposals out pa = Ok m).
  { pose proof (loop_inputs_shape _ _ _ _ _ _ _ Hin1) as (Hn & He1 & Hs1 & Hl1 & Hm1).
    pose proof (loop_inputs_shape _ _ _ _ _ _ _ Hin2) as (_ & He2 & Hs2 & Hl2 & Hm2).
    pose proof (loop_inputs_shape _ _ _ _ _ _ _ Hin3) as (_ & He3 & Hs3 & Hl3 & Hm3).
    unfold produce_densepose_losses_unsup. simpl zip.
    destruct (segm_branch_total self out st0 est1 ps1) as [s1 E1]; try done; try lia.
    destruct s1 as [st1|d].
    2:{ exists d. apply for_loop_first_Return.
        by rewrite (iteration_segm _ _ _ _ _ _ _ _ Hp1 Hin1). }
    rewrite (for_loop_first_Continue _ _ _ _ st1)
      by (by rewrite (iteration_segm _ _ _ _ _ _ _ _ Hp1 Hin1)).
    apply segm_branch_Continue in E1 as (_ & _ & Hmask & Hpred & _).
    destruct (uv_branch_total self "u_p" st1 est2 ps2 ps1) as [s2 E2];
      try done; try lia.
    destruct (uv_branch_Ok _ _ _ _ _ _ E2) as (st2 & -> & Hmask2 & Hpred2 & _).
    rewrite (for_loop_first_Continue _ _ _ _ st2)
      by (by rewrite (iteration_u _ _ _ _ _ _ _ _ Hp2 Hin2)).
    destruct (uv_branch_total self "v_p" st2 est3 ps3 ps1) as [s3 E3];
      try done; try lia;
      try (rewrite Hmask2; exact Hmask); try (rewrite Hpred2; exact Hpred).
    destruct (uv_branch_Ok _ _ _ _ _ _ E3) as (st3 & -> & _).
    rewrite (for_loop_first_Continue _ _ _ _ st3)
      by (by rewrite (iteration_v _ _ _ _ _ _ _ _ Hp3 Hin3)).
    simpl. eauto. }
  destruct Hret as [m Hm]. exists m. split; [done|].
  unfold pseudo_keys. eapply unsup_dom; [by left|done].
Qed.

(** ** Where a mean can be empty *)

Section Means.
Context `{helpers : Helpers}.

Lemma any_true (m : list bool) : any m = true -> exists i, m !! i = Some true.
Proof.
  unfold any. intros H. apply existsb_exists in H as (b & Hin & Hb).
  simpl in Hb. subst b. apply list_elem_of_In, list_elem_of_lookup in Hin. done.
Qed.




End Means.



(** ** The properties above on the sample inputs *)

Lemma call_merges_disjoint_losses_witness :
  let self := Sample.loss_obj 1 "ce" in
  let r := @call Sample.h_all self [Sample.pa_fg] Sample.out (Some Sample.crt) in
  exists m,
    r = Ok m
    /\ (m = @produce_fake_densepose_losses Sample.h_all self Sample.out (Some Sample.crt)
        \/ exists a b c : LossDict,
             dom a ## dom b /\ dom a ## dom c /\ dom b ## dom c
             /\ forall k l, m !! k = Some l
                            <-> a !! k = Some l \/ b !! k = Some l \/ c !! k = Some l).
Proof.
  intros self r.
  assert (Hk : keys_of r <> None) by (vm_compute; discriminate).
  destruct r as [m|e] eqn:E; [|by destruct Hk].
  exists m. split; [done|].
  destruct (@call_merges_disjoint_losses Sample.h_all self [Sample.pa_fg] Sample.out
              (Some Sample.crt) m E)
    as [-> | (pa & fg & a & b & c & _ & _ & _ & _ & _ & _ & Hab & Hac & Hbc & Hm)];
    [by left|].
  right. by exists a, b, c.
Defined.

Lemma call_losses_at_points_witness :
  let self := Sample.loss_obj 1 "ce" in
  let r := @call Sample.h_all self [Sample.pa_fg] Sample.out None in
  let interpolator := @from_matches Sample.h_all Sample.pa_fg (1, 1)%nat in
  let u_pts := @extract_at_points Sample.h_all interpolator (data (u Sample.out)) in
  exists m lu,
    r = Ok m
    /\ m !! "loss_densepose_U" = Some lu
    /\ data lu
       = Fin (Qsum ((fun i => smooth_l1 (nth i u_pts 0) (nth i (u_gt Sample.pa_fg) 0))
                      <$> [0%nat])
              * w_points self)%Q.
Proof.
  intros self r interpolator u_pts.
  assert (Hk : keys_of r <> None) by (vm_compute; discriminate).
  destruct r as [m|e] eqn:E; [|by destruct Hk].
  destruct (@call_losses_at_points Sample.h_all self [Sample.pa_fg] Sample.out None
              Sample.pa_fg m)
    as (_ & _ & lu & li & HU & Hd & _); [done|reflexivity| |exact E|].
  - exists 0%nat, 1%nat. split; [reflexivity|]. split; [reflexivity|lia].
  - by exists m, lu.
Defined.

Lemma pseudo_uv_losses_over_top_channels_witness :
  let self := Sample.loss_obj 1 "ce" in
  let r := @produce_densepose_losses_unsup Sample.h_all self [Sample.pa_fg] Sample.out
             Sample.pa_fg in
  exists m lu lv,
    r = Ok m
    /\ m !! "loss_u_p" = Some lu /\ m !! "loss_v_p" = Some lv
    /\ graph lu = graph (u Sample.out) /\ graph lv = graph (v Sample.out).
Proof.
  intros self r.
  assert (Hs : exists est,
            @loop_inputs Sample.h_all self Sample.pa_fg
              (@pos_index_of Sample.h_all self Sample.pa_fg) (fine_segm Sample.out)
              Sample.pseudo_segm = Ok (est, [[1#10; 9#10]]%Q))
    by (eexists; vm_compute; reflexivity).
  assert (Hu : exists est,
            @loop_inputs Sample.h_all self Sample.pa_fg
              (@pos_index_of Sample.h_all self Sample.pa_fg) (u Sample.out)
              Sample.pseudo_uv = Ok (est, [[0; 3#4]]%Q))
    by (eexists; vm_compute; reflexivity).
  assert (Hv : exists est,
            @loop_inputs Sample.h_all self Sample.pa_fg
              (@pos_index_of Sample.h_all self Sample.pa_fg) (v Sample.out)
              Sample.pseudo_uv = Ok (est, [[0; 3#4]]%Q))
    by (eexists; vm_compute; reflexivity).
  destruct Hs as [est_s Hs], Hu as [est_u Hu], Hv as [est_v Hv].
  assert (Hk : keys_of r <> None) by (vm_compute; discriminate).
  destruct r as [m|e] eqn:E; [|by destruct Hk].
  destruct (@pseudo_uv_losses_over_top_channels Sample.h_all self [Sample.pa_fg] Sample.out
              Sample.pa_fg _ _ _ _ _ _ _ _ _ m eq_refl Hs eq_refl Hu eq_refl Hv eq_refl E)
    as [_ Hreal].
  destruct Hreal as (lu & lv & Hlu & Hlv & _ & _ & Hgu & Hgv);
    [vm_compute; discriminate|].
  by exists m, lu, lv.
Defined.

Lemma call_graphs_as_fake_witness :
  let self := Sample.loss_obj 1 "ce" in
  let r := @call Sample.h_all self [Sample.pa_fg] Sample.out (Some Sample.crt) in
  exists m l lf,
    r = Ok m
    /\ m !! "loss_correction_U" = Some l
    /\ @produce_fake_densepose_losses Sample.h_all self Sample.out (Some Sample.crt) !! "loss_correction_U"
       = Some lf
    /\ graph l = graph lf.
Proof.
  intros self r.
  assert (Hv : value_at "loss_correction_U" r <> None) by (vm_compute; discriminate).
  destruct r as [m|e] eqn:E; [|by destruct Hv].
  simpl in Hv. destruct (m !! "loss_correction_U") as [l|] eqn:Hl; [|by destruct Hv].
  destruct (@call_graphs_as_fake Sample.h_all self [Sample.pa_fg] Sample.out
              (Some Sample.crt) m "loss_correction_U" l eq_refl E)
    as (lf & Hlf & Hg); [discriminate|exact Hl|].
  by exists m, l, lf.
Defined.

Lemma sce_without_gate_raises_witness :
  exists e,
    @produce_densepose_losses_unsup Sample.h_all (Sample.loss_obj 1 "sce") [Sample.pa_fg]
      Sample.out Sample.pa_fg = Raise e.
Proof.
  apply (@sce_without_gate_raises Sample.h_all (Sample.loss_obj 1 "sce") [Sample.pa_fg]
           Sample.out Sample.pa_fg Sample.pseudo_segm); [reflexivity| |reflexivity].
  vm_compute. discriminate.
Defined.

Lemma sce_returns_only_fake_losses_witness :
  let self := Sample.loss_obj (95#100) "sce" in
  @produce_densepose_losses_unsup Sample.h_all self [Sample.pa_fg] Sample.out Sample.pa_fg
  = Ok (@produce_fake_densepose_losses_unsup Sample.h_all self Sample.out).
Proof.
  intros self.
  assert (Hk : keys_of (@produce_densepose_losses_unsup Sample.h_all self [Sample.pa_fg]
                          Sample.out Sample.pa_fg) <> None)
    by (vm_compute; discriminate).
  destruct (@produce_densepose_losses_unsup Sample.h_all self [Sample.pa_fg] Sample.out
              Sample.pa_fg) as [m|e] eqn:E; [|by destruct Hk].
  by rewrite (@sce_returns_only_fake_losses Sample.h_all self [Sample.pa_fg] Sample.out
                Sample.pa_fg m eq_refl E).
Defined.

Lemma channel_count_out_of_range_gives_no_loss_witness :
  let self := attributes (cfg_channels 0 (95#100) "ce") in
  uv_loss_channels self = 0%nat
  /\ @produce_densepose_losses_unsup Sample.h_all self [Sample.pa_fg] Sample.out Sample.pa_fg
     = Ok (@produce_fake_densepose_losses_unsup Sample.h_all self Sample.out).
Proof.
  intros self. split; [reflexivity|].
  assert (Hk : keys_of (@produce_densepose_losses_unsup Sample.h_all self [Sample.pa_fg]
                          Sample.out Sample.pa_fg) <> None)
    by (vm_compute; discriminate).
  destruct (@produce_densepose_losses_unsup Sample.h_all self [Sample.pa_fg] Sample.out
              Sample.pa_fg) as [m|e] eqn:E; [|by destruct Hk].
  by rewrite (@channel_count_out_of_range_gives_no_loss Sample.h_all self [Sample.pa_fg]
                Sample.out Sample.pa_fg m (or_introl eq_refl) E).
Defined.

Lemma regression_loss_zero_iff_exact_witness :
  let self := Sample.loss_obj 1 "ce" in
  let interpolator := @from_matches Sample.h_all Sample.pa_fg (1, 1)%nat in
  let r := @produce_densepose_losses_uv Sample.h_all self [Sample.pa_fg] Sample.out
             Sample.pa_fg interpolator [true; false] None in
  exists m lu qu,
    r = Ok m /\ m !! "loss_densepose_U" = Some lu /\ data lu = Fin qu
    /\ (0 <= qu)%Q
    /\ ((qu == 0)%Q
        <-> forall i, i ∈ valid_points [true; false] ->
              (nth i (@extract_at_points Sample.h_all interpolator (data (u Sample.out))) 0
               == nth i (u_gt Sample.pa_fg) 0)%Q).
Proof.
  intros self interpolator r.
  assert (Hk : keys_of r <> None) by (vm_compute; discriminate).
  destruct r as [m|e] eqn:E; [|by destruct Hk].
  destruct (@regression_loss_zero_iff_exact Sample.h_all self [Sample.pa_fg] Sample.out
              Sample.pa_fg interpolator [true; false] None m)
    as (lu & lv & qu & qv & HU & Hd & _ & _ & Hpos & _ & Hz & _); [reflexivity|exact E|].
  by exists m, lu, qu.
Defined.

Lemma correction_loss_zero_iff_residual_witness :
  let self := Sample.loss_obj 1 "ce" in
  let interpolator := @from_matches Sample.h_all Sample.pa_fg (1, 1)%nat in
  let r := @produce_densepose_losses_uv Sample.h_all self [Sample.pa_fg] Sample.out
             Sample.pa_fg interpolator [true; false] (Some Sample.crt) in
  exists m lu qu,
    r = Ok m /\ m !! "loss_correction_U" = Some lu /\ data lu = Fin qu
    /\ (0 <= qu)%Q
    /\ ((qu == 0)%Q
        <-> forall i, i ∈ valid_points [true; false] ->
              (nth i (@extract_at_points Sample.h_all interpolator (data (crt_u Sample.crt))) 0
               == nth i (u_gt Sample.pa_fg) 0
                  - clamp 0 1 (nth i (@extract_at_points Sample.h_all interpolator
                                        (data (u Sample.out))) 0))%Q).
Proof.
  intros self interpolator r.
  assert (Hk : keys_of r <> None) by (vm_compute; discriminate).
  destruct r as [m|e] eqn:E; [|by destruct Hk].
  destruct (@correction_loss_zero_iff_residual Sample.h_all self [Sample.pa_fg] Sample.out
              Sample.pa_fg interpolator [true; false] Sample.crt m)
    as (lu & lv & qu & qv & HU & Hd & _ & _ & Hpos & _ & Hz & _); [reflexivity|exact E|].
  by exists m, lu, qu.
Defined.

Lemma gate_under_every_confidence_keeps_all_witness :
  let self := Sample.loss_obj (1#2) "ce" in
  let r := @produce_densepose_losses_unsup Sample.h_all self [Sample.pa_fg] Sample.out
             Sample.pa_fg in
  (pseudo_threshold self <= row_max [1#10; 9#10])%Q
  /\ exists m est a,
       r = Ok m
       /\ m !! "loss_unsup_segm" = Some a
       /\ data a
          = smul (vmean (@pseudo_segm_term Sample.h_all self (data est)
                           [[1#10; 9#10]]%Q <$> [0%nat]))
              (w_p_segm self).
Proof.
  intros self r. split; [vm_compute; discriminate|].
  assert (Hin : exists est,
            @loop_inputs Sample.h_all self Sample.pa_fg
              (@pos_index_of Sample.h_all self Sample.pa_fg) (fine_segm Sample.out)
              Sample.pseudo_segm = Ok (est, [[1#10; 9#10]]%Q))
    by (eexists; vm_compute; reflexivity).
  destruct Hin as [est Hin].
  assert (Hk : keys_of r <> None) by (vm_compute; discriminate).
  destruct r as [m|e] eqn:E; [|by destruct Hk].
  destruct (@gate_under_every_confidence_keeps_all Sample.h_all self [Sample.pa_fg]
              Sample.out Sample.pa_fg Sample.pseudo_segm est [[1#10; 9#10]]%Q m eq_refl
              Hin eq_refl) as [_ Hall]; [|exact E|].
  - intros row Hrow. apply list_elem_of_singleton in Hrow as ->. vm_compute. discriminate.
  - destruct Hall as (a & Ha & Hd); [done..|]. by exists m, est, a.
Defined.

Lemma correction_head_has_abstain_class_witness :
  let self := Sample.loss_obj 1 "ce" in
  let interpolator := @from_matches Sample.h_all Sample.pa_two (1, 1)%nat in
  let r := @produce_densepose_losses_segm Sample.h_all self [Sample.pa_two] Sample.out
             Sample.pa_two interpolator [true; true] (Some Sample.crt) in
  let crt_rows :=
    data (@extract_all Sample.h_all interpolator (crt_fine_segm Sample.crt)) in
  (exists m, r = Ok m)
  /\ @j_valid Sample.h_all interpolator !! 0%nat = Some true
  /\ (n_channels self < length (nth 0 crt_rows []))%nat.
Proof.
  intros self interpolator r crt_rows.
  assert (Hk : keys_of r <> None) by (vm_compute; discriminate).
  destruct r as [m|e] eqn:E; [|by destruct Hk].
  split; [by exists m|]. split; [reflexivity|].
  by apply (@correction_head_has_abstain_class Sample.h_all self [Sample.pa_two] Sample.out
              Sample.pa_two interpolator [true; true] Sample.crt m 0%nat E eq_refl).
Defined.

Lemma pseudo_branch_returns_on_shaped_inputs_witness :
  let self := Sample.loss_obj (1#2) "ce" in
  exists m,
    @produce_densepose_losses_unsup Sample.h_all self [Sample.pa_fg] Sample.out Sample.pa_fg
    = Ok m
    /\ dom m = pseudo_keys.
Proof.
  intros self.
  assert (Hs : exists est,
            @loop_inputs Sample.h_all self Sample.pa_fg
              (@pos_index_of Sample.h_all self Sample.pa_fg) (fine_segm Sample.out)
              Sample.pseudo_segm = Ok (est, [[1#10; 9#10]]%Q))
    by (eexists; vm_compute; reflexivity).
  assert (Hu : exists est,
            @loop_inputs Sample.h_all self Sample.pa_fg
              (@pos_index_of Sample.h_all self Sample.pa_fg) (u Sample.out)
              Sample.pseudo_uv = Ok (est, [[0; 3#4]]%Q))
    by (eexists; vm_compute; reflexivity).
  assert (Hv : exists est,
            @loop_inputs Sample.h_all self Sample.pa_fg
              (@pos_index_of Sample.h_all self Sample.pa_fg) (v Sample.out)
              Sample.pseudo_uv = Ok (est, [[0; 3#4]]%Q))
    by (eexists; vm_compute; reflexivity).
  destruct Hs as [est_s Hs], Hu as [est_u Hu], Hv as [est_v Hv].
  eapply (@pseudo_branch_returns_on_shaped_inputs Sample.h_all self [Sample.pa_fg]
            Sample.out Sample.pa_fg);
    [reflexivity|simpl; lia|simpl; lia|reflexivity|exact Hs|reflexivity|exact Hu
    |reflexivity|exact Hv].
Defined.


